(** * bus1: active references and queue clocks

    A shallow embedding of [ipc/bus1/active.c], of the inline helpers of
    [ipc/bus1/util/queue.h] and of the poll handler of [ipc/bus1/main.c],
    with the properties of the natural-language specification stated and
    settled against it, and further properties read off the code.

    - [Queue] embeds the clock and node helpers of [queue.h].  The clock is
      a [u64]; its wrap-around is written out.
    - [Active] embeds [active.c].  Every function is written once, as a
      program over the atomic operations of the kernel; the program is run
      alone ([run]) or interleaved with other callers ([exec]).
    - [Main] embeds [bus1_fop_poll], the caller in [main.c] of the
      predicates of the other two. *)

From stdpp Require Import base numbers option list gmap.

Local Open Scope Z_scope.

(** ** Machine integers *)

Definition INT_MIN : Z := -2147483648.
Definition INT_MAX : Z := 2147483647.
Definition U64_MOD : Z := 18446744073709551616.

(** [int] arithmetic of the kernel (built with [-fno-strict-overflow]):
    two's complement, 32 bits. *)
Definition wrap_int (z : Z) : Z := (z + 2147483648) `mod` 4294967296 - 2147483648.

(** [u64] arithmetic. *)
Definition wrap_u64 (z : Z) : Z := z `mod` U64_MOD.

Definition is_int (z : Z) : Prop := INT_MIN <= z <= INT_MAX.
Definition is_u64 (z : Z) : Prop := 0 <= z < U64_MOD.

(** ** queue.h *)

Module Queue.

(** shift/mask for the [timestamp_and_type] field of queue nodes *)
Definition BUS1_QUEUE_TYPE_SHIFT : Z := 62.
Definition BUS1_QUEUE_TYPE_MASK : Z := wrap_u64 (Z.shiftl 3 BUS1_QUEUE_TYPE_SHIFT).

Definition BUS1_QUEUE_NODE_MESSAGE : Z := 0.
Definition BUS1_QUEUE_NODE_HANDLE_DESTRUCTION : Z := 1.
Definition BUS1_QUEUE_NODE_HANDLE_RELEASE : Z := 2.
Definition _BUS1_QUEUE_NODE_N : Z := 3.

(** The [rb] member of a node, as far as [queue.h] looks at it:
    [RB_CLEAR_NODE] leaves it cleared, linking it into a tree attaches it. *)
Inductive rb_node := RbCleared | RbLinked.

Definition RB_EMPTY_NODE (rb : rb_node) : bool :=
  match rb with RbCleared => true | RbLinked => false end.

Record bus1_queue_node := {
  rb : rb_node;
  ref : Z;
  sender : Z;
  timestamp_and_type : Z;
}.

Record bus1_queue := {
  clock : Z;
  front : option positive;
  messages : list bus1_queue_node;
}.

Definition bus1_queue_node_init (type sender : Z) : bus1_queue_node * bool :=
  let warned :=
    negb (Z.land type (wrap_u64 (Z.lnot (Z.shiftr BUS1_QUEUE_TYPE_MASK BUS1_QUEUE_TYPE_SHIFT))) =? 0) in
  ({| rb := RbCleared; ref := 1; sender := sender;
      timestamp_and_type := wrap_u64 (Z.shiftl type BUS1_QUEUE_TYPE_SHIFT) |}, warned).

(** [kref_get_unless_zero(&node->ref)]: the kernel takes one more
    reference unless the counter is zero, and tells whether it did. *)
Definition kref_get_unless_zero (ref : Z) : Z * bool :=
  if ref =? 0 then (ref, false) else (wrap_int (ref + 1), true).

(** The node as deinit leaves it (a NULL node is [None]), whether
    [WARN_ON(!RB_EMPTY_NODE(&node->rb))] fired, and whether
    [WARN_ON(kref_get_unless_zero(&node->ref))] fired. *)
Definition bus1_queue_node_deinit (node : option bus1_queue_node)
    : option bus1_queue_node * bool * bool :=
  match node with
  | Some n =>
      let warned_rb := negb (RB_EMPTY_NODE (rb n)) in
      let '(ref', warned_ref) := kref_get_unless_zero (ref n) in
      (Some {| rb := rb n; ref := ref'; sender := sender n;
               timestamp_and_type := timestamp_and_type n |},
       warned_rb, warned_ref)
  | None => (None, false, false)
  end.

Definition bus1_queue_node_get_type (node : bus1_queue_node) : Z :=
  Z.shiftr (Z.land (timestamp_and_type node) BUS1_QUEUE_TYPE_MASK) BUS1_QUEUE_TYPE_SHIFT.

Definition bus1_queue_node_get_timestamp (node : bus1_queue_node) : Z :=
  Z.land (timestamp_and_type node) (wrap_u64 (Z.lnot BUS1_QUEUE_TYPE_MASK)).

Definition bus1_queue_node_is_queued (node : bus1_queue_node) : bool :=
  negb (RB_EMPTY_NODE (rb node)).

(** The [u64] value [timestamp & 1] is returned as a [bool]. *)
Definition bus1_queue_node_is_staging (node : bus1_queue_node) : bool :=
  negb (Z.land (bus1_queue_node_get_timestamp node) 1 =? 0).

(** [queue->clock += 2; return queue->clock;] *)
Definition bus1_queue_tick (queue : bus1_queue) : Z * bus1_queue :=
  let queue' := {| clock := wrap_u64 (clock queue + 2);
                   front := front queue; messages := messages queue |} in
  (clock queue', queue').

(** The third component tells whether [WARN_ON(timestamp & 1)] fired. *)
Definition bus1_queue_sync (queue : bus1_queue) (timestamp : Z) : Z * bus1_queue * bool :=
  let warned := negb (Z.land timestamp 1 =? 0) in
  let queue' := {| clock := Z.max (clock queue) timestamp;
                   front := front queue; messages := messages queue |} in
  (clock queue', queue', warned).


Definition bus1_queue_compare (a_ts a_sender b_ts b_sender : Z) : Z :=
  if a_ts <? b_ts then -1
  else if a_ts >? b_ts then 1
  else if a_sender <? b_sender then -1
  else if a_sender >? b_sender then 1
  else 0.

(** Clock operations, for statements about sequences of them. *)
Inductive clock_op := Tick | Sync (timestamp : Z).

Definition apply_clock_op (o : clock_op) (queue : bus1_queue) : bus1_queue :=
  match o with
  | Tick => (bus1_queue_tick queue).2
  | Sync t => (bus1_queue_sync queue t).1.2
  end.

Definition apply_clock_ops (os : list clock_op) (queue : bus1_queue) : bus1_queue :=
  foldl (fun q o => apply_clock_op o q) queue os.

(** Every timestamp handed to [sync] is a [u64]; every one is even. *)
Definition u64_syncs (os : list clock_op) : Prop :=
  Forall (fun o => match o with Tick => True | Sync t => is_u64 t end) os.

Definition even_syncs (os : list clock_op) : Prop :=
  Forall (fun o => match o with Tick => True | Sync t => Z.even t = true end) os.

(** No tick of the sequence starts at one of the two topmost clock values
    (where [clock += 2] wraps). *)
Fixpoint ticks_below_wrap (os : list clock_op) (queue : bus1_queue) : Prop :=
  match os with
  | [] => True
  | o :: os' =>
      match o with Tick => clock queue + 2 < U64_MOD | Sync _ => True end
      /\ ticks_below_wrap os' (apply_clock_op o queue)
  end.

Definition fresh_queue : bus1_queue := {| clock := 0; front := None; messages := [] |}.

End Queue.

(** ** active.c *)

Module Active.

(** *** Bias values *)

Definition BUS1_ACTIVE_BIAS : Z := INT_MIN + 5.
Definition BUS1_ACTIVE_RELEASE_DIRECT : Z := BUS1_ACTIVE_BIAS - 1.
Definition BUS1_ACTIVE_RELEASE : Z := BUS1_ACTIVE_BIAS - 2.
Definition BUS1_ACTIVE_DRAINED : Z := BUS1_ACTIVE_BIAS - 3.
Definition BUS1_ACTIVE_NEW : Z := BUS1_ACTIVE_BIAS - 4.
Definition _BUS1_ACTIVE_RESERVED : Z := BUS1_ACTIVE_BIAS - 5.

(** *** Memory, events, atomic operations *)

(** Objects, wait-queues and callbacks are named by their address; a C
    pointer is an optional address, [NULL] being [None].  The memory maps
    the address of a [struct bus1_active] to its [count]. *)
Definition addr := positive.
Definition ptr := option addr.
Definition NULL : ptr := None.

Inductive event :=
  | EvWarn                              (* a WARN_ON fired *)
  | EvCount (a : addr) (v : Z)          (* the counter of [a] was written: it holds [v] *)
  | EvRelease (f : addr) (a : addr)     (* the release callback [f] was called on [a] *)
  | EvWakeUp (q : addr)                 (* wake_up(q) *)
  | EvWakeUpAll (q : addr).             (* wake_up_all(q) *)

(** One access of the shared memory, or one visible effect. *)
Inductive action :=
  | AtomicRead (a : addr)
  | AtomicSet (a : addr) (v : Z)
  | AtomicCmpxchg (a : addr) (old new : Z)
  | AtomicDecReturn (a : addr)
  | AtomicIncUnlessNegative (a : addr)
  | WaitEvent (q : addr) (a : addr) (cond : Z -> bool)
  | Emit (e : event).

(** What an action does to the memory: it yields a value, the new memory
    and the events it produced; or the caller sleeps ([NotReady]: the
    condition of a [wait_event] is false); or it touches memory that holds
    no object ([Invalid]). *)
Inductive effect :=
  | Eff (v : Z) (h : gmap addr Z) (evs : list event)
  | NotReady
  | Invalid.

Definition perform (act : action) (h : gmap addr Z) : effect :=
  match act with
  | AtomicRead a =>
      match h !! a with Some c => Eff c h [] | None => Invalid end
  | AtomicSet a v =>
      match h !! a with Some _ => Eff 0 (<[a:=v]> h) [EvCount a v] | None => Invalid end
  | AtomicCmpxchg a old new =>
      match h !! a with
      | Some c => if c =? old then Eff c (<[a:=new]> h) [EvCount a new] else Eff c h []
      | None => Invalid
      end
  | AtomicDecReturn a =>
      match h !! a with
      | Some c => let c' := wrap_int (c - 1) in Eff c' (<[a:=c']> h) [EvCount a c']
      | None => Invalid
      end
  | AtomicIncUnlessNegative a =>
      match h !! a with
      | Some c =>
          if c >=? 0
          then let c' := wrap_int (c + 1) in Eff 1 (<[a:=c']> h) [EvCount a c']
          else Eff 0 h []
      | None => Invalid
      end
  | WaitEvent q a cond =>
      match h !! a with
      | Some c => if cond c then Eff 0 h [] else NotReady
      | None => Invalid
      end
  | Emit e => Eff 0 h [e]
  end.

(** *** Programs *)

(** A program is the tree of the actions a call performs, each followed by
    the rest of the call.  [Crash] is a NULL dereference; [Spin] stands for
    a compare-and-swap loop that used up its retries and is still looping. *)
Inductive prog (A : Type) : Type :=
  | Ret (x : A)
  | Act (act : action) (k : Z -> prog A)
  | Crash
  | Spin.
Arguments Ret {A} x.
Arguments Act {A} act k.
Arguments Crash {A}.
Arguments Spin {A}.

Fixpoint bind {A B : Type} (p : prog A) (f : A -> prog B) : prog B :=
  match p with
  | Ret x => f x
  | Act act k => Act act (fun v => bind (k v) f)
  | Crash => Crash
  | Spin => Spin
  end.

#[export] Instance prog_ret : MRet prog := @Ret.
#[export] Instance prog_bind : MBind prog := fun A B f p => bind p f.

Definition deref {A : Type} (p : ptr) (k : addr -> prog A) : prog A :=
  match p with Some a => k a | None => Crash end.

Definition atomic_read (p : ptr) : prog Z :=
  deref p (fun a => Act (AtomicRead a) Ret).
Definition atomic_set (p : ptr) (v : Z) : prog unit :=
  deref p (fun a => Act (AtomicSet a v) (fun _ => Ret ())).
Definition atomic_cmpxchg (p : ptr) (old new : Z) : prog Z :=
  deref p (fun a => Act (AtomicCmpxchg a old new) Ret).
Definition atomic_dec_return (p : ptr) : prog Z :=
  deref p (fun a => Act (AtomicDecReturn a) Ret).
Definition atomic_inc_unless_negative (p : ptr) : prog bool :=
  deref p (fun a => Act (AtomicIncUnlessNegative a) (fun v => Ret (negb (v =? 0)))).

(** [wait_event( *waitq, cond(atomic_read(&active->count)))].  The macro
    tests the condition first and uses the wait-queue only to sleep: with a
    NULL wait-queue a condition that holds lets the caller through, and one
    that does not makes it dereference NULL. *)
Definition wait_event (waitq active : ptr) (cond : Z -> bool) : prog unit :=
  deref active (fun a =>
    match waitq with
    | Some q => Act (WaitEvent q a cond) (fun _ => Ret ())
    | None => Act (AtomicRead a) (fun c => if cond c then Ret () else Crash)
    end).
Definition wake_up (waitq : ptr) : prog unit :=
  deref waitq (fun q => Act (Emit (EvWakeUp q)) (fun _ => Ret ())).
Definition wake_up_all (waitq : ptr) : prog unit :=
  deref waitq (fun q => Act (Emit (EvWakeUpAll q)) (fun _ => Ret ())).

(** [WARN_ON(c)] reports when [c] holds and evaluates to [c]. *)
Definition WARN_ON (c : bool) : prog bool :=
  if c then Act (Emit EvWarn) (fun _ => Ret true) else Ret false.

(** A call through the function pointer [release].  What the callback does
    besides being called is outside this model; it must not touch the
    counter. *)
Definition call_release (f : addr) (active : ptr) : prog unit :=
  deref active (fun a => Act (Emit (EvRelease f a)) (fun _ => Ret ())).

(** *** The functions of active.c *)

Definition bus1_active_init (active : ptr) : prog unit :=
  atomic_set active BUS1_ACTIVE_NEW.

Definition bus1_active_destroy (active : ptr) : prog unit :=
  v ← atomic_read active;
  WARN_ON (negb (v =? BUS1_ACTIVE_DRAINED));;
  mret ().

Definition bus1_active_is_new (active : ptr) : prog bool :=
  v ← atomic_read active;
  mret (v =? BUS1_ACTIVE_NEW).

Definition bus1_active_is_active (active : ptr) : prog bool :=
  v ← atomic_read active;
  mret (v >=? 0).

Definition bus1_active_is_deactivated (active : ptr) : prog bool :=
  v ← atomic_read active;
  mret ((v >? BUS1_ACTIVE_NEW) && (v <? 0)).

Definition bus1_active_activate (active : ptr) : prog bool :=
  v ← atomic_cmpxchg active BUS1_ACTIVE_NEW 0;
  mret (v =? BUS1_ACTIVE_NEW).

(** The body of the [for] loop of [bus1_active_add_unless_negative], entered
    with the current [v]; a failed compare-and-swap is retried at most
    [retries] times. *)
Fixpoint add_unless_negative_loop (retries : nat) (active : ptr) (v add : Z) : prog Z :=
  if v >=? 0 then
    v1 ← atomic_cmpxchg active v (wrap_int (v + add));
    if v1 =? v then mret 1
    else match retries with
         | O => Spin
         | S retries' => add_unless_negative_loop retries' active v1 add
         end
  else mret 0.

Definition bus1_active_add_unless_negative (retries : nat) (active : ptr) (add : Z) : prog Z :=
  v ← atomic_read active;
  add_unless_negative_loop retries active v add.

Definition bus1_active_deactivate (retries : nat) (active : ptr) : prog unit :=
  v ← atomic_cmpxchg active BUS1_ACTIVE_NEW BUS1_ACTIVE_RELEASE_DIRECT;
  if negb (v =? BUS1_ACTIVE_NEW)
  then bus1_active_add_unless_negative retries active BUS1_ACTIVE_BIAS;; mret ()
  else mret ().

Definition bus1_active_drain (active waitq release : ptr) : prog bool :=
  d ← bus1_active_is_deactivated active;
  w ← WARN_ON (negb d);
  if w : bool then mret false
  else
    (* wait until all active references were dropped *)
    wait_event waitq active (fun c => c <=? BUS1_ACTIVE_BIAS);;
    (* mark object as RELEASE *)
    v ← atomic_cmpxchg active BUS1_ACTIVE_RELEASE_DIRECT BUS1_ACTIVE_RELEASE;
    v ← (if negb (v =? BUS1_ACTIVE_RELEASE_DIRECT)
         then atomic_cmpxchg active BUS1_ACTIVE_BIAS BUS1_ACTIVE_RELEASE
         else mret v);
    (if (v =? BUS1_ACTIVE_BIAS) || (v =? BUS1_ACTIVE_RELEASE_DIRECT)
     then
       match release with
       | Some f => call_release f active
       | None => mret ()
       end;;
       (* mark as DRAINED *)
       atomic_set active BUS1_ACTIVE_DRAINED;;
       wake_up_all waitq
     else
       (* wait until object is DRAINED *)
       wait_event waitq active (fun c => c =? BUS1_ACTIVE_DRAINED));;
    (* true if we drained it *)
    mret ((v =? BUS1_ACTIVE_BIAS) || (v =? BUS1_ACTIVE_RELEASE_DIRECT)).

Definition bus1_active_acquire (active : ptr) : prog ptr :=
  res ← match active with
        | Some _ => atomic_inc_unless_negative active
        | None => mret false
        end;
  mret (if res : bool then active else NULL).

Definition bus1_active_release (active waitq : ptr) : prog ptr :=
  match active with
  | Some _ =>
      v ← atomic_dec_return active;
      if v =? BUS1_ACTIVE_BIAS
      then match waitq with Some _ => wake_up waitq | None => mret () end
      else mret ()
  | None => mret ()
  end;;
  mret NULL.

(** *** One caller, running alone *)

Inductive outcome (A : Type) : Type :=
  | Done (x : A) (h : gmap addr Z) (tr : list event)   (* returned [x] *)
  | Blocked (h : gmap addr Z) (tr : list event)        (* asleep in wait_event *)
  | Crashed
  | Spinning.
Arguments Done {A} x h tr.
Arguments Blocked {A} h tr.
Arguments Crashed {A}.
Arguments Spinning {A}.

Fixpoint run_from {A : Type} (p : prog A) (h : gmap addr Z) (tr : list event) : outcome A :=
  match p with
  | Ret x => Done x h tr
  | Act act k =>
      match perform act h with
      | Eff v h' evs => run_from (k v) h' (tr ++ evs)
      | NotReady => Blocked h tr
      | Invalid => Crashed
      end
  | Crash => Crashed
  | Spin => Spinning
  end.

Definition run {A : Type} (p : prog A) (h : gmap addr Z) : outcome A := run_from p h [].

(** The memory a call leaves behind, when it returns. *)
Definition final_heap {A : Type} (o : outcome A) : option (gmap addr Z) :=
  match o with
  | Done _ h _ => Some h
  | _ => None
  end.

(** Where a call that runs alone falls asleep: the [wait_event] whose
    condition is false, if the call reaches one. *)
Fixpoint blocked_at {A : Type} (p : prog A) (h : gmap addr Z) : option action :=
  match p with
  | Act act k =>
      match perform act h with
      | Eff v h' _ => blocked_at (k v) h'
      | NotReady => Some act
      | Invalid => None
      end
  | _ => None
  end.

(** What the specification says deactivate does to a counter [c]:
    NEW becomes RELEASE_DIRECT, a non-negative count gets the bias added,
    any other negative count stays. *)
Definition deactivated_count (c : Z) : Z :=
  if c =? BUS1_ACTIVE_NEW then BUS1_ACTIVE_RELEASE_DIRECT
  else if 0 <=? c then c + BUS1_ACTIVE_BIAS
  else c.

(** *** One caller, from set-up to tear-down *)

(** [n] calls of [p], one after the other. *)
Fixpoint times {A : Type} (n : nat) (p : prog A) : prog unit :=
  match n with
  | O => mret ()
  | S n' => p;; times n' p
  end.

(** The counter values [n] increments write from [c]: c + 1, ..., c + n;
    and the ones [n] decrements write: c - 1, ..., c - n. *)
Fixpoint counting_up (c : Z) (n : nat) : list Z :=
  match n with
  | O => []
  | S n' => (c + 1) :: counting_up (c + 1) n'
  end.

Fixpoint counting_down (c : Z) (n : nat) : list Z :=
  match n with
  | O => []
  | S n' => (c - 1) :: counting_down (c - 1) n'
  end.

(** The life of an object in the hands of a caller that takes [n]
    references: init, activate, [n] acquires, deactivate, [n] releases,
    drain, destroy.  The result is what drain returned. *)
Definition lifecycle (retries n : nat) (active waitq release : ptr) : prog bool :=
  bus1_active_init active;;
  bus1_active_activate active;;
  times n (bus1_active_acquire active);;
  bus1_active_deactivate retries active;;
  times n (bus1_active_release active waitq);;
  drained ← bus1_active_drain active waitq release;
  bus1_active_destroy active;;
  mret drained.

(** *** The lifecycle states of the counter *)

Inductive state := NEW | ACTIVE | DRAINING | RELEASE_DIRECT | RELEASE | DRAINED | RESERVED.

#[export] Instance state_eq_dec : EqDecision state.
Proof. solve_decision. Defined.

Definition state_of (c : Z) : state :=
  if c >=? 0 then ACTIVE
  else if c >=? BUS1_ACTIVE_BIAS then DRAINING
  else if c =? BUS1_ACTIVE_RELEASE_DIRECT then RELEASE_DIRECT
  else if c =? BUS1_ACTIVE_RELEASE then RELEASE
  else if c =? BUS1_ACTIVE_DRAINED then DRAINED
  else if c =? BUS1_ACTIVE_NEW then NEW
  else RESERVED.

(** The transition graph:
    NEW -> (ACTIVE -> DRAINING -> RELEASE) or (RELEASE_DIRECT) -> RELEASE -> DRAINED. *)
Definition edge (s s' : state) : bool :=
  match s, s' with
  | NEW, ACTIVE | ACTIVE, DRAINING | DRAINING, RELEASE
  | NEW, RELEASE_DIRECT | RELEASE_DIRECT, RELEASE | RELEASE, DRAINED => true
  | _, _ => false
  end.

(** One write of the counter respects the graph: both values are lifecycle
    states, and the state stays or moves along an edge. *)
Definition forward (c c' : Z) : Prop :=
  state_of c <> RESERVED /\ state_of c' <> RESERVED /\
  (state_of c = state_of c' \/ edge (state_of c) (state_of c') = true).

(** The values the counter takes, starting at [c]: every write respects
    the graph. *)
Fixpoint follows_graph (c : Z) (l : list Z) : Prop :=
  match l with
  | [] => True
  | c' :: l' => forward c c' /\ follows_graph c' l'
  end.

(** The writes the code performs, below the overflow of the counter, and
    that each of them respects the graph. *)
Definition count_move (c c' : Z) : Prop :=
  BUS1_ACTIVE_NEW <= c /\
  ((c = BUS1_ACTIVE_NEW /\ (c' = 0 \/ c' = BUS1_ACTIVE_RELEASE_DIRECT)) \/
   (0 <= c /\ 0 <= c' /\ (c' = c + 1 \/ c' = c - 1)) \/
   (0 <= c /\ c' = c + BUS1_ACTIVE_BIAS /\ c' < 0) \/
   (BUS1_ACTIVE_BIAS < c < 0 /\ c' = c - 1) \/
   ((c = BUS1_ACTIVE_RELEASE_DIRECT \/ c = BUS1_ACTIVE_BIAS) /\ c' = BUS1_ACTIVE_RELEASE) \/
   (c = BUS1_ACTIVE_RELEASE /\ c' = BUS1_ACTIVE_DRAINED)).

(** How far along the graph a state is. *)
Definition rank (s : state) : nat :=
  match s with
  | NEW => 0 | ACTIVE => 1 | DRAINING => 2 | RELEASE_DIRECT => 3
  | RELEASE => 4 | DRAINED => 5 | RESERVED => 6
  end.

(** No state is entered again after it was left. *)
Definition no_revisit (l : list Z) : Prop :=
  forall (i j k : nat) (ci cj ck : Z),
    (i < j < k)%nat ->
    l !! i = Some ci -> l !! j = Some cj -> l !! k = Some ck ->
    state_of ci = state_of ck -> state_of cj = state_of ci.

(** *** Many callers, interleaved *)

(** The calls of the interface, all on one object and one wait-queue. *)
Inductive op := OpActivate | OpAcquire | OpRelease | OpDeactivate | OpDrain.

#[export] Instance op_eq_dec : EqDecision op.
Proof. solve_decision. Defined.

(** What is observed of a thread: the events of its actions and the value
    its call returns. *)
Inductive obs :=
  | ObsEv (e : event)
  | ObsRet (o : op) (v : Z).

(** The shared memory, the number of references that were acquired and not
    released yet (not part of the code: it tells which releases balance an
    acquire), the calls in progress (per thread: the call and what is left
    of it), and everything observed so far, oldest first. *)
Record mstate := MState {
  heap : gmap addr Z;
  refs : Z;
  pool : gmap nat (op * prog Z);
  log : list (nat * obs);
}.

(** A schedule: thread [t] enters a call, or thread [t] performs the next
    action of its call (returning is an action of its own). *)
Inductive sched_item :=
  | Call (t : nat) (o : op)
  | Step (t : nat).

(** The decrement of a release is only performed while a reference is
    outstanding: each release balances an earlier successful acquire. *)
Definition ghost_ready (act : action) (refs : Z) : bool :=
  match act with
  | AtomicDecReturn _ => 0 <? refs
  | _ => true
  end.

Definition ghost_refs (act : action) (v : Z) (refs : Z) : Z :=
  match act with
  | AtomicDecReturn _ => refs - 1
  | AtomicIncUnlessNegative _ => if v =? 0 then refs else refs + 1
  | _ => refs
  end.

Definition tag (t : nat) (evs : list event) : list (nat * obs) :=
  map (fun e => (t, ObsEv e)) evs.

Section Machine.

Context (active waitq : addr) (release : ptr) (retries : nat).

(** The call [o], its result as an integer. *)
Definition body (o : op) : prog Z :=
  match o with
  | OpActivate =>
      b ← bus1_active_activate (Some active); mret (Z.b2z b)
  | OpAcquire =>
      p ← bus1_active_acquire (Some active);
      mret (match p with Some _ => 1 | None => 0 end)
  | OpRelease =>
      bus1_active_release (Some active) (Some waitq);; mret 0
  | OpDeactivate =>
      bus1_active_deactivate retries (Some active);; mret 0
  | OpDrain =>
      b ← bus1_active_drain (Some active) (Some waitq) release; mret (Z.b2z b)
  end.

Definition mstep (i : sched_item) (s : mstate) : option mstate :=
  match i with
  | Call t o =>
      match pool s !! t with
      | None => Some (MState (heap s) (refs s) (<[t:=(o, body o)]> (pool s)) (log s))
      | Some _ => None
      end
  | Step t =>
      match pool s !! t with
      | Some (o, Ret v) =>
          Some (MState (heap s) (refs s) (delete t (pool s)) (log s ++ [(t, ObsRet o v)]))
      | Some (o, Act act k) =>
          if ghost_ready act (refs s) then
            match perform act (heap s) with
            | Eff v h' evs =>
                Some (MState h' (ghost_refs act v (refs s))
                             (<[t:=(o, k v)]> (pool s)) (log s ++ tag t evs))
            | _ => None
            end
          else None
      | _ => None
      end
  end.

Fixpoint exec (sched : list sched_item) (s : mstate) : option mstate :=
  match sched with
  | [] => Some s
  | i :: sched' =>
      match mstep i s with
      | Some s' => exec sched' s'
      | None => None
      end
  end.

(** Thread [t] acquires [n] references, one call after the other. *)
Fixpoint acquire_calls (t : nat) (n : nat) : list sched_item :=
  match n with
  | O => []
  | S n' => Call t OpAcquire :: Step t :: Step t :: acquire_calls t n'
  end.

(** Two threads: thread 0 activates and acquires, thread 1 deactivates,
    thread 0 releases, thread 1 drains. *)
Definition lifecycle_schedule : list sched_item :=
  [Call 0 OpActivate; Step 0; Step 0;
   Call 0 OpAcquire; Step 0; Step 0;
   Call 1 OpDeactivate; Step 1; Step 1; Step 1; Step 1;
   Call 0 OpRelease; Step 0; Step 0; Step 0;
   Call 1 OpDrain; Step 1; Step 1; Step 1; Step 1; Step 1; Step 1; Step 1; Step 1].

(** Two threads drain at the same time. *)
Definition two_drains_schedule : list sched_item :=
  [Call 0 OpDrain; Call 1 OpDrain; Step 0; Step 1; Step 0; Step 1;
   Step 0; Step 1; Step 0; Step 1; Step 0; Step 0; Step 1; Step 0;
   Step 1; Step 0].

(** No call in progress, the counter at [c], nothing observed. *)
Definition start (c : Z) : mstate := MState {[active := c]} 0 ∅ [].

(** The values written to the counter, oldest first. *)
Fixpoint counts (l : list (nat * obs)) : list Z :=
  match l with
  | [] => []
  | (_, ObsEv (EvCount a v)) :: l' =>
      if decide (a = active) then v :: counts l' else counts l'
  | _ :: l' => counts l'
  end.

(** What belongs to the release of the object: the counter reaching
    RELEASE or DRAINED, a call of a release callback, a wake_up_all, a
    drain returning true. *)
Definition is_release_obs (x : nat * obs) : bool :=
  match x.2 with
  | ObsEv (EvCount a v) =>
      bool_decide (a = active) &&
      ((v =? BUS1_ACTIVE_RELEASE) || (v =? BUS1_ACTIVE_DRAINED))
  | ObsEv (EvRelease _ _) => true
  | ObsEv (EvWakeUpAll _) => true
  | ObsRet OpDrain v => negb (v =? 0)
  | _ => false
  end.

Fixpoint release_obs (l : list (nat * obs)) : list (nat * obs) :=
  match l with
  | [] => []
  | x :: l' => if is_release_obs x then x :: release_obs l' else release_obs l'
  end.

(** What the one thread [w] that releases the object is observed to do,
    in this order. *)
Definition release_sequence (w : nat) : list (nat * obs) :=
  [(w, ObsEv (EvCount active BUS1_ACTIVE_RELEASE))]
  ++ match release with
     | Some f => [(w, ObsEv (EvRelease f active))]
     | None => []
     end
  ++ [(w, ObsEv (EvCount active BUS1_ACTIVE_DRAINED));
      (w, ObsEv (EvWakeUpAll waitq));
      (w, ObsRet OpDrain 1)].

End Machine.

(** *** Program points *)

(** Where a call in progress stands.  [code] gives what is left of the call
    at each point: it is read off the program of the call, by following it
    with the value an action returned ([after]). *)
Inductive point :=
  | PBody (o : op) | PRet (v : Z) | PSpin
  | PReleaseWake
  | PDeactRead | PDeactLoop (n : nat) (v : Z)
  | PDrainWarn | PDrainWait1 | PDrainCas1 | PDrainCas2
  | PDrainCall | PDrainSet | PDrainWake | PDrainWait2.

Definition after (p : prog Z) (v : Z) : prog Z :=
  match p with Act _ k => k v | _ => p end.

Section Points.
Context (active waitq : addr) (release : ptr) (retries : nat).

Definition drain_cas1 : prog Z := after (after (body active waitq release retries OpDrain) BUS1_ACTIVE_BIAS) 0.

Definition code (pt : point) : prog Z :=
  match pt with
  | PBody o => body active waitq release retries o
  | PRet v => Ret v
  | PSpin => Spin
  | PReleaseWake => after (body active waitq release retries OpRelease) BUS1_ACTIVE_BIAS
  | PDeactRead => after (body active waitq release retries OpDeactivate) 0
  | PDeactLoop n v =>
      (add_unless_negative_loop n (Some active) v BUS1_ACTIVE_BIAS;; mret ());; mret 0
  | PDrainWarn => after (body active waitq release retries OpDrain) 0
  | PDrainWait1 => after (body active waitq release retries OpDrain) BUS1_ACTIVE_BIAS
  | PDrainCas1 => drain_cas1
  | PDrainCas2 => after drain_cas1 0
  | PDrainCall => after drain_cas1 BUS1_ACTIVE_RELEASE_DIRECT
  | PDrainSet =>
      match release with
      | Some _ => after (after drain_cas1 BUS1_ACTIVE_RELEASE_DIRECT) 0
      | None => after drain_cas1 BUS1_ACTIVE_RELEASE_DIRECT
      end
  | PDrainWake =>
      match release with
      | Some _ => after (after (after drain_cas1 BUS1_ACTIVE_RELEASE_DIRECT) 0) 0
      | None => after (after drain_cas1 BUS1_ACTIVE_RELEASE_DIRECT) 0
      end
  | PDrainWait2 => after (after drain_cas1 0) 0
  end.

Definition pact (pt : point) : option action :=
  match pt with
  | PBody OpActivate => Some (AtomicCmpxchg active BUS1_ACTIVE_NEW 0)
  | PBody OpAcquire => Some (AtomicIncUnlessNegative active)
  | PBody OpRelease => Some (AtomicDecReturn active)
  | PBody OpDeactivate => Some (AtomicCmpxchg active BUS1_ACTIVE_NEW BUS1_ACTIVE_RELEASE_DIRECT)
  | PBody OpDrain => Some (AtomicRead active)
  | PRet _ | PSpin => None
  | PReleaseWake => Some (Emit (EvWakeUp waitq))
  | PDeactRead => Some (AtomicRead active)
  | PDeactLoop _ v => Some (AtomicCmpxchg active v (wrap_int (v + BUS1_ACTIVE_BIAS)))
  | PDrainWarn => Some (Emit EvWarn)
  | PDrainWait1 => Some (WaitEvent waitq active (fun c => c <=? BUS1_ACTIVE_BIAS))
  | PDrainCas1 => Some (AtomicCmpxchg active BUS1_ACTIVE_RELEASE_DIRECT BUS1_ACTIVE_RELEASE)
  | PDrainCas2 => Some (AtomicCmpxchg active BUS1_ACTIVE_BIAS BUS1_ACTIVE_RELEASE)
  | PDrainCall =>
      match release with Some f => Some (Emit (EvRelease f active)) | None => None end
  | PDrainSet => Some (AtomicSet active BUS1_ACTIVE_DRAINED)
  | PDrainWake => Some (Emit (EvWakeUpAll waitq))
  | PDrainWait2 => Some (WaitEvent waitq active (fun c => c =? BUS1_ACTIVE_DRAINED))
  end.

Definition drain_win : point :=
  match release with Some _ => PDrainCall | None => PDrainSet end.

Definition loop_point (n : nat) (v : Z) : point :=
  if v >=? 0 then PDeactLoop n v else PRet 0.

Definition pnext (pt : point) (v : Z) : point :=
  match pt with
  | PBody OpActivate => PRet (Z.b2z (v =? BUS1_ACTIVE_NEW))
  | PBody OpAcquire => PRet (if v =? 0 then 0 else 1)
  | PBody OpRelease => if v =? BUS1_ACTIVE_BIAS then PReleaseWake else PRet 0
  | PBody OpDeactivate => if v =? BUS1_ACTIVE_NEW then PRet 0 else PDeactRead
  | PBody OpDrain =>
      if (v >? BUS1_ACTIVE_NEW) && (v <? 0) then PDrainWait1 else PDrainWarn
  | PRet _ | PSpin => pt
  | PReleaseWake => PRet 0
  | PDeactRead => loop_point retries v
  | PDeactLoop n v0 =>
      if v =? v0 then PRet 0
      else match n with
           | O => PSpin
           | S n' => loop_point n' v
           end
  | PDrainWarn => PRet 0
  | PDrainWait1 => PDrainCas1
  | PDrainCas1 => if v =? BUS1_ACTIVE_RELEASE_DIRECT then drain_win else PDrainCas2
  | PDrainCas2 =>
      if (v =? BUS1_ACTIVE_BIAS) || (v =? BUS1_ACTIVE_RELEASE_DIRECT)
      then drain_win else PDrainWait2
  | PDrainCall => PDrainSet
  | PDrainSet => PDrainWake
  | PDrainWake => PRet 1
  | PDrainWait2 => PRet 0
  end.

Definition wfpt (pt : point) : Prop :=
  match pt with
  | PDeactLoop _ v => 0 <= v
  | PDrainCall => release <> None
  | _ => True
  end.


(** The machine with the calls in progress given by their program
    points. *)
Record astate := AState {
  a_heap : gmap addr Z;
  a_refs : Z;
  a_pool : gmap nat (op * point);
  a_log : list (nat * obs);
}.

Definition conc (x : astate) : mstate :=
  MState (a_heap x) (a_refs x)
         ((fun '(o, pt) => (o, code pt)) <$> a_pool x) (a_log x).

Definition astep (i : sched_item) (x : astate) : option astate :=
  match i with
  | Call t o =>
      match a_pool x !! t with
      | None => Some (AState (a_heap x) (a_refs x) (<[t:=(o, PBody o)]> (a_pool x)) (a_log x))
      | Some _ => None
      end
  | Step t =>
      match a_pool x !! t with
      | Some (o, PRet v) =>
          Some (AState (a_heap x) (a_refs x) (delete t (a_pool x))
                       (a_log x ++ [(t, ObsRet o v)]))
      | Some (o, pt) =>
          match pact pt with
          | Some act =>
              if ghost_ready act (a_refs x) then
                match perform act (a_heap x) with
                | Eff v h' evs =>
                    Some (AState h' (ghost_refs act v (a_refs x))
                                 (<[t:=(o, pnext pt v)]> (a_pool x))
                                 (a_log x ++ tag t evs))
                | _ => None
                end
              else None
          | None => None
          end
      | None => None
      end
  end.

Fixpoint aexec (sched : list sched_item) (x : astate) : option astate :=
  match sched with
  | [] => Some x
  | i :: sched' =>
      match astep i x with
      | Some x' => aexec sched' x'
      | None => None
      end
  end.

Definition astart (c : Z) : astate := AState {[active := c]} 0 ∅ [].

Definition wf_pool (x : astate) : Prop :=
  forall t o pt, a_pool x !! t = Some (o, pt) -> wfpt pt.

(** Which call a program point belongs to; a drain returns 0 or 1. *)
Definition owner (o : op) (pt : point) : Prop :=
  match pt with
  | PBody o' => o = o'
  | PRet v => o = OpDrain -> v = 0 \/ v = 1
  | PSpin | PDeactRead | PDeactLoop _ _ => o = OpDeactivate
  | PReleaseWake => o = OpRelease
  | _ => o = OpDrain
  end.

(** What a drain knows about the counter [c] once its check has passed:
    the object is deactivated, and after a failed first compare-and-swap
    it is not in RELEASE_DIRECT. *)
Definition local (pt : point) (c : Z) : Prop :=
  match pt with
  | PDrainWait1 | PDrainCas1 => BUS1_ACTIVE_NEW < c < 0
  | PDrainCas2 => BUS1_ACTIVE_NEW < c < 0 /\ c <> BUS1_ACTIVE_RELEASE_DIRECT
  | _ => True
  end.

(** The program points of the thread that won the compare-and-swap to
    RELEASE. *)
Definition is_win (o : op) (pt : point) : bool :=
  match pt with
  | PDrainCall | PDrainSet | PDrainWake => true
  | PRet v => bool_decide (o = OpDrain) && negb (v =? 0)
  | _ => false
  end.

(** How far the release of the object has come, and by which thread. *)
Inductive stage :=
  | SNone | SCall (w : nat) | SSet (w : nat) | SWake (w : nat)
  | SRet (w : nat) | SDone (w : nat).

Definition cb_obs (w : nat) : list (nat * obs) :=
  match release with
  | Some f => [(w, ObsEv (EvRelease f active))]
  | None => []
  end.

Definition expected (g : stage) : list (nat * obs) :=
  match g with
  | SNone => []
  | SCall w => [(w, ObsEv (EvCount active BUS1_ACTIVE_RELEASE))]
  | SSet w => [(w, ObsEv (EvCount active BUS1_ACTIVE_RELEASE))] ++ cb_obs w
  | SWake w =>
      [(w, ObsEv (EvCount active BUS1_ACTIVE_RELEASE))] ++ cb_obs w
      ++ [(w, ObsEv (EvCount active BUS1_ACTIVE_DRAINED))]
  | SRet w =>
      [(w, ObsEv (EvCount active BUS1_ACTIVE_RELEASE))] ++ cb_obs w
      ++ [(w, ObsEv (EvCount active BUS1_ACTIVE_DRAINED));
          (w, ObsEv (EvWakeUpAll waitq))]
  | SDone w => release_sequence active waitq release w
  end.

Definition stage_at (g : stage) : option (nat * point) :=
  match g with
  | SCall w => Some (w, PDrainCall)
  | SSet w => Some (w, PDrainSet)
  | SWake w => Some (w, PDrainWake)
  | SRet w => Some (w, PRet 1)
  | SNone | SDone _ => None
  end.

Definition stage_count (g : stage) (c : Z) : Prop :=
  match g with
  | SNone => c <> BUS1_ACTIVE_RELEASE /\ c <> BUS1_ACTIVE_DRAINED
  | SCall _ | SSet _ => c = BUS1_ACTIVE_RELEASE
  | SWake _ | SRet _ | SDone _ => c = BUS1_ACTIVE_DRAINED
  end.

(** The counter [c] and the outstanding references [r]: the counter is a
    lifecycle state below the value at which adding the bias no longer
    yields a negative number, and it counts the references. *)
Definition refs_ok (c r : Z) : Prop :=
  BUS1_ACTIVE_NEW <= c < - BUS1_ACTIVE_BIAS /\
  (0 <= c -> r = c) /\
  (BUS1_ACTIVE_BIAS <= c < 0 -> r = c - BUS1_ACTIVE_BIAS) /\
  (c < BUS1_ACTIVE_BIAS -> r = 0).

(** The invariant of the interleaved executions that start with the
    counter at [c0]: the counter is [c], the release has come to [g]. *)
Definition ainv_at (c0 : Z) (x : astate) (c : Z) (g : stage) : Prop :=
  a_heap x !! active = Some c /\
  refs_ok c (a_refs x) /\
  last (c0 :: counts active (a_log x)) = Some c /\
  follows_graph c0 (counts active (a_log x)) /\
  release_obs active (a_log x) = expected g /\
  stage_count g c /\
  (forall w pt, stage_at g = Some (w, pt) -> a_pool x !! w = Some (OpDrain, pt)) /\
  (forall t o pt, a_pool x !! t = Some (o, pt) ->
     wfpt pt /\ owner o pt /\ local pt c /\
     (is_win o pt = true -> stage_at g = Some (t, pt))).

Definition ainv (c0 : Z) (x : astate) : Prop :=
  exists (c : Z) (g : stage), ainv_at c0 x c g.

(** Thread [t] has fired the WARN_ON of drain, or the counter has been set
    to DRAINED, within the observations [l]. *)
Definition drained_before (t : nat) (l : list (nat * obs)) : Prop :=
  In (t, ObsEv EvWarn) l \/ In BUS1_ACTIVE_DRAINED (counts active l).

(** Each drain that is about to return, and each that has returned, did so
    after one of the two. *)
Definition drain_inv (x : astate) : Prop :=
  (forall t v, a_pool x !! t = Some (OpDrain, PRet v) -> drained_before t (a_log x)) /\
  (forall i t v, a_log x !! i = Some (t, ObsRet OpDrain v) ->
     drained_before t (take i (a_log x))).

(** Thread [t] is about to return true from activate; the [i]-th
    observation is an activate returning true. *)
Definition activating (x : astate) (t : nat) : Prop :=
  exists v, a_pool x !! t = Some (OpActivate, PRet v) /\ v <> 0.

Definition activated (l : list (nat * obs)) (i : nat) : Prop :=
  exists t v, l !! i = Some (t, ObsRet OpActivate v) /\ v <> 0.

(** At most one activate succeeds, and it has written the counter. *)
Definition activate_inv (x : astate) : Prop :=
  (forall t t', activating x t -> activating x t' -> t = t') /\
  (forall t i, activating x t -> activated (a_log x) i -> False) /\
  (forall i j, activated (a_log x) i -> activated (a_log x) j -> i = j) /\
  ((exists t, activating x t) \/ (exists i, activated (a_log x) i) ->
   In 0 (counts active (a_log x))).

(** A counter that is not negative was set to 0 before, and so it was
    before each acquire that is about to return the object, or has. *)
Definition acquire_inv (x : astate) : Prop :=
  (forall c, a_heap x !! active = Some c -> 0 <= c -> In 0 (counts active (a_log x))) /\
  (forall t v, a_pool x !! t = Some (OpAcquire, PRet v) -> v <> 0 ->
     In 0 (counts active (a_log x))) /\
  (forall i t v, a_log x !! i = Some (t, ObsRet OpAcquire v) -> v <> 0 ->
     In 0 (counts active (take i (a_log x)))).

(** On an object that is deactivated with every reference released: no
    reference is outstanding, and a drain waits for DRAINED only once the
    counter has been set to RELEASE. *)
Definition unreferenced (x : astate) : Prop :=
  a_refs x = 0 /\
  (forall t o c, a_pool x !! t = Some (o, PDrainWait2) -> a_heap x !! active = Some c ->
     c = BUS1_ACTIVE_RELEASE \/ c = BUS1_ACTIVE_DRAINED).

(** Thread [t], the only one to step, returns [v] from its drain after [n]
    steps, leaving the other calls as they are. *)
Definition finishes (t : nat) (n : nat) (x x' : astate) (v : Z) : Prop :=
  aexec (replicate n (Step t)) x = Some x' /\
  a_pool x' = delete t (a_pool x) /\
  exists l, a_log x' = a_log x ++ l ++ [(t, ObsRet OpDrain v)].

(** A schedule that enters no new call. *)
Definition only_steps (sched : list sched_item) : Prop :=
  Forall (fun i => match i with Step _ => True | Call _ _ => False end) sched.

End Points.

End Active.

(** ** main.c *)

Module Main.
Import Queue Active.





End Main.

(** * Properties *)

(** ** Machine integers *)

Lemma wrap_int_id z : is_int z -> wrap_int z = z.
Proof.
  unfold is_int, wrap_int, INT_MIN, INT_MAX. intros H.
  rewrite Z.mod_small; lia.
Qed.

Lemma wrap_int_range z : is_int (wrap_int z).
Proof.
  unfold is_int, wrap_int, INT_MIN, INT_MAX.
  pose proof (Z.mod_pos_bound (z + 2147483648) 4294967296). lia.
Qed.

Lemma wrap_u64_id z : is_u64 z -> wrap_u64 z = z.
Proof. unfold is_u64, wrap_u64. intros H. rewrite Z.mod_small; lia. Qed.

Lemma wrap_u64_range z : is_u64 (wrap_u64 z).
Proof. unfold is_u64, wrap_u64, U64_MOD. apply Z.mod_pos_bound. lia. Qed.

Lemma wrap_u64_even z : Z.even (wrap_u64 z) = Z.even z.
Proof.
  unfold wrap_u64, U64_MOD.
  rewrite !Zeven_mod.
  rewrite Z.mod_mod_divide; [reflexivity|].
  exists 9223372036854775808. reflexivity.
Qed.

Lemma land_1_even z : (Z.land z 1 =? 0) = Z.even z.
Proof.
  change 1 with (Z.ones 1). rewrite Z.land_ones by lia.
  change (2 ^ 1) with 2. rewrite Zmod_even.
  destruct (Z.even z); reflexivity.
Qed.

(** ** The queue clock and the node predicates *)

Module QueueProofs.
Import Queue.

Lemma tick_clock q : clock (bus1_queue_tick q).2 = wrap_u64 (clock q + 2).
Proof. reflexivity. Qed.

Lemma sync_clock q t : clock (bus1_queue_sync q t).1.2 = Z.max (clock q) t.
Proof. reflexivity. Qed.

Lemma apply_clock_op_u64 o q :
  is_u64 (clock q) ->
  match o with Tick => True | Sync t => is_u64 t end ->
  is_u64 (clock (apply_clock_op o q)).
Proof.
  destruct o as [|t]; simpl; intros Hq Ht.
  - apply wrap_u64_range.
  - unfold is_u64 in *. lia.
Qed.

Lemma apply_clock_op_le o q :
  is_u64 (clock q) ->
  match o with Tick => clock q + 2 < U64_MOD | Sync _ => True end ->
  clock q <= clock (apply_clock_op o q).
Proof.
  destruct o as [|t]; simpl; intros Hq Hw.
  - rewrite wrap_u64_id; unfold is_u64 in *; lia.
  - lia.
Qed.

Lemma apply_clock_op_even o q :
  Z.even (clock q) = true ->
  match o with Tick => True | Sync t => Z.even t = true end ->
  Z.even (clock (apply_clock_op o q)) = true.
Proof.
  destruct o as [|t]; simpl; intros Hq Ht.
  - rewrite wrap_u64_even, Z.even_add, Hq. reflexivity.
  - destruct (Z.max_spec (clock q) t) as [[_ ->]|[_ ->]]; assumption.
Qed.

Lemma apply_clock_ops_cons o os q :
  apply_clock_ops (o :: os) q = apply_clock_ops os (apply_clock_op o q).
Proof. reflexivity. Qed.

(** C6, as the code has it.  Across any sequence of ticks and syncs (with
    [u64] timestamps) the clock never decreases, provided no tick starts at
    one of the two topmost clock values; and an even clock stays even when
    every sync is given an even timestamp, wrap-around or not. *)
Theorem clock_monotone_and_even (os : list clock_op) (q : bus1_queue) :
  is_u64 (clock q) ->
  u64_syncs os ->
  (ticks_below_wrap os q -> clock q <= clock (apply_clock_ops os q)) /\
  (Z.even (clock q) = true -> even_syncs os ->
   Z.even (clock (apply_clock_ops os q)) = true).
Proof.
  revert q. induction os as [|o os IH]; intros q Hq Hu.
  - split; [simpl; lia | auto].
  - apply Forall_cons in Hu as [Ho Hu].
    pose proof (apply_clock_op_u64 o q Hq Ho) as Hq'.
    destruct (IH _ Hq' Hu) as [IHle IHev].
    rewrite apply_clock_ops_cons. split.
    + intros [Hw Hws].
      pose proof (apply_clock_op_le o q Hq Hw). specialize (IHle Hws). lia.
    + intros He Hes. apply Forall_cons in Hes as [Heo Hes].
      apply IHev; [|assumption]. apply apply_clock_op_even; assumption.
Qed.

Lemma clock_monotone_and_even_witness :
  let os := [Tick; Sync 10; Tick] in
  clock fresh_queue <= clock (apply_clock_ops os fresh_queue) /\
  Z.even (clock (apply_clock_ops os fresh_queue)) = true.
Proof.
  assert (Hq : is_u64 (clock fresh_queue)) by (unfold is_u64, U64_MOD; simpl; lia).
  assert (Hu : u64_syncs [Tick; Sync 10; Tick]).
  { repeat constructor; unfold is_u64, U64_MOD; lia. }
  destruct (clock_monotone_and_even [Tick; Sync 10; Tick] fresh_queue Hq Hu) as [Hle Hev].
  split.
  - apply Hle. vm_compute. repeat split; reflexivity.
  - apply Hev; [reflexivity|]. repeat constructor.
Defined.

(** C6, as stated, fails: a sync to the even timestamp 2^64 - 2 followed by
    a tick takes the clock of a fresh queue back to 0. *)
Lemma clock_decreases_on_wrap :
  let q := apply_clock_op (Sync 18446744073709551614) fresh_queue in
  is_u64 (clock q) /\ Z.even (clock q) = true /\
  ~ clock q <= clock (apply_clock_op Tick q).
Proof.
  cbv zeta. change (clock (apply_clock_op (Sync 18446744073709551614) fresh_queue))
    with 18446744073709551614.
  change (clock (apply_clock_op Tick
            (apply_clock_op (Sync 18446744073709551614) fresh_queue))) with 0.
  unfold is_u64, U64_MOD. repeat split; try reflexivity; lia.
Qed.

(** C7, as the code has it.  tick adds 2 to the clock in [u64]
    arithmetic, as [clock += 2] does: exactly 2 when the clock is below
    2^64 - 2, and around to 0 or 1 from the two topmost values; it returns
    the new clock.  sync with an even timestamp sets the clock to the
    maximum of clock and timestamp, returns it, does not warn, and a second
    sync with the same timestamp changes nothing. *)
Theorem tick_sync_clock (q : bus1_queue) (t : Z) :
  Z.even t = true ->
  (let (r, q') := bus1_queue_tick q in
   clock q' = (clock q + 2) `mod` 2 ^ 64 /\ r = clock q' /\
   (is_u64 (clock q) -> clock q + 2 < 2 ^ 64 -> clock q' = clock q + 2)) /\
  (let '(r, q', warned) := bus1_queue_sync q t in
   clock q' = Z.max (clock q) t /\ r = clock q' /\ warned = false /\
   bus1_queue_sync q' t = (r, q', false)).
Proof.
  intros Ht. split.
  - simpl. repeat split. intros Hq Hlt.
    apply wrap_u64_id. unfold is_u64, U64_MOD in *. lia.
  - simpl. rewrite land_1_even, Ht. simpl. repeat split.
    unfold bus1_queue_sync. simpl. rewrite land_1_even, Ht. simpl.
    rewrite <- Z.max_assoc, Z.max_id. reflexivity.
Qed.

Lemma tick_sync_clock_witness :
  Z.even 6 = true /\
  (let (r, q') := bus1_queue_tick fresh_queue in
   clock q' = (clock fresh_queue + 2) `mod` 2 ^ 64 /\ r = clock q' /\
   (is_u64 (clock fresh_queue) -> clock fresh_queue + 2 < 2 ^ 64 ->
    clock q' = clock fresh_queue + 2)) /\
  (let '(r, q', warned) := bus1_queue_sync fresh_queue 6 in
   clock q' = Z.max (clock fresh_queue) 6 /\ r = clock q' /\ warned = false /\
   bus1_queue_sync q' 6 = (r, q', false)).
Proof.
  split; [reflexivity|]. apply (tick_sync_clock fresh_queue 6). reflexivity.
Defined.

(** C7, as stated, fails at the top of the range: from the even clock
    2^64 - 2 tick takes the clock to 0 and returns 0, not the clock plus
    2. *)
Example tick_at_top_of_range :
  let q := apply_clock_op (Sync 18446744073709551614) fresh_queue in
  is_u64 (clock q) /\
  (bus1_queue_tick q).1 = 0 /\
  clock (bus1_queue_tick q).2 <> clock q + 2.
Proof.
  cbv zeta. change (clock (apply_clock_op (Sync 18446744073709551614) fresh_queue))
    with 18446744073709551614.
  unfold is_u64, U64_MOD. repeat split; try reflexivity; try lia.
  change (clock (bus1_queue_tick
            (apply_clock_op (Sync 18446744073709551614) fresh_queue)).2) with 0.
  lia.
Qed.

(** C8: what the code computes.  The predicate is the low bit of the
    timestamp, whether the node is queued or not. *)
Lemma is_staging_low_bit (node : bus1_queue_node) :
  bus1_queue_node_is_staging node
  = Z.testbit (timestamp_and_type node) 0.
Proof.
  unfold bus1_queue_node_is_staging, bus1_queue_node_get_timestamp.
  rewrite <- Z.land_assoc.
  replace (Z.land (wrap_u64 (Z.lnot BUS1_QUEUE_TYPE_MASK)) 1) with 1 by reflexivity.
  rewrite land_1_even, <- Z.negb_odd, negb_involutive.
  symmetry. apply Z.bit0_odd.
Qed.

(** C8 at a node that is not queued and carries the odd timestamp 1: the
    code answers true, the claim (and the comment of the function: "True if
    @node is queued as staging entry") says false. *)
Theorem is_staging_ignores_linkage :
  let node := {| rb := RbCleared; ref := 1; sender := 0; timestamp_and_type := 1 |} in
  bus1_queue_node_is_queued node = false /\
  Z.land (bus1_queue_node_get_timestamp node) 1 = 1 /\
  bus1_queue_node_is_staging node = true.
Proof. vm_compute. repeat split; reflexivity. Qed.

(** ** Further properties of queue.h *)

Lemma type_mask_value : BUS1_QUEUE_TYPE_MASK = Z.shiftl 3 62.
Proof. reflexivity. Qed.

Lemma timestamp_mask_value : wrap_u64 (Z.lnot BUS1_QUEUE_TYPE_MASK) = Z.ones 62.
Proof. reflexivity. Qed.

Lemma get_timestamp_mod node :
  bus1_queue_node_get_timestamp node = timestamp_and_type node `mod` 2 ^ 62.
Proof.
  unfold bus1_queue_node_get_timestamp.
  rewrite timestamp_mask_value, Z.land_ones by lia. reflexivity.
Qed.

Lemma get_type_div node :
  bus1_queue_node_get_type node = (timestamp_and_type node / 2 ^ 62) `mod` 4.
Proof.
  unfold bus1_queue_node_get_type, BUS1_QUEUE_TYPE_SHIFT. rewrite type_mask_value.
  rewrite Z.shiftr_land. change (Z.shiftr (Z.shiftl 3 62) 62) with (Z.ones 2).
  rewrite Z.land_ones by lia. rewrite Z.shiftr_div_pow2 by lia. reflexivity.
Qed.

Lemma is_staging_odd node :
  bus1_queue_node_is_staging node = Z.odd (bus1_queue_node_get_timestamp node).
Proof.
  unfold bus1_queue_node_is_staging. rewrite land_1_even, Z.negb_even. reflexivity.
Qed.

(** X1.  A node fresh from init reads back the low two bits of the type it
    was given: the type itself for each valid type (below 4), without a
    warning; a larger type fires the WARN_ON and is cut to two bits by the
    shift.  Either way the timestamp is 0, the node is neither queued nor
    staging, and it holds one reference. *)
Theorem node_init_reads_back (type sender : Z) :
  0 <= type < 2 ^ 32 ->
  let '(node, warned) := bus1_queue_node_init type sender in
  bus1_queue_node_get_type node = type `mod` 4 /\
  (type < 4 -> bus1_queue_node_get_type node = type) /\
  warned = negb (type <? 4) /\
  bus1_queue_node_get_timestamp node = 0 /\
  bus1_queue_node_is_queued node = false /\
  bus1_queue_node_is_staging node = false /\
  ref node = 1 /\ Queue.sender node = sender.
Proof.
  intros Ht. unfold bus1_queue_node_init.
  assert (Hf : wrap_u64 (Z.shiftl type BUS1_QUEUE_TYPE_SHIFT) = type `mod` 4 * 2 ^ 62).
  { unfold wrap_u64, U64_MOD, BUS1_QUEUE_TYPE_SHIFT. rewrite Z.shiftl_mul_pow2 by lia.
    change 18446744073709551616 with (4 * 2 ^ 62).
    rewrite Z.mul_mod_distr_r by lia. reflexivity. }
  assert (Hty : bus1_queue_node_get_type
                  {| rb := RbCleared; ref := 1; sender := sender;
                     timestamp_and_type := wrap_u64 (Z.shiftl type BUS1_QUEUE_TYPE_SHIFT) |}
                = type `mod` 4).
  { rewrite get_type_div. simpl timestamp_and_type. rewrite Hf.
    rewrite Z.div_mul by lia. apply Z.mod_mod. lia. }
  assert (Hts : bus1_queue_node_get_timestamp
                  {| rb := RbCleared; ref := 1; sender := sender;
                     timestamp_and_type := wrap_u64 (Z.shiftl type BUS1_QUEUE_TYPE_SHIFT) |}
                = 0).
  { rewrite get_timestamp_mod. simpl timestamp_and_type. rewrite Hf.
    apply Z.mod_mul. lia. }
  split_and!; try reflexivity; try assumption.
  - intros Hlt. rewrite Hty. apply Z.mod_small. lia.
  - f_equal.
    change (wrap_u64 (Z.lnot (Z.shiftr BUS1_QUEUE_TYPE_MASK BUS1_QUEUE_TYPE_SHIFT)))
      with (Z.land (Z.lnot (Z.ones 2)) (Z.ones 64)).
    rewrite Z.land_assoc, (Z.land_comm type), <- Z.land_assoc.
    rewrite (Z.land_ones type) by lia. rewrite (Z.mod_small type) by lia.
    rewrite Z.land_comm. change (Z.land type (Z.lnot (Z.ones 2))) with (Z.ldiff type (Z.ones 2)).
    rewrite Z.ldiff_ones_r by lia.
    rewrite Z.shiftr_div_pow2, Z.shiftl_mul_pow2 by lia. change (2 ^ 2) with 4.
    destruct (Z.ltb_spec type 4) as [Hlt|Hge].
    + rewrite Z.div_small by lia. reflexivity.
    + apply Z.eqb_neq. assert (1 <= type / 4) by (apply Z.div_le_lower_bound; lia). lia.
  - rewrite is_staging_odd, Hts. reflexivity.
Qed.

Lemma node_init_reads_back_witness :
  let '(node, warned) := bus1_queue_node_init BUS1_QUEUE_NODE_HANDLE_RELEASE 7 in
  bus1_queue_node_get_type node = BUS1_QUEUE_NODE_HANDLE_RELEASE /\ warned = false.
Proof.
  pose proof (node_init_reads_back BUS1_QUEUE_NODE_HANDLE_RELEASE 7) as H.
  destruct (bus1_queue_node_init BUS1_QUEUE_NODE_HANDLE_RELEASE 7) as [node warned].
  destruct H as (_ & Hty & Hw & _).
  - unfold BUS1_QUEUE_NODE_HANDLE_RELEASE. lia.
  - split; [apply Hty; unfold BUS1_QUEUE_NODE_HANDLE_RELEASE; lia | exact Hw].
Defined.

(** X2.  The two accessors split the [timestamp_and_type] field without
    loss: the type is its top two bits, the timestamp its low 62 bits, and
    a field put together from a type below 4 and a timestamp below 2^62 is
    read back as exactly these two. *)
Theorem type_and_timestamp_split (node : bus1_queue_node) :
  is_u64 (timestamp_and_type node) ->
  timestamp_and_type node
  = bus1_queue_node_get_type node * 2 ^ 62 + bus1_queue_node_get_timestamp node /\
  0 <= bus1_queue_node_get_type node < 4 /\
  0 <= bus1_queue_node_get_timestamp node < 2 ^ 62 /\
  (forall type ts : Z,
     0 <= type < 4 -> 0 <= ts < 2 ^ 62 ->
     timestamp_and_type node = Z.lor (Z.shiftl type BUS1_QUEUE_TYPE_SHIFT) ts ->
     bus1_queue_node_get_type node = type /\ bus1_queue_node_get_timestamp node = ts).
Proof.
  intros Hf. unfold is_u64, U64_MOD in Hf.
  rewrite get_type_div, get_timestamp_mod.
  assert (Hd : timestamp_and_type node / 2 ^ 62 < 4)
    by (apply Z.div_lt_upper_bound; lia).
  assert (0 <= timestamp_and_type node / 2 ^ 62) by (apply Z.div_pos; lia).
  rewrite (Z.mod_small (_ / _)) by lia.
  split_and!; try lia.
  - rewrite Z.mul_comm. apply Z.div_mod. lia.
  - apply Z.mod_pos_bound. lia.
  - apply Z.mod_pos_bound. lia.
  - intros type ts Hty Hts Heq.
    assert (Hsum : timestamp_and_type node = type * 2 ^ 62 + ts).
    { rewrite Heq. unfold BUS1_QUEUE_TYPE_SHIFT.
      rewrite <- Z.shiftl_mul_pow2 by lia. symmetry. apply Z.add_nocarry_lor.
      apply Z.bits_inj'. intros n Hn. rewrite Z.land_spec, Z.bits_0.
      destruct (Z.ltb_spec n 62) as [Hlt|Hge].
      - rewrite Z.shiftl_spec_low by lia. reflexivity.
      - rewrite (Z.bits_above_log2 ts n); [apply andb_false_r| lia |].
        destruct (Z.eq_dec ts 0) as [->|Hnz]; [simpl; lia|].
        apply Z.log2_lt_pow2; [lia|].
        apply Z.lt_le_trans with (2 ^ 62); [lia|]. apply Z.pow_le_mono_r; lia. }
    rewrite Hsum. split.
    + rewrite Z.div_add_l by lia. rewrite Z.div_small by lia. lia.
    + rewrite Z.add_comm, Z.mod_add by lia. apply Z.mod_small. lia.
Qed.

Lemma type_and_timestamp_split_witness :
  let node := {| rb := RbLinked; ref := 1; sender := 3;
                 timestamp_and_type := Z.lor (Z.shiftl 2 BUS1_QUEUE_TYPE_SHIFT) 41 |} in
  bus1_queue_node_get_type node = 2 /\ bus1_queue_node_get_timestamp node = 41.
Proof.
  cbv zeta.
  refine (proj2 (proj2 (proj2 (type_and_timestamp_split
    {| rb := RbLinked; ref := 1; sender := 3;
       timestamp_and_type := Z.lor (Z.shiftl 2 BUS1_QUEUE_TYPE_SHIFT) 41 |} _))) 2 41 _ _ _).
  - vm_compute. split; [intros H; discriminate H | reflexivity].
  - lia.
  - lia.
  - reflexivity.
Defined.

(** X3.  The comparator is a three-way comparison of the pairs (timestamp,
    sender): it answers -1, 0 or 1, swapping the arguments negates the
    answer, and the answer is 0 exactly for equal pairs. *)
Theorem compare_is_antisymmetric (a_ts a_sender b_ts b_sender : Z) :
  bus1_queue_compare b_ts b_sender a_ts a_sender
  = - bus1_queue_compare a_ts a_sender b_ts b_sender /\
  -1 <= bus1_queue_compare a_ts a_sender b_ts b_sender <= 1 /\
  (bus1_queue_compare a_ts a_sender b_ts b_sender = 0
   <-> a_ts = b_ts /\ a_sender = b_sender).
Proof.
  unfold bus1_queue_compare. rewrite !Z.gtb_ltb.
  destruct (Z.ltb_spec a_ts b_ts), (Z.ltb_spec b_ts a_ts),
    (Z.ltb_spec a_sender b_sender), (Z.ltb_spec b_sender a_sender);
    split_and!; try lia; split; lia.
Qed.

(** X4.  The comparator orders the pairs (timestamp, sender)
    lexicographically, timestamp first, and the order is transitive, so a
    tree sorted by it is sorted consistently. *)
Theorem compare_is_transitive (a_ts a_sender b_ts b_sender c_ts c_sender : Z) :
  bus1_queue_compare a_ts a_sender b_ts b_sender < 0 ->
  bus1_queue_compare b_ts b_sender c_ts c_sender <= 0 ->
  bus1_queue_compare a_ts a_sender c_ts c_sender < 0 /\
  (a_ts < c_ts \/ (a_ts = c_ts /\ a_sender < c_sender)).
Proof.
  unfold bus1_queue_compare. rewrite !Z.gtb_ltb.
  destruct (Z.ltb_spec a_ts b_ts), (Z.ltb_spec b_ts a_ts),
    (Z.ltb_spec a_sender b_sender), (Z.ltb_spec b_sender a_sender),
    (Z.ltb_spec b_ts c_ts), (Z.ltb_spec c_ts b_ts),
    (Z.ltb_spec b_sender c_sender), (Z.ltb_spec c_sender b_sender),
    (Z.ltb_spec a_ts c_ts), (Z.ltb_spec c_ts a_ts),
    (Z.ltb_spec a_sender c_sender), (Z.ltb_spec c_sender a_sender);
    intros; split; lia.
Qed.

Lemma compare_is_transitive_witness :
  bus1_queue_compare 4 9 6 1 < 0 /\ bus1_queue_compare 6 1 6 2 <= 0 /\
  bus1_queue_compare 4 9 6 2 < 0.
Proof.
  assert (H1 : bus1_queue_compare 4 9 6 1 < 0) by (vm_compute; reflexivity).
  assert (H2 : bus1_queue_compare 6 1 6 2 <= 0) by (vm_compute; discriminate).
  split; [exact H1|]. split; [exact H2|].
  exact (proj1 (compare_is_transitive 4 9 6 1 6 2 H1 H2)).
Defined.

Lemma apply_clock_ops_app os1 os2 q :
  apply_clock_ops (os1 ++ os2) q = apply_clock_ops os2 (apply_clock_ops os1 q).
Proof. unfold apply_clock_ops. apply foldl_app. Qed.

Lemma ticks_below_wrap_app os1 os2 q :
  ticks_below_wrap (os1 ++ os2) q
  <-> ticks_below_wrap os1 q /\ ticks_below_wrap os2 (apply_clock_ops os1 q).
Proof.
  revert q. induction os1 as [|o os1 IH]; intros q.
  - simpl. tauto.
  - rewrite apply_clock_ops_cons. simpl. rewrite IH. tauto.
Qed.

Lemma apply_clock_ops_le os q :
  is_u64 (clock q) -> u64_syncs os -> ticks_below_wrap os q ->
  is_u64 (clock (apply_clock_ops os q)) /\ clock q <= clock (apply_clock_ops os q).
Proof.
  revert q. induction os as [|o os IH]; intros q Hq Hu Hw.
  - simpl. split; [assumption|lia].
  - apply Forall_cons in Hu as [Ho Hu]. destruct Hw as [Hw Hws].
    rewrite apply_clock_ops_cons.
    pose proof (apply_clock_op_u64 o q Hq Ho) as Hq'.
    pose proof (apply_clock_op_le o q Hq Hw).
    destruct (IH _ Hq' Hu Hws). split; [assumption|lia].
Qed.

(** X5.  A tick that follows a sync hands out a timestamp that is later
    than both the clock before the sync and the timestamp synced with (as
    long as the addition stays below 2^64): what was seen on another queue
    is ordered before what is sent next. *)
Theorem tick_after_sync_is_later (q : bus1_queue) (t : Z) :
  is_u64 (clock q) -> is_u64 t -> Z.max (clock q) t + 2 < U64_MOD ->
  let q' := (bus1_queue_sync q t).1.2 in
  (bus1_queue_tick q').1 = Z.max (clock q) t + 2 /\
  clock q < (bus1_queue_tick q').1 /\
  t < (bus1_queue_tick q').1.
Proof.
  intros Hq Ht Hw. simpl. unfold is_u64 in *.
  rewrite wrap_u64_id by (unfold is_u64; lia). lia.
Qed.

Lemma tick_after_sync_is_later_witness :
  (bus1_queue_tick (bus1_queue_sync fresh_queue 10).1.2).1 = 12.
Proof.
  refine (proj1 (tick_after_sync_is_later fresh_queue 10 _ _ _));
    unfold is_u64, U64_MOD; simpl; lia.
Defined.

(** X6.  The two values a tick allocates to its caller, the even one it
    returns and the odd successor, are below everything a later tick on
    the same queue returns, whatever ticks and syncs happen in between (no
    tick starting at the top of the [u64] range): no two ticks hand out the
    same value. *)
Theorem tick_allocations_are_unique (os : list clock_op) (q : bus1_queue) :
  is_u64 (clock q) -> u64_syncs os ->
  ticks_below_wrap (Tick :: os ++ [Tick]) q ->
  let (r1, q1) := bus1_queue_tick q in
  let (r2, q2) := bus1_queue_tick (apply_clock_ops os q1) in
  r1 = clock q + 2 /\ r1 + 1 < r2.
Proof.
  intros Hq Hu [Hw Hws]. apply ticks_below_wrap_app in Hws as [Hws [Hlast _]].
  change (apply_clock_op Tick q) with (bus1_queue_tick q).2 in *.
  destruct (bus1_queue_tick q) as [r1 q1] eqn:E1.
  assert (Hc1 : clock q1 = clock q + 2 /\ r1 = clock q1).
  { unfold bus1_queue_tick in E1. injection E1 as <- <-. simpl.
    rewrite wrap_u64_id by (unfold is_u64 in *; lia). split; reflexivity. }
  destruct Hc1 as [Hc1 ->]. simpl in Hws, Hlast.
  assert (Hq1 : is_u64 (clock q1)) by (unfold is_u64 in *; lia).
  destruct (apply_clock_ops_le os q1 Hq1 Hu Hws) as [Hq2 Hle].
  unfold bus1_queue_tick. simpl.
  rewrite wrap_u64_id by (unfold is_u64 in *; lia). lia.
Qed.

Lemma tick_allocations_are_unique_witness :
  let (r1, q1) := bus1_queue_tick fresh_queue in
  let (r2, q2) := bus1_queue_tick (apply_clock_ops [Sync 2; Sync 1] q1) in
  r1 = clock fresh_queue + 2 /\ r1 + 1 < r2.
Proof.
  apply (tick_allocations_are_unique [Sync 2; Sync 1] fresh_queue).
  - unfold is_u64, U64_MOD. simpl. lia.
  - repeat constructor; unfold is_u64, U64_MOD; lia.
  - vm_compute. repeat split; reflexivity.
Defined.

(** X7.  On an even clock, the value a tick returns is a commit timestamp
    and its successor a staging timestamp: a node that carries the former
    is not staging, a node that carries the latter is, and the comparator
    puts the former before the latter whatever the two senders are. *)
Theorem tick_gives_commit_and_staging (q : bus1_queue) (node node' : bus1_queue_node) :
  Z.even (clock q) = true ->
  bus1_queue_node_get_timestamp node = (bus1_queue_tick q).1 ->
  bus1_queue_node_get_timestamp node' = (bus1_queue_tick q).1 + 1 ->
  bus1_queue_node_is_staging node = false /\
  bus1_queue_node_is_staging node' = true /\
  bus1_queue_compare (bus1_queue_node_get_timestamp node) (sender node)
                     (bus1_queue_node_get_timestamp node') (sender node') = -1.
Proof.
  intros He Hn Hn'.
  assert (Hr : Z.even (bus1_queue_tick q).1 = true).
  { simpl. rewrite wrap_u64_even, Z.even_add, He. reflexivity. }
  rewrite !is_staging_odd, Hn, Hn'. split_and!.
  - rewrite <- Z.negb_even, Hr. reflexivity.
  - rewrite Z.odd_add, <- Z.negb_even, Hr. reflexivity.
  - unfold bus1_queue_compare.
    destruct (Z.ltb_spec (bus1_queue_tick q).1 ((bus1_queue_tick q).1 + 1)); [reflexivity|lia].
Qed.

Lemma tick_gives_commit_and_staging_witness :
  let node := {| rb := RbLinked; ref := 1; sender := 5; timestamp_and_type := 2 |} in
  let node' := {| rb := RbLinked; ref := 1; sender := 4; timestamp_and_type := 3 |} in
  bus1_queue_node_is_staging node = false /\
  bus1_queue_node_is_staging node' = true /\
  bus1_queue_compare (bus1_queue_node_get_timestamp node) (sender node)
                     (bus1_queue_node_get_timestamp node') (sender node') = -1.
Proof.
  apply (tick_gives_commit_and_staging fresh_queue); reflexivity.
Defined.

Lemma ticks_keep_odd (n : nat) (q : bus1_queue) :
  Z.odd (clock q) = true ->
  Z.odd (clock (apply_clock_ops (replicate n Tick) q)) = true.
Proof.
  revert q. induction n as [|n IH]; intros q Hq; [exact Hq|].
  simpl replicate. rewrite apply_clock_ops_cons. apply IH. simpl.
  rewrite <- Z.negb_even, wrap_u64_even, Z.even_add, <- Z.negb_odd, Hq. reflexivity.
Qed.

(** X8.  The WARN_ON of sync does not guard the clock: a sync with an odd
    timestamp above the clock fires the warning and still adopts the
    timestamp.  The clock is odd from then on, through any number of ticks,
    so every value a later tick returns reads as staging. *)
Theorem sync_adopts_odd_timestamp (q : bus1_queue) (t : Z) (n : nat) :
  Z.odd t = true -> clock q < t ->
  let '(r, q', warned) := bus1_queue_sync q t in
  warned = true /\ r = t /\ clock q' = t /\
  Z.odd (clock (apply_clock_ops (replicate n Tick) q')) = true.
Proof.
  intros Ho Hlt. unfold bus1_queue_sync.
  rewrite land_1_even, <- Z.negb_odd, Ho. simpl.
  rewrite Z.max_r by lia. split_and!; try reflexivity.
  apply ticks_keep_odd. exact Ho.
Qed.

Lemma sync_adopts_odd_timestamp_witness :
  let '(r, q', warned) := bus1_queue_sync fresh_queue 7 in
  warned = true /\ r = 7 /\ clock q' = 7 /\
  Z.odd (clock (apply_clock_ops (replicate 3 Tick) q')) = true.
Proof.
  apply (sync_adopts_odd_timestamp fresh_queue 7 3); [reflexivity|simpl; lia].
Defined.

(** X9.  sync only ever raises the clock: a timestamp that is not above
    the clock leaves the queue exactly as it was, and two syncs give the
    same queue in either order, its clock the largest of the three
    values. *)
Theorem sync_absorbs_and_commutes (q : bus1_queue) (t1 t2 : Z) :
  (t1 <= clock q -> (bus1_queue_sync q t1).1 = (clock q, q)) /\
  (bus1_queue_sync (bus1_queue_sync q t1).1.2 t2).1.2
  = (bus1_queue_sync (bus1_queue_sync q t2).1.2 t1).1.2 /\
  clock (bus1_queue_sync (bus1_queue_sync q t1).1.2 t2).1.2
  = Z.max (clock q) (Z.max t1 t2).
Proof.
  destruct q as [c f m]. unfold bus1_queue_sync. simpl. split_and!.
  - intros Hle. rewrite Z.max_l by lia. reflexivity.
  - f_equal. lia.
  - lia.
Qed.

Lemma sync_absorbs_and_commutes_witness :
  (bus1_queue_sync (bus1_queue_tick fresh_queue).2 0).1
  = (clock (bus1_queue_tick fresh_queue).2, (bus1_queue_tick fresh_queue).2).
Proof.
  apply (sync_absorbs_and_commutes (bus1_queue_tick fresh_queue).2 0 0).
  vm_compute. discriminate.
Defined.

(** X10.  deinit is silent, and leaves the node as it is, exactly for a
    NULL node and for a node that is unlinked and holds no reference.  It
    is not a pure check: when references are left the second WARN_ON fires
    and [kref_get_unless_zero] has taken one more, so a node fresh from
    init comes out with two. *)
Theorem node_deinit_checks (node : option bus1_queue_node) :
  let '(node', warned_rb, warned_ref) := bus1_queue_node_deinit node in
  (warned_rb = false /\ warned_ref = false
   <-> node = None \/
       exists n, node = Some n /\ bus1_queue_node_is_queued n = false /\ ref n = 0) /\
  (warned_ref = false -> node' = node) /\
  (forall type sender : Z,
     node = Some (bus1_queue_node_init type sender).1 ->
     warned_rb = false /\ warned_ref = true /\ ref <$> node' = Some 2).
Proof.
  destruct node as [[r k s f]|]; simpl.
  - unfold kref_get_unless_zero, bus1_queue_node_is_queued. simpl.
    destruct (Z.eqb_spec k 0) as [->|Hk]; simpl; split_and!.
    + split.
      * intros [Hr _]. right. eexists. split; [reflexivity|]. simpl. auto.
      * intros [[=]|(n & [= <-] & Hq & _)]. simpl in Hq. auto.
    + reflexivity.
    + intros type sender [=].
    + split.
      * intros [_ [=]].
      * intros [[=]|(n & [= <-] & _ & Hz)]. simpl in Hz. contradiction.
    + intros [=].
    + intros type sender [= -> -> _ _]. simpl. repeat split.
  - split_and!; try tauto.
    + intros type sender [=].
Qed.

End QueueProofs.

(** ** Active references: one caller *)

Module ActiveProofs.
Import Active.

Lemma constants :
  BUS1_ACTIVE_BIAS = -2147483643 /\ BUS1_ACTIVE_RELEASE_DIRECT = -2147483644 /\
  BUS1_ACTIVE_RELEASE = -2147483645 /\ BUS1_ACTIVE_DRAINED = -2147483646 /\
  BUS1_ACTIVE_NEW = -2147483647 /\ _BUS1_ACTIVE_RESERVED = INT_MIN.
Proof. repeat split. Qed.

(** Unfold the named counter values, for [lia]. *)
Ltac consts :=
  unfold BUS1_ACTIVE_NEW, BUS1_ACTIVE_DRAINED, BUS1_ACTIVE_RELEASE,
    BUS1_ACTIVE_RELEASE_DIRECT, BUS1_ACTIVE_BIAS, is_int, INT_MIN, INT_MAX in *.

Ltac zbool :=
  repeat match goal with
  | |- context [?x =? ?y] => destruct (Z.eqb_spec x y)
  | |- context [?x <=? ?y] => destruct (Z.leb_spec x y)
  | |- context [?x <? ?y] => destruct (Z.ltb_spec x y)
  | |- context [?x >=? ?y] => rewrite (Z.geb_leb x y)
  | |- context [?x >? ?y] => rewrite (Z.gtb_ltb x y)
  end.

Section OneCaller.

Context (h : gmap addr Z) (a : addr) (c : Z).
Hypothesis Hc : h !! a = Some c.

Lemma run_is_deactivated :
  run (bus1_active_is_deactivated (Some a)) h
  = Done ((c >? BUS1_ACTIVE_NEW) && (c <? 0)) h [].
Proof using Hc. unfold run. simpl. rewrite Hc. reflexivity. Qed.

Lemma run_activate :
  run (bus1_active_activate (Some a)) h
  = if c =? BUS1_ACTIVE_NEW
    then Done true (<[a:=0]> h) [EvCount a 0]
    else Done false h [].
Proof using Hc.
  unfold run. simpl. rewrite Hc. destruct (c =? BUS1_ACTIVE_NEW) eqn:E; simpl; rewrite E; reflexivity.
Qed.

Lemma run_acquire :
  run (bus1_active_acquire (Some a)) h
  = if c >=? 0
    then Done (Some a) (<[a:=wrap_int (c + 1)]> h) [EvCount a (wrap_int (c + 1))]
    else Done NULL h [].
Proof using Hc. unfold run. simpl. rewrite Hc. destruct (c >=? 0); reflexivity. Qed.

Lemma run_release (waitq : ptr) :
  run (bus1_active_release (Some a) waitq) h
  = Done NULL (<[a:=wrap_int (c - 1)]> h)
      (EvCount a (wrap_int (c - 1)) ::
       match waitq with
       | Some q => if wrap_int (c - 1) =? BUS1_ACTIVE_BIAS then [EvWakeUp q] else []
       | None => []
       end).
Proof using Hc.
  unfold run. simpl. rewrite Hc. cbv zeta.
  destruct (wrap_int (c - 1) =? BUS1_ACTIVE_BIAS); destruct waitq; reflexivity.
Qed.

Lemma run_deactivate (retries : nat) :
  run (bus1_active_deactivate retries (Some a)) h
  = if c =? BUS1_ACTIVE_NEW
    then Done () (<[a:=BUS1_ACTIVE_RELEASE_DIRECT]> h) [EvCount a BUS1_ACTIVE_RELEASE_DIRECT]
    else if c >=? 0
    then Done () (<[a:=wrap_int (c + BUS1_ACTIVE_BIAS)]> h)
                 [EvCount a (wrap_int (c + BUS1_ACTIVE_BIAS))]
    else Done () h [].
Proof using Hc.
  unfold run. simpl. rewrite Hc.
  destruct (c =? BUS1_ACTIVE_NEW) eqn:E; simpl; rewrite E; simpl; [reflexivity|].
  rewrite Hc. simpl.
  destruct retries; simpl; (destruct (c >=? 0) eqn:E'; simpl; [|reflexivity]);
    rewrite Hc, Z.eqb_refl; simpl; rewrite Z.eqb_refl; reflexivity.
Qed.

Lemma run_drain_warn (waitq release : ptr) :
  (c >? BUS1_ACTIVE_NEW) && (c <? 0) = false ->
  run (bus1_active_drain (Some a) waitq release) h = Done false h [EvWarn].
Proof using Hc. intros E. unfold run. simpl. rewrite Hc, E. reflexivity. Qed.

Lemma run_drain_release (q : addr) (release : ptr) :
  c = BUS1_ACTIVE_RELEASE_DIRECT \/ c = BUS1_ACTIVE_BIAS ->
  run (bus1_active_drain (Some a) (Some q) release) h
  = Done true (<[a:=BUS1_ACTIVE_DRAINED]> h)
      ([EvCount a BUS1_ACTIVE_RELEASE]
       ++ match release with Some f => [EvRelease f a] | None => [] end
       ++ [EvCount a BUS1_ACTIVE_DRAINED; EvWakeUpAll q]).
Proof using Hc.
  intros [-> | ->]; unfold run; simpl; rewrite Hc; simpl; rewrite Hc; simpl.
  - rewrite Hc. simpl. destruct release; simpl;
      rewrite lookup_insert_eq, insert_insert_eq; reflexivity.
  - rewrite Hc. simpl. rewrite Hc. simpl. destruct release; simpl;
      rewrite lookup_insert_eq, insert_insert_eq; reflexivity.
Qed.

Lemma run_drain_drained (q : addr) (release : ptr) :
  c = BUS1_ACTIVE_DRAINED ->
  run (bus1_active_drain (Some a) (Some q) release) h = Done false h [].
Proof using Hc.
  intros ->. unfold run. simpl. rewrite Hc. simpl. rewrite Hc. simpl.
  rewrite Hc. simpl. rewrite Hc. simpl. rewrite Hc. reflexivity.
Qed.

End OneCaller.

Lemma run_from_trace {A : Type} (p : prog A) (h : gmap addr Z) (tr : list event) :
  run_from p h tr
  = match run p h with
    | Done x h' tr' => Done x h' (tr ++ tr')
    | Blocked h' tr' => Blocked h' (tr ++ tr')
    | Crashed => Crashed
    | Spinning => Spinning
    end.
Proof.
  unfold run. revert h tr.
  induction p as [x|act k IH| |]; intros h tr; simpl; try reflexivity.
  - rewrite app_nil_r. reflexivity.
  - destruct (perform act h) as [v h' evs| |]; try reflexivity.
    + rewrite (IH v h' (tr ++ evs)), (IH v h' evs).
      destruct (run_from (k v) h' []); try reflexivity; rewrite app_assoc; reflexivity.
    + rewrite app_nil_r. reflexivity.
Qed.

Lemma run_bind {A B : Type} (p : prog A) (f : A -> prog B) (h : gmap addr Z) :
  run (p ≫= f) h
  = match run p h with
    | Done x h' tr => run_from (f x) h' tr
    | Blocked h' tr => Blocked h' tr
    | Crashed => Crashed
    | Spinning => Spinning
    end.
Proof.
  unfold run. generalize (@nil event) as tr. revert h.
  induction p as [x|act k IH| |]; intros h tr; simpl; try reflexivity.
  destruct (perform act h) as [v h' evs| |]; try reflexivity.
  apply IH.
Qed.

Lemma final_heap_run_from {A : Type} (p : prog A) (h : gmap addr Z) (tr : list event) :
  final_heap (run_from p h tr) = final_heap (run p h).
Proof. rewrite run_from_trace. destruct (run p h); reflexivity. Qed.

Lemma deactivated_count_int c :
  is_int c -> deactivated_count c
  = if c =? BUS1_ACTIVE_NEW then BUS1_ACTIVE_RELEASE_DIRECT
    else if c >=? 0 then wrap_int (c + BUS1_ACTIVE_BIAS) else c.
Proof.
  intros Hi. unfold deactivated_count. rewrite Z.geb_leb.
  destruct (c =? BUS1_ACTIVE_NEW); [reflexivity|].
  destruct (Z.leb_spec 0 c); [|reflexivity].
  rewrite wrap_int_id; [reflexivity|]. consts. lia.
Qed.

Lemma final_heap_deactivate retries h a c :
  h !! a = Some c -> is_int c ->
  final_heap (run (bus1_active_deactivate retries (Some a)) h)
  = Some (<[a:=deactivated_count c]> h).
Proof.
  intros Hc Hi. rewrite (run_deactivate h a c Hc), deactivated_count_int by assumption.
  destruct (c =? BUS1_ACTIVE_NEW); [reflexivity|].
  destruct (c >=? 0); [reflexivity|].
  simpl. rewrite insert_id; auto.
Qed.

(** C3, as the code has it.  For every counter value, acquire on a
    non-null object returns the object exactly when the counter is not
    negative, and then the counter has been incremented as the kernel's
    [int] increment does: by one for every value below INT_MAX, and from
    INT_MAX around to INT_MIN.  Otherwise it returns NULL and leaves the
    memory alone; so once is_deactivated answers true, acquire fails. *)
Theorem acquire_iff_nonnegative (h : gmap addr Z) (a : addr) (c : Z) :
  h !! a = Some c ->
  run (bus1_active_acquire (Some a)) h
  = (if 0 <=? c
     then Done (Some a) (<[a:=wrap_int (c + 1)]> h) [EvCount a (wrap_int (c + 1))]
     else Done NULL h [])
  /\ (0 <= c < INT_MAX -> wrap_int (c + 1) = c + 1)
  /\ (c = INT_MAX -> wrap_int (c + 1) = INT_MIN)
  /\ (run (bus1_active_is_deactivated (Some a)) h = Done true h [] ->
      run (bus1_active_acquire (Some a)) h = Done NULL h []).
Proof.
  intros Hc. rewrite (run_acquire h a c Hc), (run_is_deactivated h a c Hc), Z.geb_leb.
  split; [reflexivity|]. split; [|split].
  - intros Hr. apply wrap_int_id. consts. lia.
  - intros ->. reflexivity.
  - intros Hd. injection Hd as Hd. apply andb_true_iff in Hd as [_ Hd].
    destruct (Z.leb_spec 0 c); [lia|reflexivity].
Qed.

Lemma acquire_iff_nonnegative_witness :
  run (bus1_active_acquire (Some 1%positive)) {[1%positive := 7]}
  = Done (Some 1%positive) (<[1%positive:=8]> {[1%positive := 7]}) [EvCount 1%positive 8].
Proof.
  apply (acquire_iff_nonnegative {[1%positive := 7]} 1%positive 7).
  apply lookup_singleton_eq.
Defined.

(** C3, as stated, fails at the largest counter value, which is a state
    ACTIVE like any other: the acquire succeeds and the counter is not
    INT_MAX + 1 but INT_MIN. *)
Example acquire_at_int_max :
  run (bus1_active_acquire (Some 1%positive)) {[1%positive := INT_MAX]}
  = Done (Some 1%positive) (<[1%positive:=INT_MIN]> {[1%positive := INT_MAX]})
         [EvCount 1%positive INT_MIN]
  /\ INT_MIN <> INT_MAX + 1.
Proof.
  split; [|discriminate].
  rewrite (run_acquire _ _ INT_MAX) by apply lookup_singleton_eq. reflexivity.
Qed.

(** C4, as the code has it.  deactivate takes the counter from NEW to
    RELEASE_DIRECT, adds the bias to a counter that is not negative and
    leaves any other negative counter alone.  Adding the bias takes
    ACTIVE(k) to DRAINING(k) for every k below 2^31 - 5 (the negated bias);
    from there upwards the sum is not negative and the object is still
    ACTIVE.  And when the counter is below 2^31 - 5, a second deactivate
    changes nothing more. *)
Theorem deactivate_count_idempotent (retries : nat) (h : gmap addr Z) (a : addr) (c : Z) :
  h !! a = Some c -> is_int c ->
  final_heap (run (bus1_active_deactivate retries (Some a)) h)
  = Some (<[a:=deactivated_count c]> h)
  /\ (c = BUS1_ACTIVE_NEW -> deactivated_count c = BUS1_ACTIVE_RELEASE_DIRECT)
  /\ (0 <= c < - BUS1_ACTIVE_BIAS ->
      deactivated_count c = BUS1_ACTIVE_BIAS + c /\
      state_of (deactivated_count c) = DRAINING)
  /\ (- BUS1_ACTIVE_BIAS <= c ->
      0 <= deactivated_count c /\ state_of (deactivated_count c) = ACTIVE)
  /\ (c < 0 -> c <> BUS1_ACTIVE_NEW -> deactivated_count c = c)
  /\ (c < - BUS1_ACTIVE_BIAS ->
      final_heap (run (bus1_active_deactivate retries (Some a);;
                       bus1_active_deactivate retries (Some a)) h)
      = final_heap (run (bus1_active_deactivate retries (Some a)) h)).
Proof.
  intros Hc Hi. split; [apply final_heap_deactivate; assumption|].
  split_and!.
  - intros ->. reflexivity.
  - intros Hr. unfold deactivated_count, state_of. rewrite !Z.geb_leb.
    destruct (Z.eqb_spec c BUS1_ACTIVE_NEW); [consts; lia|].
    destruct (Z.leb_spec 0 c); [|lia]. split; [lia|].
    destruct (Z.leb_spec 0 (c + BUS1_ACTIVE_BIAS)); [lia|].
    destruct (Z.leb_spec BUS1_ACTIVE_BIAS (c + BUS1_ACTIVE_BIAS)); [reflexivity|lia].
  - intros Hr. unfold deactivated_count, state_of. rewrite !Z.geb_leb.
    destruct (Z.eqb_spec c BUS1_ACTIVE_NEW); [consts; lia|].
    destruct (Z.leb_spec 0 c); [|consts; lia].
    destruct (Z.leb_spec 0 (c + BUS1_ACTIVE_BIAS)); [split; [assumption|reflexivity]|lia].
  - intros Hn Hne. unfold deactivated_count.
    destruct (Z.eqb_spec c BUS1_ACTIVE_NEW); [contradiction|].
    destruct (Z.leb_spec 0 c); [lia|reflexivity].
  - intros Hlt. rewrite run_bind.
    pose proof (final_heap_deactivate retries h a c Hc Hi) as H1.
    destruct (run (bus1_active_deactivate retries (Some a)) h) as [[] h1 tr1| | |];
      try discriminate.
    simpl in H1. injection H1 as ->.
    rewrite final_heap_run_from.
    rewrite (final_heap_deactivate retries _ a (deactivated_count c)).
    + simpl. rewrite insert_insert_eq. f_equal. f_equal.
      unfold deactivated_count. consts. zbool; lia.
    + apply lookup_insert_eq.
    + unfold deactivated_count. consts. zbool; lia.
Qed.

Lemma deactivate_count_idempotent_witness :
  final_heap (run (bus1_active_deactivate 0 (Some 1%positive)) {[1%positive := 3]})
  = Some (<[1%positive:=deactivated_count 3]> {[1%positive := 3]})
  /\ state_of (deactivated_count 3) = DRAINING
  /\ final_heap (run (bus1_active_deactivate 0 (Some 1%positive);;
                      bus1_active_deactivate 0 (Some 1%positive)) {[1%positive := 3]})
     = final_heap (run (bus1_active_deactivate 0 (Some 1%positive)) {[1%positive := 3]}).
Proof.
  destruct (deactivate_count_idempotent 0 {[1%positive := 3]} 1%positive 3)
    as (H1 & _ & H2 & _ & _ & H3).
  - apply lookup_singleton_eq.
  - consts. lia.
  - split; [exact H1|]. split; [apply H2; consts; lia|apply H3; consts; lia].
Defined.

(** C4, as stated, fails for a counter of 2^31 - 5: the first deactivate
    leaves the counter at 0, the second takes it to the bias. *)
Lemma deactivate_twice_differs :
  let d := bus1_active_deactivate 0 (Some 1%positive) in
  let h := {[1%positive := 2147483643]} : gmap addr Z in
  final_heap (run d h) = Some {[1%positive := 0]} /\
  final_heap (run (d;; d) h) = Some {[1%positive := BUS1_ACTIVE_BIAS]} /\
  final_heap (run (d;; d) h) <> final_heap (run d h).
Proof.
  assert (H1 : final_heap (run (bus1_active_deactivate 0 (Some 1%positive))
                 ({[1%positive := 2147483643]} : gmap addr Z)) = Some {[1%positive := 0]}).
  { rewrite (final_heap_deactivate 0 _ 1%positive 2147483643).
    - rewrite insert_singleton_eq. reflexivity.
    - apply lookup_singleton_eq.
    - consts. lia. }
  assert (H2 : final_heap (run (bus1_active_deactivate 0 (Some 1%positive);;
                                bus1_active_deactivate 0 (Some 1%positive))
                 ({[1%positive := 2147483643]} : gmap addr Z))
               = Some {[1%positive := BUS1_ACTIVE_BIAS]}).
  { rewrite run_bind.
    destruct (run (bus1_active_deactivate 0 (Some 1%positive))
                ({[1%positive := 2147483643]} : gmap addr Z)) as [[] h1 tr1| | |];
      try discriminate.
    simpl in H1. injection H1 as ->. rewrite final_heap_run_from.
    rewrite (final_heap_deactivate 0 _ 1%positive 0).
    - rewrite insert_singleton_eq. reflexivity.
    - apply lookup_singleton_eq.
    - consts. lia. }
  cbv zeta. rewrite H1, H2. repeat split.
  intros H. apply (inj Some) in H.
  apply (f_equal (fun m : gmap addr Z => m !! 1%positive)) in H.
  rewrite !lookup_singleton_eq in H. discriminate.
Qed.



(** C9.  A drain of an object that is still NEW or active fires the
    WARN_ON, returns false and touches nothing: no callback, no write, no
    wake-up. *)
Theorem drain_before_deactivate_warns
    (h : gmap addr Z) (a : addr) (c : Z) (waitq release : ptr) :
  h !! a = Some c -> c = BUS1_ACTIVE_NEW \/ 0 <= c ->
  run (bus1_active_drain (Some a) waitq release) h = Done false h [EvWarn].
Proof.
  intros Hc Hs. apply (run_drain_warn h a c Hc).
  consts. destruct Hs as [-> | Hs]; [reflexivity|].
  apply andb_false_iff. right. apply Z.ltb_ge. lia.
Qed.

Lemma drain_before_deactivate_warns_witness :
  run (bus1_active_drain (Some 1%positive) (Some 2%positive) (Some 3%positive))
      {[1%positive := BUS1_ACTIVE_NEW]}
  = Done false {[1%positive := BUS1_ACTIVE_NEW]} [EvWarn].
Proof.
  apply (drain_before_deactivate_warns _ 1%positive BUS1_ACTIVE_NEW).
  - apply lookup_singleton_eq.
  - left. reflexivity.
Defined.

(** C10.  A NULL object is tolerated: acquire returns NULL, release
    returns NULL whatever the wait-queue, and neither touches the memory or
    produces an event. *)
Theorem null_object_is_noop (h : gmap addr Z) (waitq : ptr) :
  run (bus1_active_acquire NULL) h = Done NULL h [] /\
  run (bus1_active_release NULL waitq) h = Done NULL h [].
Proof. split; reflexivity. Qed.

(** ** Active references: interleaved callers *)

(** *** Program points are the programs left to run *)

Section Interleaving.

Context (active waitq : addr) (release : ptr) (retries : nat).

Abbreviation code := (code active waitq release retries).
Abbreviation pact := (pact active waitq release).
Abbreviation pnext := (pnext release retries).
Abbreviation wfpt := (wfpt release).
Abbreviation wf_pool := (wf_pool release).
Abbreviation conc := (conc active waitq release retries).
Abbreviation astep := (astep active waitq release retries).
Abbreviation aexec := (aexec active waitq release retries).
Abbreviation mstep := (mstep active waitq release retries).
Abbreviation exec := (exec active waitq release retries).

Ltac same_prog := first [ reflexivity | cbv; reflexivity ].

Lemma code_act pt act :
  wfpt pt -> pact pt = Some act ->
  exists k, code pt = Act act k /\ forall v, k v = code (pnext pt v).
Proof.
  intros Hwf Hact.
  destruct pt as [[]| | | | |n v0| | | | | | | | ]; simpl in Hact, Hwf;
    try discriminate; try (injection Hact as <-).
  - eexists; split; [reflexivity|]. intros v; cbv beta. simpl. destruct (v =? BUS1_ACTIVE_NEW); same_prog.
  - eexists; split; [reflexivity|]. intros v; cbv beta. simpl. destruct (v =? 0); same_prog.
  - eexists; split; [reflexivity|]. intros v; cbv beta. simpl. destruct (v =? BUS1_ACTIVE_BIAS); same_prog.
  - eexists; split; [reflexivity|]. intros v; cbv beta. simpl. destruct (v =? BUS1_ACTIVE_NEW); same_prog.
  - eexists; split; [reflexivity|]. intros v; cbv beta. simpl.
    destruct ((v >? BUS1_ACTIVE_NEW) && (v <? 0)); same_prog.
  - eexists; split; [reflexivity|]. intros v; same_prog.
  - eexists; split; [reflexivity|]. intros v; cbv beta. simpl. unfold loop_point.
    destruct (v >=? 0) eqn:E; [same_prog|].
    destruct retries; simpl; rewrite E; same_prog.
  - assert (E : (v0 >=? 0) = true) by lia.
    destruct n; simpl; rewrite E; simpl.
    + eexists; split; [reflexivity|]. intros v; cbv beta. simpl. destruct (v =? v0); same_prog.
    + eexists; split; [reflexivity|]. intros v; cbv beta. simpl. destruct (v =? v0); [same_prog|].
      unfold loop_point. destruct (v >=? 0) eqn:E'; [same_prog|].
      destruct n; simpl; rewrite E'; same_prog.
  - eexists; split; [reflexivity|]. intros v; same_prog.
  - eexists; split; [reflexivity|]. intros v; same_prog.
  - eexists; split; [reflexivity|]. intros v; cbv beta. simpl.
    destruct (v =? BUS1_ACTIVE_RELEASE_DIRECT) eqn:E.
    + apply Z.eqb_eq in E. subst v. unfold drain_win. destruct release; same_prog.
    + same_prog.
  - eexists; split; [reflexivity|]. intros v; cbv beta. simpl.
    destruct ((v =? BUS1_ACTIVE_BIAS) || (v =? BUS1_ACTIVE_RELEASE_DIRECT)) eqn:E.
    + unfold drain_win. destruct release; same_prog.
    + same_prog.
  - destruct release as [f|]; [|done]. injection Hact as <-.
    eexists; split; [reflexivity|]. intros v; same_prog.
  - destruct release as [f|]; (eexists; split; [reflexivity|]; intros v; same_prog).
  - destruct release as [f|]; (eexists; split; [reflexivity|]; intros v; same_prog).
  - eexists; split; [reflexivity|]. intros v; same_prog.
Qed.

Lemma pact_none pt :
  wfpt pt -> pact pt = None -> (exists v, pt = PRet v) \/ pt = PSpin.
Proof.
  destruct pt as [[]| | | | | | | | | | | | | ]; simpl; intros Hwf Hact;
    try discriminate; eauto.
  destruct release; [discriminate|contradiction].
Qed.

Lemma wfpt_pnext pt v : wfpt pt -> wfpt (pnext pt v).
Proof.
  assert (Hl : forall n, wfpt (loop_point n v)).
  { intros n. unfold loop_point. destruct (Z.geb_spec v 0); simpl; [lia|exact I]. }
  assert (Hw : wfpt (drain_win release)).
  { unfold drain_win. destruct release; simpl; done. }
  destruct pt as [[]| | | | |n v0| | | | | | | | ]; simpl; intros Hwf;
    repeat case_match; simpl; auto.
Qed.

(** One step of the machine on programs is one step of the machine on
    program points. *)
Lemma mstep_conc i x :
  wf_pool x -> mstep i (conc x) = conc <$> astep i x.
Proof.
  intros Hwf. destruct i as [t o|t]; simpl.
  - rewrite lookup_fmap. destruct (a_pool x !! t) as [[o' pt]|]; simpl; [reflexivity|].
    unfold conc; simpl. rewrite fmap_insert. reflexivity.
  - rewrite lookup_fmap. destruct (a_pool x !! t) as [[o pt]|] eqn:Hp; simpl; [|reflexivity].
    specialize (Hwf t o pt Hp).
    destruct (pact pt) as [act|] eqn:Hact.
    + destruct (code_act pt act Hwf Hact) as (k & Hk & Hnext). rewrite Hk.
      assert (Hnr : match pt with PRet _ => False | _ => True end).
      { destruct pt; try exact I. discriminate. }
      replace (match pt with
               | PRet v => Some (AState (a_heap x) (a_refs x) (delete t (a_pool x))
                                        (a_log x ++ [(t, ObsRet o v)]))
               | _ => if ghost_ready act (a_refs x) then
                        match perform act (a_heap x) with
                        | Eff v h' evs =>
                            Some (AState h' (ghost_refs act v (a_refs x))
                                    (<[t:=(o, pnext pt v)]> (a_pool x))
                                    (a_log x ++ tag t evs))
                        | _ => None
                        end
                      else None
               end)
        with (if ghost_ready act (a_refs x) then
                match perform act (a_heap x) with
                | Eff v h' evs =>
                    Some (AState h' (ghost_refs act v (a_refs x))
                            (<[t:=(o, pnext pt v)]> (a_pool x))
                            (a_log x ++ tag t evs))
                | _ => None
                end
              else None)
        by (destruct pt; try reflexivity; contradiction).
      destruct (ghost_ready act (a_refs x)); [|reflexivity].
      destruct (perform act (a_heap x)) as [v h' evs| |]; try reflexivity.
      simpl. unfold conc; simpl. rewrite fmap_insert, Hnext. reflexivity.
    + destruct (pact_none pt Hwf Hact) as [[v ->]| ->]; simpl.
      * unfold conc; simpl. rewrite fmap_delete. reflexivity.
      * reflexivity.
Qed.

Lemma astep_wf_pool i x x' :
  wf_pool x -> astep i x = Some x' -> wf_pool x'.
Proof.
  intros Hwf Hs t' o' pt' Hl. destruct i as [t o|t]; simpl in Hs.
  - destruct (a_pool x !! t) eqn:Hp; [discriminate|]. injection Hs as <-. simpl in Hl.
    destruct (decide (t = t')) as [->|Hne].
    + rewrite lookup_insert_eq in Hl. injection Hl as <- <-. exact I.
    + rewrite lookup_insert_ne in Hl by done. eauto.
  - destruct (a_pool x !! t) as [[o pt]|] eqn:Hp; [|discriminate].
    assert (Hpt := Hwf t o pt Hp).
    destruct (pact pt) as [act|] eqn:Hact.
    + assert (Hs' : (if ghost_ready act (a_refs x) then
                       match perform act (a_heap x) with
                       | Eff v h' evs =>
                           Some (AState h' (ghost_refs act v (a_refs x))
                                   (<[t:=(o, pnext pt v)]> (a_pool x))
                                   (a_log x ++ tag t evs))
                       | _ => None
                       end
                     else None) = Some x').
      { destruct pt; try exact Hs; discriminate. }
      destruct (ghost_ready act (a_refs x)); [|discriminate].
      destruct (perform act (a_heap x)) as [v h' evs| |]; try discriminate.
      injection Hs' as <-. simpl in Hl.
      destruct (decide (t = t')) as [->|Hne].
      * rewrite lookup_insert_eq in Hl. injection Hl as <- <-. apply wfpt_pnext, Hpt.
      * rewrite lookup_insert_ne in Hl by done. eauto.
    + destruct (pact_none pt Hpt Hact) as [[v ->]| ->]; simpl in Hs; [|discriminate].
      injection Hs as <-. simpl in Hl.
      destruct (decide (t = t')) as [->|Hne].
      * rewrite lookup_delete_eq in Hl. discriminate.
      * rewrite lookup_delete_ne in Hl by done. eauto.
Qed.

Lemma exec_conc sched x :
  wf_pool x -> exec sched (conc x) = conc <$> aexec sched x.
Proof.
  revert x. induction sched as [|i sched IH]; intros x Hwf; simpl; [reflexivity|].
  rewrite mstep_conc by assumption.
  destruct (astep i x) as [x'|] eqn:Hs; simpl; [|reflexivity].
  apply IH. eapply astep_wf_pool; eassumption.
Qed.

Lemma start_conc c : start active c = conc (astart active c).
Proof. unfold start, conc, astart. simpl. rewrite fmap_empty. reflexivity. Qed.

(** *** The invariant of the interleaved executions *)

Abbreviation counts := (counts active).
Abbreviation release_obs := (release_obs active).
Abbreviation expected := (expected active waitq release).
Abbreviation ainv_at := (ainv_at active waitq release).
Abbreviation ainv := (ainv active waitq release).

Lemma counts_app l1 l2 : counts (l1 ++ l2) = counts l1 ++ counts l2.
Proof.
  induction l1 as [|[t o] l1 IH]; simpl; [reflexivity|].
  destruct o as [e|]; [destruct e|]; simpl; try assumption.
  case_decide; simpl; congruence.
Qed.

Lemma release_obs_app l1 l2 :
  release_obs (l1 ++ l2) = release_obs l1 ++ release_obs l2.
Proof.
  induction l1 as [|x l1 IH]; simpl; [reflexivity|].
  destruct (is_release_obs active x); simpl; congruence.
Qed.

Lemma counts_tag_count t v : counts (tag t [EvCount active v]) = [v].
Proof. simpl. rewrite decide_True by reflexivity. reflexivity. Qed.

Lemma release_obs_tag_count t v :
  release_obs (tag t [EvCount active v])
  = if (v =? BUS1_ACTIVE_RELEASE) || (v =? BUS1_ACTIVE_DRAINED)
    then [(t, ObsEv (EvCount active v))] else [].
Proof.
  simpl. unfold is_release_obs. simpl.
  rewrite bool_decide_true by reflexivity. reflexivity.
Qed.

Lemma follows_graph_snoc c0 l c c' :
  follows_graph c0 l -> last (c0 :: l) = Some c -> forward c c' ->
  follows_graph c0 (l ++ [c']).
Proof.
  revert c0. induction l as [|d l IH]; simpl; intros c0 Hf Hl Hfw.
  - injection Hl as ->. auto.
  - destruct Hf as [Hd Hf]. split; [assumption|]. apply IH; assumption.
Qed.

Lemma last_cons_snoc (c0 : Z) l c' : last (c0 :: l ++ [c']) = Some c'.
Proof. rewrite app_comm_cons. apply last_snoc. Qed.

Lemma state_of_spec c :
  (0 <= c /\ state_of c = ACTIVE) \/
  (BUS1_ACTIVE_BIAS <= c < 0 /\ state_of c = DRAINING) \/
  (c = BUS1_ACTIVE_RELEASE_DIRECT /\ state_of c = RELEASE_DIRECT) \/
  (c = BUS1_ACTIVE_RELEASE /\ state_of c = RELEASE) \/
  (c = BUS1_ACTIVE_DRAINED /\ state_of c = DRAINED) \/
  (c = BUS1_ACTIVE_NEW /\ state_of c = NEW) \/
  (c < BUS1_ACTIVE_NEW /\ state_of c = RESERVED).
Proof.
  unfold state_of. rewrite !Z.geb_leb.
  destruct (Z.leb_spec 0 c); [left; split; [assumption|reflexivity]|].
  destruct (Z.leb_spec BUS1_ACTIVE_BIAS c); [right; left; split; [lia|reflexivity]|].
  destruct (Z.eqb_spec c BUS1_ACTIVE_RELEASE_DIRECT);
    [do 2 right; left; split; [assumption|reflexivity]|].
  destruct (Z.eqb_spec c BUS1_ACTIVE_RELEASE);
    [do 3 right; left; split; [assumption|reflexivity]|].
  destruct (Z.eqb_spec c BUS1_ACTIVE_DRAINED);
    [do 4 right; left; split; [assumption|reflexivity]|].
  destruct (Z.eqb_spec c BUS1_ACTIVE_NEW);
    [do 5 right; left; split; [assumption|reflexivity]|].
  do 6 right. split; [consts; lia|reflexivity].
Qed.

Lemma count_move_forward c c' : count_move c c' -> forward c c'.
Proof.
  intros [Hlo H]. unfold forward.
  destruct (state_of_spec c) as [[? ->]|[[? ->]|[[? ->]|[[? ->]|[[? ->]|[[? ->]|[? ->]]]]]]];
  destruct (state_of_spec c') as [[? ->]|[[? ->]|[[? ->]|[[? ->]|[[? ->]|[[? ->]|[? ->]]]]]]];
  simpl; try (exfalso; consts; lia);
  (split; [discriminate|split; [discriminate|auto]]).
Qed.

Lemma count_move_deactivated c c' :
  count_move c c' ->
  BUS1_ACTIVE_NEW < c < 0 ->
  BUS1_ACTIVE_NEW < c' < 0 /\
  (c <> BUS1_ACTIVE_RELEASE_DIRECT -> c' <> BUS1_ACTIVE_RELEASE_DIRECT).
Proof. unfold count_move. consts. lia. Qed.

Lemma local_stable pt c c' :
  (BUS1_ACTIVE_NEW < c < 0 ->
   BUS1_ACTIVE_NEW < c' < 0 /\
   (c <> BUS1_ACTIVE_RELEASE_DIRECT -> c' <> BUS1_ACTIVE_RELEASE_DIRECT)) ->
  local pt c -> local pt c'.
Proof. destruct pt; simpl; tauto. Qed.

Lemma stage_at_win g w pt : stage_at g = Some (w, pt) -> is_win OpDrain pt = true.
Proof. destruct g; simpl; intros [= <- <-]; reflexivity. Qed.

(** A thread moves from [old] to the point [pt'] of a call [o], writing
    the counter or leaving it: what is needed for the invariant to hold
    again. *)
Lemma ainv_update c0 x c g t o old pt' h' r' evs c' g' :
  ainv_at c0 x c g ->
  a_pool x !! t = old ->
  h' !! active = Some c' ->
  refs_ok c' r' ->
  (counts (tag t evs) = [] /\ c' = c) \/
  (counts (tag t evs) = [c'] /\ count_move c c') ->
  expected g' = expected g ++ release_obs (tag t evs) ->
  stage_count g' c' ->
  wfpt pt' -> owner o pt' -> local pt' c' ->
  (is_win o pt' = false /\
   (forall o0 pt0, old = Some (o0, pt0) -> is_win o0 pt0 = false) /\ g' = g) \/
  (o = OpDrain /\ stage_at g' = Some (t, pt') /\
   (stage_at g = None \/ exists pt0, stage_at g = Some (t, pt0))) ->
  ainv c0 (AState h' r' (<[t:=(o, pt')]> (a_pool x)) (a_log x ++ tag t evs)).
Proof.
  intros (Hc & Hr & Hlast & Hfg & Hro & Hsc & Hsp & Hth)
    Hold Hc' Hr' Hcnt Hexp Hsc' Hwf' Hown' Hloc' Hstage.
  assert (Hstab : forall pt1, local pt1 c -> local pt1 c').
  { intros pt1. destruct Hcnt as [[_ ->]|[_ Hm]]; [auto|].
    apply local_stable. apply count_move_deactivated, Hm. }
  exists c', g'. unfold Active.ainv_at; simpl.
  split; [assumption|]. split; [assumption|].
  rewrite counts_app, release_obs_app.
  split; [|split; [|split; [|split; [assumption|split]]]].
  - destruct Hcnt as [[-> ->]|[-> Hm]].
    + rewrite app_nil_r. assumption.
    + apply last_cons_snoc.
  - destruct Hcnt as [[-> ->]|[-> Hm]].
    + rewrite app_nil_r. assumption.
    + eapply follows_graph_snoc; eauto using count_move_forward.
  - rewrite Hro, Hexp. reflexivity.
  - intros w ptw Hw. destruct Hstage as [(Hn' & Hn & ->)|(-> & Hg' & _)].
    + destruct (decide (t = w)) as [->|Hne].
      * specialize (Hsp _ _ Hw). rewrite Hold in Hsp.
        apply stage_at_win in Hw. specialize (Hn _ _ Hsp). congruence.
      * rewrite lookup_insert_ne by done. auto.
    + rewrite Hg' in Hw. injection Hw as <- <-. apply lookup_insert_eq.
  - intros t1 o1 pt1 Hl. destruct (decide (t = t1)) as [->|Hne].
    + rewrite lookup_insert_eq in Hl. injection Hl as <- <-.
      split; [assumption|]. split; [assumption|]. split; [assumption|].
      intros Hw. destruct Hstage as [(Hn' & _)|(_ & Hg' & _)]; [congruence|assumption].
    + rewrite lookup_insert_ne in Hl by done.
      destruct (Hth _ _ _ Hl) as (H1 & H2 & H3 & H4).
      split; [assumption|]. split; [assumption|]. split; [auto|].
      intros Hw. specialize (H4 Hw).
      destruct Hstage as [(_ & _ & ->)|(_ & _ & [Hg|[pt0 Hg]])]; [assumption|congruence|congruence].
Qed.

(** A thread returns. *)
Lemma ainv_retire c0 x c g t o v :
  ainv_at c0 x c g ->
  a_pool x !! t = Some (o, PRet v) ->
  ainv c0 (AState (a_heap x) (a_refs x) (delete t (a_pool x))
                  (a_log x ++ [(t, ObsRet o v)])).
Proof.
  intros (Hc & Hr & Hlast & Hfg & Hro & Hsc & Hsp & Hth) Hp.
  destruct (Hth _ _ _ Hp) as (_ & Hown & _ & Hwin).
  assert (Hcounts : counts (a_log x ++ [(t, ObsRet o v)]) = counts (a_log x)).
  { rewrite counts_app. simpl. apply app_nil_r. }
  assert (Hothers : forall t1 o1 pt1,
             delete t (a_pool x) !! t1 = Some (o1, pt1) ->
             t <> t1 /\ a_pool x !! t1 = Some (o1, pt1)).
  { intros t1 o1 pt1 Hl. destruct (decide (t = t1)) as [->|Hne].
    - rewrite lookup_delete_eq in Hl. discriminate.
    - rewrite lookup_delete_ne in Hl by done. auto. }
  destruct (is_win o (PRet v)) eqn:Hw.
  - (* the thread that released the object returns true *)
    specialize (Hwin eq_refl).
    simpl in Hw. apply andb_true_iff in Hw as [Ho Hv].
    apply bool_decide_eq_true in Ho. subst o.
    destruct g; simpl in Hwin; try discriminate. injection Hwin as -> <-.
    exists c, (SDone t). unfold Active.ainv_at; simpl.
    rewrite Hcounts, release_obs_app, Hro. simpl.
    split_and!; try assumption.
    + unfold release_sequence. destruct release; reflexivity.
    + intros w pt [=].
    + intros t1 o1 pt1 Hl. apply Hothers in Hl as [Hne Hl].
      destruct (Hth _ _ _ Hl) as (H1 & H2 & H3 & H4).
      split_and!; try assumption.
      intros Hw'. specialize (H4 Hw'). simpl in H4. congruence.
  - exists c, g. unfold Active.ainv_at; simpl.
    rewrite Hcounts, release_obs_app, Hro. simpl.
    assert (Hobs : is_release_obs active (t, ObsRet o v) = false).
    { unfold is_release_obs; simpl. simpl in Hw.
      destruct o; try reflexivity. exact Hw. }
    rewrite Hobs, app_nil_r.
    split_and!; try assumption; try reflexivity.
    + intros w pt Hg. destruct (decide (t = w)) as [->|Hne].
      * specialize (Hsp _ _ Hg). rewrite Hp in Hsp. injection Hsp as -> <-.
        apply stage_at_win in Hg. congruence.
      * rewrite lookup_delete_ne by done. auto.
    + intros t1 o1 pt1 Hl. apply Hothers in Hl as [Hne Hl]. eauto.
Qed.

(** What a step of thread [t] is: a return, or one action. *)
Lemma astep_step t x x' :
  astep (Step t) x = Some x' ->
  (exists o v, a_pool x !! t = Some (o, PRet v) /\
     x' = AState (a_heap x) (a_refs x) (delete t (a_pool x))
                 (a_log x ++ [(t, ObsRet o v)])) \/
  (exists o pt act v h' evs,
     a_pool x !! t = Some (o, pt) /\ pact pt = Some act /\
     ghost_ready act (a_refs x) = true /\
     perform act (a_heap x) = Eff v h' evs /\
     x' = AState h' (ghost_refs act v (a_refs x))
                 (<[t:=(o, pnext pt v)]> (a_pool x)) (a_log x ++ tag t evs)).
Proof.
  simpl. destruct (a_pool x !! t) as [[o pt]|] eqn:Hp; [|discriminate].
  intros Hs. destruct (pact pt) as [act|] eqn:Hact.
  - right.
    assert (Hs' : (if ghost_ready act (a_refs x) then
                     match perform act (a_heap x) with
                     | Eff v h' evs =>
                         Some (AState h' (ghost_refs act v (a_refs x))
                                 (<[t:=(o, pnext pt v)]> (a_pool x))
                                 (a_log x ++ tag t evs))
                     | _ => None
                     end
                   else None) = Some x').
    { destruct pt; try exact Hs; discriminate. }
    destruct (ghost_ready act (a_refs x)) eqn:Hg; [|discriminate].
    destruct (perform act (a_heap x)) as [v h' evs| |] eqn:Hperf; try discriminate.
    injection Hs' as <-. exists o, pt, act, v, h', evs. auto.
  - left. destruct pt; try discriminate.
    injection Hs as <-. eauto.
Qed.

Lemma refs_ok_range c r : refs_ok c r -> BUS1_ACTIVE_NEW <= c < - BUS1_ACTIVE_BIAS.
Proof. intros H. apply H. Qed.

Lemma stage_count_none g c :
  stage_count g c -> c <> BUS1_ACTIVE_RELEASE -> c <> BUS1_ACTIVE_DRAINED -> g = SNone.
Proof. destruct g; simpl; intros; congruence. Qed.

Lemma wfpt_loop_point n v : wfpt (loop_point n v).
Proof. unfold loop_point. destruct (Z.geb_spec v 0); simpl; [lia|exact I]. Qed.

Lemma owner_loop_point n v : owner OpDeactivate (loop_point n v).
Proof. unfold loop_point. destruct (v >=? 0); simpl; [reflexivity|discriminate]. Qed.

Lemma local_loop_point n v c : local (loop_point n v) c.
Proof. unfold loop_point. destruct (v >=? 0); exact I. Qed.

Lemma is_win_loop_point n v : is_win OpDeactivate (loop_point n v) = false.
Proof. unfold loop_point. destruct (v >=? 0); reflexivity. Qed.

Lemma release_obs_count_other t v :
  v <> BUS1_ACTIVE_RELEASE -> v <> BUS1_ACTIVE_DRAINED ->
  release_obs (tag t [EvCount active v]) = [].
Proof.
  intros H1 H2. rewrite release_obs_tag_count.
  destruct (Z.eqb_spec v BUS1_ACTIVE_RELEASE); [contradiction|].
  destruct (Z.eqb_spec v BUS1_ACTIVE_DRAINED); [contradiction|]. reflexivity.
Qed.

(** The goals about the program point a step leads to. *)
Ltac pt_goal :=
  first [ apply wfpt_loop_point | apply owner_loop_point
        | apply local_loop_point | apply is_win_loop_point
        | assumption
        | simpl;
          first [ exact I | reflexivity | discriminate | (intros; discriminate)
                | assumption | (consts; lia) | tauto | (intros; auto; fail) ] ].

Ltac not_winner :=
  left; split;
  [ pt_goal | split; [intros ? ? [= <- <-]; reflexivity | reflexivity] ].

(** A step of the thread that releases the object, from [g] to [g']. *)
Ltac wins Hinv Hp g c' g' :=
  eapply (ainv_update _ _ _ g _ _ _ _ _ _ _ c' g' Hinv Hp);
  [ first [ apply lookup_insert_eq | assumption ]
  | unfold refs_ok in *; simpl; consts; lia
  | first [ left; split; reflexivity
          | right; split; [apply counts_tag_count
                          | unfold count_move, refs_ok in *; consts; lia] ]
  | rewrite ?release_obs_tag_count;
    unfold Active.expected, Active.cb_obs;
    match goal with H : release = _ |- _ => rewrite ?H end; reflexivity
  | reflexivity
  | first [ exact I
          | simpl; match goal with H : release = _ |- _ => rewrite H end; discriminate ]
  | simpl; auto | exact I
  | right; split; [reflexivity|split; [reflexivity|]];
    first [ left; reflexivity | right; eexists; reflexivity ] ].

(** A step that leaves the counter and the release alone. *)
Ltac quiet Hinv Hp Hc Hr Hsc :=
  eapply (ainv_update _ _ _ _ _ _ _ _ _ _ _ _ _ Hinv Hp);
  [ exact Hc | exact Hr | left; split; reflexivity
  | simpl; rewrite ?app_nil_r; reflexivity | exact Hsc
  | pt_goal | pt_goal | pt_goal | not_winner ].

(** A step that writes [c'], before the release has begun. *)
Ltac writes Hinv Hp c' :=
  eapply (ainv_update _ _ _ SNone _ _ _ _ _ _ _ c' SNone Hinv Hp);
  [ apply lookup_insert_eq
  | unfold refs_ok in *; simpl; consts; lia
  | right; split; [apply counts_tag_count | unfold count_move, refs_ok in *; consts; lia]
  | rewrite release_obs_count_other by (consts; lia); reflexivity
  | simpl; consts; lia
  | pt_goal | pt_goal | pt_goal | not_winner ].

(** One step keeps the invariant, unless it is an acquire that takes the
    counter to the negated bias. *)
Lemma ainv_step c0 i x x' :
  ainv c0 x -> astep i x = Some x' ->
  (forall c, a_heap x !! active = Some c -> 0 <= c ->
             In (c + 1) (counts (a_log x')) -> c + 1 < - BUS1_ACTIVE_BIAS) ->
  ainv c0 x'.
Proof.
  intros (c & g & Hinv) Hs Hb. destruct i as [t o|t].
  - (* a thread enters a call *)
    simpl in Hs. destruct (a_pool x !! t) eqn:Hp; [discriminate|]. injection Hs as <-.
    replace (a_log x) with (a_log x ++ tag t []) by apply app_nil_r.
    pose proof Hinv as (Hc & Hr & _ & _ & _ & Hsc & _).
    eapply (ainv_update c0 x c g t o None (PBody o) _ _ [] c g Hinv Hp);
      [ exact Hc | exact Hr | left; split; reflexivity
      | simpl; rewrite app_nil_r; reflexivity | exact Hsc
      | exact I | reflexivity | exact I | ].
    left. split; [reflexivity|]. split; [intros; discriminate|reflexivity].
  - destruct (astep_step _ _ _ Hs)
      as [(o & v & Hp & ->)|(o & pt & act & v & h' & evs & Hp & Hact & Hg & Hperf & ->)].
    + eapply ainv_retire; eassumption.
    + pose proof Hinv as (Hc & Hr & _ & _ & _ & Hsc & Hsp & Hth).
      destruct (Hth _ _ _ Hp) as (Hwf & Hown & Hloc & Hwin).
      pose proof (refs_ok_range _ _ Hr) as Hrange.
      assert (Hrel : exists r, release = r) by eauto.
      destruct Hrel as [r Hrel].
      simpl in Hb.
      destruct pt as [[]| | | | |n v0| | | | | | | | ]; simpl in Hact, Hown, Hloc, Hwf;
        try discriminate; try subst o; try (injection Hact as <-);
        unfold perform in Hperf; try rewrite Hc in Hperf.
      * (* activate *)
        destruct (Z.eqb_spec c BUS1_ACTIVE_NEW) as [->|Hne]; injection Hperf as <- <- <-.
        -- assert (g = SNone) as -> by (eapply stage_count_none; [eassumption|consts; lia..]).
           writes Hinv Hp 0.
        -- quiet Hinv Hp Hc Hr Hsc.
      * (* acquire *)
        destruct (Z.geb_spec c 0) as [Hge|Hlt]; injection Hperf as <- <- <-.
        -- assert (g = SNone) as -> by (eapply stage_count_none; [eassumption|consts; lia..]).
           rewrite wrap_int_id in * by (consts; lia).
           assert (c + 1 < - BUS1_ACTIVE_BIAS).
           { apply (Hb c Hc Hge). rewrite counts_app, counts_tag_count.
             apply in_or_app. right. left. reflexivity. }
           writes Hinv Hp (c + 1).
        -- quiet Hinv Hp Hc Hr Hsc.
      * (* release *)
        cbv zeta in Hperf. injection Hperf as <- <- <-.
        simpl in Hg. apply Z.ltb_lt in Hg.
        assert (c <> BUS1_ACTIVE_RELEASE /\ c <> BUS1_ACTIVE_DRAINED) as [? ?]
          by (unfold refs_ok in Hr; consts; lia).
        assert (g = SNone) as -> by (eapply stage_count_none; eassumption).
        rewrite wrap_int_id in * by (consts; lia).
        assert (wfpt (pnext (PBody OpRelease) (c - 1)) /\
                owner OpRelease (pnext (PBody OpRelease) (c - 1)) /\
                local (pnext (PBody OpRelease) (c - 1)) (c - 1) /\
                is_win OpRelease (pnext (PBody OpRelease) (c - 1)) = false)
          as (? & ? & ? & ?).
        { simpl. destruct (c - 1 =? BUS1_ACTIVE_BIAS); simpl; split_and!;
            first [exact I | reflexivity | discriminate]. }
        eapply (ainv_update _ _ _ SNone _ _ _ _ _ _ _ (c - 1) SNone Hinv Hp);
          [ apply lookup_insert_eq
          | unfold refs_ok in *; simpl; consts; lia
          | right; split; [apply counts_tag_count
                          | unfold count_move, refs_ok in *; consts; lia]
          | rewrite release_obs_count_other by (unfold refs_ok in *; consts; lia); reflexivity
          | unfold refs_ok in *; simpl; consts; lia
          | assumption | assumption | assumption
          | left; split; [assumption|split; [intros ? ? [= <- <-]; reflexivity|reflexivity]] ].

      * (* deactivate: the compare-and-swap from NEW *)
        destruct (Z.eqb_spec c BUS1_ACTIVE_NEW) as [->|Hne]; injection Hperf as <- <- <-.
        -- assert (g = SNone) as -> by (eapply stage_count_none; [eassumption|consts; lia..]).
           writes Hinv Hp BUS1_ACTIVE_RELEASE_DIRECT.
        -- replace (pnext (PBody OpDeactivate) c) with PDeactRead
             by (simpl; rewrite (proj2 (Z.eqb_neq _ _) Hne); reflexivity).
           quiet Hinv Hp Hc Hr Hsc.
      * (* drain: the check *)
        injection Hperf as <- <- <-.
        destruct ((c >? BUS1_ACTIVE_NEW) && (c <? 0)) eqn:E.
        -- replace (pnext (PBody OpDrain) c) with PDrainWait1 by (simpl; rewrite E; reflexivity).
           apply andb_true_iff in E as [E1 E2].
           apply Z.gtb_lt in E1. apply Z.ltb_lt in E2.
           quiet Hinv Hp Hc Hr Hsc.
        -- replace (pnext (PBody OpDrain) c) with PDrainWarn by (simpl; rewrite E; reflexivity).
           quiet Hinv Hp Hc Hr Hsc.
      * (* release: the wake-up *)
        injection Hperf as <- <- <-. quiet Hinv Hp Hc Hr Hsc.
      * (* deactivate: the read of the loop *)
        injection Hperf as <- <- <-. quiet Hinv Hp Hc Hr Hsc.
      * (* deactivate: the compare-and-swap of the loop *)
        destruct (Z.eqb_spec c v0) as [<-|Hne]; injection Hperf as <- <- <-.
        -- assert (g = SNone) as -> by (eapply stage_count_none; [eassumption|consts; lia..]).
           rewrite wrap_int_id in * by (consts; lia).
           replace (pnext (PDeactLoop n c) c) with (PRet 0)
             by (simpl; rewrite Z.eqb_refl; reflexivity).
           writes Hinv Hp (c + BUS1_ACTIVE_BIAS).
        -- replace (pnext (PDeactLoop n v0) c)
             with (match n with O => PSpin | S n' => loop_point n' c end)
             by (simpl; rewrite (proj2 (Z.eqb_neq _ _) Hne); reflexivity).
           destruct n; quiet Hinv Hp Hc Hr Hsc.
      * (* drain: the warning *)
        injection Hperf as <- <- <-. quiet Hinv Hp Hc Hr Hsc.
      * (* drain: the first wait *)
        destruct (c <=? BUS1_ACTIVE_BIAS); [|discriminate].
        injection Hperf as <- <- <-. quiet Hinv Hp Hc Hr Hsc.
      * (* drain: the compare-and-swap from RELEASE_DIRECT *)
        destruct (Z.eqb_spec c BUS1_ACTIVE_RELEASE_DIRECT) as [->|Hne];
          injection Hperf as <- <- <-.
        -- assert (g = SNone) as -> by (eapply stage_count_none; [eassumption|consts; lia..]).
           destruct r as [f|].
           ++ replace (pnext PDrainCas1 BUS1_ACTIVE_RELEASE_DIRECT) with PDrainCall
                by (simpl; unfold drain_win; rewrite Hrel; reflexivity).
              wins Hinv Hp SNone BUS1_ACTIVE_RELEASE (SCall t).
           ++ replace (pnext PDrainCas1 BUS1_ACTIVE_RELEASE_DIRECT) with PDrainSet
                by (simpl; unfold drain_win; rewrite Hrel; reflexivity).
              wins Hinv Hp SNone BUS1_ACTIVE_RELEASE (SSet t).
        -- replace (pnext PDrainCas1 c) with PDrainCas2
             by (simpl; rewrite (proj2 (Z.eqb_neq _ _) Hne); reflexivity).
           quiet Hinv Hp Hc Hr Hsc.
      * (* drain: the compare-and-swap from the bias *)
        destruct Hloc as [Hloc Hrd].
        destruct (Z.eqb_spec c BUS1_ACTIVE_BIAS) as [->|Hne];
          injection Hperf as <- <- <-.
        -- assert (g = SNone) as -> by (eapply stage_count_none; [eassumption|consts; lia..]).
           destruct r as [f|].
           ++ replace (pnext PDrainCas2 BUS1_ACTIVE_BIAS) with PDrainCall
                by (simpl; unfold drain_win; rewrite Hrel; reflexivity).
              wins Hinv Hp SNone BUS1_ACTIVE_RELEASE (SCall t).
           ++ replace (pnext PDrainCas2 BUS1_ACTIVE_BIAS) with PDrainSet
                by (simpl; unfold drain_win; rewrite Hrel; reflexivity).
              wins Hinv Hp SNone BUS1_ACTIVE_RELEASE (SSet t).
        -- replace (pnext PDrainCas2 c) with PDrainWait2
             by (simpl; rewrite (proj2 (Z.eqb_neq _ _) Hne),
                   (proj2 (Z.eqb_neq _ _) Hrd); reflexivity).
           quiet Hinv Hp Hc Hr Hsc.
      * (* drain: the callback *)
        destruct r as [f|]; [|contradiction].
        rewrite Hrel in Hact. injection Hact as <-. injection Hperf as <- <- <-.
        specialize (Hwin eq_refl).
        destruct g; simpl in Hwin; try discriminate. injection Hwin as ->.
        simpl in Hsc. subst c.
        wins Hinv Hp (SCall t) BUS1_ACTIVE_RELEASE (SSet t).
      * (* drain: the store of DRAINED *)
        injection Hperf as <- <- <-.
        specialize (Hwin eq_refl).
        destruct g; simpl in Hwin; try discriminate. injection Hwin as ->.
        simpl in Hsc. subst c.
        destruct r as [f|];
          wins Hinv Hp (SSet t) BUS1_ACTIVE_DRAINED (SWake t).
      * (* drain: the wake-up of all waiters *)
        injection Hperf as <- <- <-.
        specialize (Hwin eq_refl).
        destruct g; simpl in Hwin; try discriminate. injection Hwin as ->.
        simpl in Hsc. subst c.
        destruct r as [f|];
          wins Hinv Hp (SWake t) BUS1_ACTIVE_DRAINED (SRet t).
      * (* drain: the second wait *)
        destruct (c =? BUS1_ACTIVE_DRAINED); [|discriminate].
        injection Hperf as <- <- <-. quiet Hinv Hp Hc Hr Hsc.
Qed.

(** *** Executions *)

Lemma astep_log i x x' : astep i x = Some x' -> exists l, a_log x' = a_log x ++ l.
Proof.
  destruct i as [t o|t].
  - simpl. destruct (a_pool x !! t); [discriminate|]. intros [= <-].
    exists []. simpl. symmetry. apply app_nil_r.
  - intros Hs. destruct (astep_step _ _ _ Hs)
      as [(o & v & _ & ->)|(o & pt & act & v & h' & evs & _ & _ & _ & _ & ->)];
      simpl; eauto.
Qed.

Lemma aexec_app l1 l2 x : aexec (l1 ++ l2) x = aexec l1 x ≫= aexec l2.
Proof.
  revert x. induction l1 as [|i l1 IH]; intros x; simpl; [reflexivity|].
  destruct (astep i x); simpl; [apply IH|reflexivity].
Qed.

Lemma ainv_step_or c0 i x x' :
  ainv c0 x -> astep i x = Some x' ->
  ainv c0 x' \/ Exists (fun c => - BUS1_ACTIVE_BIAS <= c) (counts (a_log x')).
Proof.
  intros Hinv Hs.
  destruct (decide (Exists (fun c => - BUS1_ACTIVE_BIAS <= c) (counts (a_log x'))))
    as [He|Hne]; [right; assumption|left].
  eapply ainv_step; [eassumption..|].
  intros c Hc Hge Hin.
  destruct (decide (c + 1 < - BUS1_ACTIVE_BIAS)) as [|Hn]; [assumption|].
  exfalso. apply Hne. apply Exists_exists. exists (c + 1).
  split; [apply list_elem_of_In; assumption|lia].
Qed.

Lemma aexec_inv_or c0 sched x x' :
  ainv c0 x -> aexec sched x = Some x' ->
  ainv c0 x' \/ Exists (fun c => - BUS1_ACTIVE_BIAS <= c) (counts (a_log x')).
Proof.
  intros Hinv. revert x'. induction sched as [|i sched IH] using rev_ind; intros x' He.
  - injection He as <-. left. assumption.
  - rewrite aexec_app in He. destruct (aexec sched x) as [xm|]; [|discriminate].
    simpl in He. destruct (astep i xm) as [x1|] eqn:Hs; [|discriminate].
    injection He as <-.
    destruct (IH xm eq_refl) as [Hm|Hov].
    + eapply ainv_step_or; eassumption.
    + right. destruct (astep_log _ _ _ Hs) as [l ->].
      rewrite counts_app. apply Exists_app. left. assumption.
Qed.

Lemma ainv_start c0 :
  c0 = BUS1_ACTIVE_NEW \/ c0 = BUS1_ACTIVE_RELEASE_DIRECT \/ c0 = BUS1_ACTIVE_BIAS ->
  ainv c0 (astart active c0).
Proof.
  intros H0. exists c0, SNone. unfold Active.ainv_at, astart; simpl.
  split_and!; try reflexivity; try exact I; try (consts; lia).
  - apply lookup_singleton_eq.
  - unfold refs_ok. consts. lia.
  - intros w pt [=].
  - intros t o pt Hl. rewrite lookup_empty in Hl. discriminate.
Qed.

(** *** The graph has no way back *)

Lemma forward_rank c c' :
  forward c c' -> (rank (state_of c) <= rank (state_of c'))%nat.
Proof.
  intros (_ & _ & [->|He]); [lia|].
  destruct (state_of c), (state_of c'); simpl in *; try discriminate; lia.
Qed.

Lemma follows_graph_rank c0 l i j ci cj :
  follows_graph c0 l -> (i <= j)%nat ->
  (c0 :: l) !! i = Some ci -> (c0 :: l) !! j = Some cj ->
  (rank (state_of ci) <= rank (state_of cj))%nat.
Proof.
  revert c0 i j ci cj. induction l as [|d l IH]; intros c0 i j ci cj Hf Hij Hi Hj.
  - destruct i as [|i]; [|destruct i; discriminate].
    destruct j as [|j]; [|destruct j; discriminate].
    simpl in *. replace cj with ci by congruence. lia.
  - destruct Hf as [Hd Hf]. destruct j as [|j].
    + assert (i = 0)%nat as -> by lia. simpl in *. replace cj with ci by congruence. lia.
    + destruct i as [|i].
      * simpl in Hi. injection Hi as <-.
        pose proof (forward_rank _ _ Hd).
        pose proof (IH d 0%nat j d cj Hf ltac:(lia) eq_refl Hj). lia.
      * apply (IH d i j ci cj Hf); [lia|assumption..].
Qed.

Lemma rank_inj s s' : rank s = rank s' -> s = s'.
Proof. destruct s, s'; simpl; intros; congruence. Qed.

Lemma follows_graph_no_revisit c0 l : follows_graph c0 l -> no_revisit (c0 :: l).
Proof.
  intros Hf i j k ci cj ck [Hij Hjk] Hi Hj Hk Heq.
  pose proof (follows_graph_rank c0 l i j ci cj Hf ltac:(lia) Hi Hj).
  pose proof (follows_graph_rank c0 l j k cj ck Hf ltac:(lia) Hj Hk).
  apply rank_inj. rewrite Heq in *. lia.
Qed.

Lemma follows_graph_not_reserved c0 l c :
  follows_graph c0 l -> In c l -> state_of c <> RESERVED.
Proof.
  revert c0. induction l as [|d l IH]; intros c0 Hf Hin; [destruct Hin|].
  destruct Hf as [Hd Hf]. destruct Hin as [->|Hin].
  - apply Hd.
  - eapply IH; eassumption.
Qed.

Lemma follows_graph_deactivated c0 l c :
  follows_graph c0 l -> BUS1_ACTIVE_NEW < c0 < 0 ->
  last (c0 :: l) = Some c -> BUS1_ACTIVE_NEW < c < 0.
Proof.
  revert c0. induction l as [|d l IH]; intros c0 Hf H0 Hl.
  - simpl in Hl. congruence.
  - destruct Hf as [Hd Hf]. apply (IH d Hf); [|exact Hl].
    destruct Hd as (Hr & Hr' & Hs).
    destruct (state_of_spec c0) as [[? E]|[[? E]|[[? E]|[[? E]|[[? E]|[[? E]|[? E]]]]]]];
    destruct (state_of_spec d) as [[? E']|[[? E']|[[? E']|[[? E']|[[? E']|[[? E']|[? E']]]]]]];
    rewrite E, E' in *; simpl in Hs; try congruence;
    try (consts; lia); destruct Hs; discriminate.
Qed.

(** *** C2 on the interleaved executions, and who releases the object *)

Lemma exec_astart sched c0 s :
  exec sched (start active c0) = Some s ->
  exists x, aexec sched (astart active c0) = Some x /\ s = conc x.
Proof.
  rewrite start_conc, exec_conc.
  - destruct (aexec sched (astart active c0)) as [x|]; simpl; [|discriminate].
    intros [= <-]. eauto.
  - intros t o pt Hl. simpl in Hl. rewrite lookup_empty in Hl. discriminate.
Qed.

(** C2, as the code has it.  In every interleaving of activate, acquire,
    release, deactivate and drain calls on an object that starts NEW (the
    decrement of a release runs only while a reference is outstanding), as
    long as the counter stays below 2^31 - 5, every write of the counter
    stays in its lifecycle state or moves along an edge of
    NEW -> (ACTIVE -> DRAINING -> RELEASE) or (RELEASE_DIRECT) -> RELEASE
    -> DRAINED, and no state is entered again after it was left. *)
Theorem lifecycle_moves_forward (sched : list sched_item) (s : mstate) :
  exec sched (start active BUS1_ACTIVE_NEW) = Some s ->
  Forall (fun c => c < - BUS1_ACTIVE_BIAS) (counts (log s)) ->
  follows_graph BUS1_ACTIVE_NEW (counts (log s)) /\
  no_revisit (BUS1_ACTIVE_NEW :: counts (log s)).
Proof.
  intros He Hsmall. destruct (exec_astart _ _ _ He) as (x & Hx & ->). simpl in *.
  assert (Hf : follows_graph BUS1_ACTIVE_NEW (counts (a_log x))).
  { destruct (aexec_inv_or BUS1_ACTIVE_NEW sched _ x (ainv_start _ (or_introl eq_refl)) Hx)
      as [(c & g & Hinv)|Hov].
    - apply Hinv.
    - exfalso. apply Exists_exists in Hov as (c & Hin & Hc).
      rewrite Forall_forall in Hsmall. specialize (Hsmall c Hin). lia. }
  split; [assumption|]. apply follows_graph_no_revisit. assumption.
Qed.

Lemma expected_prefix g :
  exists w n, expected g = take n (release_sequence active waitq release w).
Proof.
  destruct g as [|w|w|w|w|w].
  - exists 0%nat, 0%nat. reflexivity.
  - exists w, 1%nat. reflexivity.
  - exists w. unfold Active.expected, release_sequence, cb_obs.
    destruct release; [exists 2%nat|exists 1%nat]; reflexivity.
  - exists w. unfold Active.expected, release_sequence, cb_obs.
    destruct release; [exists 3%nat|exists 2%nat]; reflexivity.
  - exists w. unfold Active.expected, release_sequence, cb_obs.
    destruct release; [exists 4%nat|exists 3%nat]; reflexivity.
  - exists w. unfold Active.expected, release_sequence.
    destruct release; [exists 5%nat|exists 4%nat]; reflexivity.
Qed.

Lemma aexec_inv_deactivated c0 sched x :
  c0 = BUS1_ACTIVE_RELEASE_DIRECT \/ c0 = BUS1_ACTIVE_BIAS ->
  aexec sched (astart active c0) = Some x -> ainv c0 x.
Proof.
  intros H0. revert x. induction sched as [|i sched IH] using rev_ind; intros x He.
  - injection He as <-. apply ainv_start. tauto.
  - rewrite aexec_app in He.
    destruct (aexec sched (astart active c0)) as [xm|]; [|discriminate].
    simpl in He. destruct (astep i xm) as [x1|] eqn:Hs; [|discriminate].
    injection He as <-. specialize (IH xm eq_refl).
    eapply ainv_step; [eassumption..|].
    intros c Hc Hge _. exfalso.
    destruct IH as (c' & g & Hc' & _ & Hlast & Hfg & _).
    rewrite Hc in Hc'. injection Hc' as <-.
    assert (BUS1_ACTIVE_NEW < c < 0); [|lia].
    eapply follows_graph_deactivated; [eassumption| |eassumption].
    consts. lia.
Qed.

Lemma release_obs_intro x l :
  In x l -> is_release_obs active x = true -> In x (release_obs l).
Proof.
  induction l as [|y l IH]; simpl; [tauto|].
  intros [->|Hin] Hx.
  - rewrite Hx. left. reflexivity.
  - destruct (is_release_obs active y); [right|]; auto.
Qed.

Lemma release_obs_elim x l : In x (release_obs l) -> In x l.
Proof.
  induction l as [|y l IH]; simpl; [tauto|].
  destruct (is_release_obs active y); simpl; tauto.
Qed.

Lemma release_sequence_thread x w :
  In x (release_sequence active waitq release w) -> x.1 = w.
Proof.
  unfold release_sequence. destruct release; simpl; intros H;
    repeat (destruct H as [<-|H]; [reflexivity|]); destruct H.
Qed.

(** When the release observations are a prefix of what thread [w] does,
    each of them is by the thread that wrote RELEASE. *)
Lemma release_obs_by_winner l w n x :
  release_obs l = take n (release_sequence active waitq release w) ->
  In x l -> is_release_obs active x = true ->
  In (x.1, ObsEv (EvCount active BUS1_ACTIVE_RELEASE)) l.
Proof.
  intros Hl Hin Hx. apply release_obs_elim.
  pose proof (release_obs_intro x l Hin Hx) as Hin'.
  rewrite Hl in Hin' |- *.
  assert (x.1 = w) as ->.
  { apply release_sequence_thread. apply list_elem_of_In.
    eapply (subseteq_take n). apply list_elem_of_In. exact Hin'. }
  destruct n as [|n]; [destruct Hin'|]. left. reflexivity.
Qed.

(** *** Acquiring many references *)

(** One acquire call of thread [t], from entry to return, on a counter
    that is not negative. *)
Lemma aexec_acquire_call t x c :
  a_pool x !! t = None -> a_heap x !! active = Some c -> 0 <= c ->
  exists x',
    aexec [Call t OpAcquire; Step t; Step t] x = Some x' /\
    a_pool x' !! t = None /\
    a_heap x' !! active = Some (wrap_int (c + 1)) /\
    a_refs x' = a_refs x + 1 /\
    a_log x' = a_log x ++ [(t, ObsEv (EvCount active (wrap_int (c + 1))));
                           (t, ObsRet OpAcquire 1)].
Proof.
  intros Hp Hc Hge.
  assert (Hge' : (c >=? 0) = true) by lia.
  eexists. split.
  - cbn [aexec Active.astep]. rewrite Hp. cbn [a_pool a_heap a_refs a_log].
    rewrite lookup_insert_eq. cbn [Active.pact ghost_ready perform].
    rewrite Hc, Hge'. cbv zeta. cbn [a_pool a_heap a_refs a_log].
    rewrite lookup_insert_eq. cbn [Active.pnext]. cbn [Z.eqb]. reflexivity.
  - cbn [a_pool a_heap a_refs a_log]. split_and!.
    + apply lookup_delete_eq.
    + apply lookup_insert_eq.
    + reflexivity.
    + cbn [tag map]. rewrite <- app_assoc. reflexivity.
Qed.

Lemma aexec_acquire_calls t n :
  forall x c,
    a_pool x !! t = None -> a_heap x !! active = Some c -> 0 <= c ->
    c + Z.of_nat n <= INT_MAX ->
    exists x',
      aexec (acquire_calls t n) x = Some x' /\
      a_pool x' !! t = None /\
      a_heap x' !! active = Some (c + Z.of_nat n) /\
      a_refs x' = a_refs x + Z.of_nat n.
Proof.
  induction n as [|n IH]; intros x c Hp Hc Hge Hle.
  - exists x. rewrite !Z.add_0_r. auto.
  - destruct (aexec_acquire_call t x c Hp Hc Hge) as (x1 & He1 & Hp1 & Hc1 & Hr1 & _).
    rewrite wrap_int_id in Hc1 by (consts; lia).
    destruct (IH x1 (c + 1) Hp1 Hc1) as (x' & He & Hp' & Hc' & Hr'); [lia..|].
    exists x'. split_and!; [|assumption| |].
    + change (acquire_calls t (S n))
        with ([Call t OpAcquire; Step t; Step t] ++ acquire_calls t n).
      rewrite aexec_app, He1. exact He.
    + rewrite Hc'. f_equal. lia.
    + rewrite Hr', Hr1. lia.
Qed.

Lemma aexec_activate_call t c0 :
  c0 = BUS1_ACTIVE_NEW ->
  exists x',
    aexec [Call t OpActivate; Step t; Step t] (astart active c0) = Some x' /\
    a_pool x' !! t = None /\ a_heap x' !! active = Some 0 /\ a_refs x' = 0.
Proof.
  intros ->. eexists. split.
  - cbn [aexec Active.astep astart a_pool a_heap a_refs a_log].
    rewrite lookup_empty. cbn [a_pool a_heap a_refs a_log].
    rewrite lookup_insert_eq. cbn [Active.pact ghost_ready perform].
    rewrite lookup_singleton_eq, Z.eqb_refl. cbn [a_pool a_heap a_refs a_log].
    rewrite lookup_insert_eq. cbn [Active.pnext]. rewrite Z.eqb_refl. reflexivity.
  - cbn [a_pool a_heap a_refs]. split_and!;
      [apply lookup_delete_eq|apply lookup_insert_eq|reflexivity].
Qed.

(** One deactivate call of thread [t], from entry to return, on a counter
    that is not negative. *)
Lemma aexec_deactivate_call t x c :
  a_pool x !! t = None -> a_heap x !! active = Some c -> 0 <= c ->
  exists x',
    aexec [Call t OpDeactivate; Step t; Step t; Step t; Step t] x = Some x' /\
    a_pool x' !! t = None /\
    a_heap x' !! active = Some (wrap_int (c + BUS1_ACTIVE_BIAS)) /\
    a_refs x' = a_refs x /\
    a_log x' = a_log x
               ++ [(t, ObsEv (EvCount active (wrap_int (c + BUS1_ACTIVE_BIAS))));
                   (t, ObsRet OpDeactivate 0)].
Proof.
  intros Hp Hc Hge.
  assert (Hge' : (c >=? 0) = true) by lia.
  assert (Hnew : (c =? BUS1_ACTIVE_NEW) = false) by (consts; lia).
  eexists. split.
  - cbn [aexec Active.astep]. rewrite Hp. cbn [a_pool a_heap a_refs a_log].
    rewrite lookup_insert_eq. cbn [Active.pact ghost_ready perform].
    rewrite Hc, Hnew. cbn [a_pool a_heap a_refs a_log].
    rewrite lookup_insert_eq. cbn [Active.pnext]. rewrite Hnew.
    cbn [Active.pact ghost_ready perform]. rewrite Hc.
    cbn [a_pool a_heap a_refs a_log].
    rewrite lookup_insert_eq. cbn [Active.pnext]. unfold loop_point. rewrite Hge'.
    cbn [Active.pact ghost_ready perform]. rewrite Hc, Z.eqb_refl.
    cbn [a_pool a_heap a_refs a_log].
    rewrite lookup_insert_eq. cbn [Active.pnext]. rewrite Z.eqb_refl. reflexivity.
  - cbn [a_pool a_heap a_refs a_log ghost_refs]. split_and!.
    + apply lookup_delete_eq.
    + apply lookup_insert_eq.
    + reflexivity.
    + cbn [tag map]. rewrite !app_nil_r, <- app_assoc. reflexivity.
Qed.

(** One release call of thread [t], from entry to return, while a
    reference is outstanding and the new value is not the bias. *)
Lemma aexec_release_call t x c :
  a_pool x !! t = None -> a_heap x !! active = Some c -> 0 < a_refs x ->
  wrap_int (c - 1) <> BUS1_ACTIVE_BIAS ->
  exists x',
    aexec [Call t OpRelease; Step t; Step t] x = Some x' /\
    a_log x' = a_log x ++ [(t, ObsEv (EvCount active (wrap_int (c - 1))));
                           (t, ObsRet OpRelease 0)].
Proof.
  intros Hp Hc Hr Hne.
  assert (Hr' : (0 <? a_refs x) = true) by lia.
  apply Z.eqb_neq in Hne.
  eexists. split.
  - cbn [aexec Active.astep]. rewrite Hp. cbn [a_pool a_heap a_refs a_log].
    rewrite lookup_insert_eq. cbn [Active.pact ghost_ready perform].
    rewrite Hr', Hc. cbv zeta. cbn [a_pool a_heap a_refs a_log].
    rewrite lookup_insert_eq. cbn [Active.pnext]. rewrite Hne. reflexivity.
  - cbn [a_log tag map]. rewrite <- app_assoc. reflexivity.
Qed.

Lemma follows_graph_inside c0 l1 c c' l2 :
  follows_graph c0 (l1 ++ c :: c' :: l2) -> forward c c'.
Proof.
  revert c0. induction l1 as [|d l1 IH]; intros c0 Hf.
  - apply Hf.
  - destruct Hf as [_ Hf]. eapply IH, Hf.
Qed.

(** Thread [t] activates the NEW object and acquires 2^31 - 5 references
    (the negated bias) one after the other.  A deactivate then leaves the
    counter at 0, a second deactivate at the bias, and the release of one
    of the references takes it from there to RELEASE_DIRECT. *)
Lemma exec_acquire_overflow t :
  exists s l,
    exec ([Call t OpActivate; Step t; Step t]
          ++ acquire_calls t (Z.to_nat (- BUS1_ACTIVE_BIAS))
          ++ [Call t OpDeactivate; Step t; Step t; Step t; Step t]
          ++ [Call t OpDeactivate; Step t; Step t; Step t; Step t]
          ++ [Call t OpRelease; Step t; Step t])
         (start active BUS1_ACTIVE_NEW) = Some s /\
    counts (log s) = l ++ [BUS1_ACTIVE_BIAS; BUS1_ACTIVE_RELEASE_DIRECT].
Proof.
  destruct (aexec_activate_call t BUS1_ACTIVE_NEW eq_refl) as (x1 & He1 & Hp1 & Hc1 & Hr1).
  assert (HN : Z.of_nat (Z.to_nat (- BUS1_ACTIVE_BIAS)) = - BUS1_ACTIVE_BIAS)
    by (apply Z2Nat.id; discriminate).
  destruct (aexec_acquire_calls t (Z.to_nat (- BUS1_ACTIVE_BIAS)) x1 0 Hp1 Hc1)
    as (x2 & He2 & Hp2 & Hc2 & Hr2); [lia|rewrite HN; consts; lia|].
  rewrite HN in Hc2, Hr2. rewrite Hr1 in Hr2.
  destruct (aexec_deactivate_call t x2 _ Hp2 Hc2) as (x3 & He3 & Hp3 & Hc3 & Hr3 & Hl3);
    [discriminate|].
  change (wrap_int (0 + - BUS1_ACTIVE_BIAS + BUS1_ACTIVE_BIAS)) with 0 in *.
  destruct (aexec_deactivate_call t x3 _ Hp3 Hc3) as (x4 & He4 & Hp4 & Hc4 & Hr4 & Hl4);
    [discriminate|].
  change (wrap_int (0 + BUS1_ACTIVE_BIAS)) with BUS1_ACTIVE_BIAS in *.
  destruct (aexec_release_call t x4 _ Hp4 Hc4) as (x5 & He5 & Hl5).
  { rewrite Hr4, Hr3, Hr2. reflexivity. }
  { discriminate. }
  change (wrap_int (BUS1_ACTIVE_BIAS - 1)) with BUS1_ACTIVE_RELEASE_DIRECT in *.
  exists (conc x5), (counts (a_log x2) ++ [0]). split.
  - rewrite start_conc, exec_conc.
    + rewrite aexec_app, He1. cbn [mbind option_bind].
      rewrite aexec_app, He2. cbn [mbind option_bind].
      rewrite aexec_app, He3. cbn [mbind option_bind].
      rewrite aexec_app, He4. cbn [mbind option_bind]. rewrite He5. reflexivity.
    + intros t' o pt Hl. simpl in Hl. rewrite lookup_empty in Hl. discriminate.
  - cbn [conc log]. rewrite Hl5, Hl4, Hl3, !counts_app.
    cbn [Active.counts]. rewrite !decide_True by reflexivity.
    rewrite <- !app_assoc. reflexivity.
Qed.

(** *** Further properties of the interleaved executions *)

Lemma aexec_log sched x x' :
  aexec sched x = Some x' -> exists l, a_log x' = a_log x ++ l.
Proof.
  revert x. induction sched as [|i sched IH]; intros x He; simpl in He.
  - injection He as <-. exists []. symmetry. apply app_nil_r.
  - destruct (astep i x) as [xm|] eqn:Hs; [|discriminate].
    destruct (astep_log _ _ _ Hs) as [l1 Hl1]. destruct (IH _ He) as [l2 Hl2].
    exists (l1 ++ l2). rewrite Hl2, Hl1, app_assoc. reflexivity.
Qed.

Lemma ainv_wf_pool c0 x : ainv c0 x -> wf_pool x.
Proof.
  intros (c & g & Hinv) t o pt Hl.
  destruct Hinv as (_ & _ & _ & _ & _ & _ & _ & Hp). apply (Hp t o pt Hl).
Qed.

Lemma Forall_below_prefix (l1 l2 : list Z) :
  Forall (fun c => c < - BUS1_ACTIVE_BIAS) (l1 ++ l2) ->
  ~ Exists (fun c => - BUS1_ACTIVE_BIAS <= c) l1.
Proof.
  intros Hf He. apply Forall_app in Hf as [Hf _].
  apply Exists_exists in He as (c & Hin & Hc).
  rewrite Forall_forall in Hf. specialize (Hf c Hin). lia.
Qed.

(** The executions in which the counter stays below 2^31 - 5 keep the
    invariant. *)
Lemma aexec_inv_below c0 sched x x' :
  ainv c0 x -> aexec sched x = Some x' ->
  Forall (fun c => c < - BUS1_ACTIVE_BIAS) (counts (a_log x')) ->
  ainv c0 x'.
Proof.
  intros Hinv He Hb. destruct (aexec_inv_or c0 sched x x' Hinv He) as [H|Hov]; [exact H|].
  exfalso. apply (Forall_below_prefix (counts (a_log x')) []); [|exact Hov].
  rewrite app_nil_r. exact Hb.
Qed.

Lemma follows_graph_app c0 l1 l2 c1 :
  follows_graph c0 (l1 ++ l2) -> last (c0 :: l1) = Some c1 ->
  follows_graph c1 l2 /\ last (c0 :: l1 ++ l2) = last (c1 :: l2).
Proof.
  revert c0. induction l1 as [|d l1 IH]; intros c0 Hf Hl.
  - simpl in Hl. injection Hl as ->. split; [exact Hf|reflexivity].
  - destruct Hf as [_ Hf]. apply (IH d Hf). exact Hl.
Qed.

(** A property that each step keeps, given the invariant, holds along the
    executions in which the counter stays below 2^31 - 5. *)
Lemma aexec_lift (P : astate -> Prop) c0 sched x x' :
  (forall i y y', ainv c0 y -> P y -> astep i y = Some y' -> P y') ->
  ainv c0 x -> P x -> aexec sched x = Some x' ->
  Forall (fun c => c < - BUS1_ACTIVE_BIAS) (counts (a_log x')) ->
  P x'.
Proof.
  intros Hstep Hinv HP. revert x'.
  induction sched as [|i sched IH] using rev_ind; intros x' He Hb.
  - injection He as <-. exact HP.
  - rewrite aexec_app in He. destruct (aexec sched x) as [xm|] eqn:Hm; [|discriminate].
    simpl in He. destruct (astep i xm) as [x1|] eqn:Hs; [|discriminate].
    injection He as <-. destruct (astep_log _ _ _ Hs) as [l Hl].
    assert (Hbm : Forall (fun c => c < - BUS1_ACTIVE_BIAS) (counts (a_log xm))).
    { rewrite Hl, counts_app in Hb. apply Forall_app in Hb. tauto. }
    eapply (Hstep i xm); [|apply IH; [reflexivity|exact Hbm]|exact Hs].
    eapply aexec_inv_below; eassumption.
Qed.

(** The state a prefix of a schedule leads to, and the state the whole
    schedule leads to. *)
Lemma exec_two_states c0 sched1 sched2 s1 s2 :
  c0 = BUS1_ACTIVE_NEW \/ c0 = BUS1_ACTIVE_RELEASE_DIRECT \/ c0 = BUS1_ACTIVE_BIAS ->
  exec sched1 (start active c0) = Some s1 ->
  exec sched2 s1 = Some s2 ->
  Forall (fun c => c < - BUS1_ACTIVE_BIAS) (counts (log s2)) ->
  exists x1 x2 l,
    s1 = conc x1 /\ s2 = conc x2 /\ ainv c0 x1 /\ ainv c0 x2 /\
    aexec sched2 x1 = Some x2 /\ a_log x2 = a_log x1 ++ l.
Proof.
  intros H0 He1 He2 Hb.
  destruct (exec_astart _ _ _ He1) as (x1 & Hx1 & ->).
  pose proof (aexec_inv_or c0 sched1 _ x1 (ainv_start c0 H0) Hx1) as Hinv1.
  assert (Hwf : wf_pool x1).
  { intros t o pt Hl.
    assert (Hw : wf_pool (astart active c0)).
    { intros t' o' pt' Hl'. simpl in Hl'. rewrite lookup_empty in Hl'. discriminate. }
    clear - Hx1 Hw Hl. revert Hw Hx1 t o pt Hl. generalize (astart active c0).
    induction sched1 as [|i sched1 IH]; intros x Hw Hx t o pt Hl; simpl in Hx.
    - injection Hx as <-. apply (Hw t o pt Hl).
    - destruct (astep i x) as [xm|] eqn:Hs; [|discriminate].
      apply (IH xm (astep_wf_pool _ _ _ Hw Hs) Hx t o pt Hl). }
  rewrite exec_conc in He2 by exact Hwf.
  destruct (aexec sched2 x1) as [x2|] eqn:Hx2; [|discriminate].
  simpl in He2. injection He2 as <-. simpl in Hb.
  destruct (aexec_log _ _ _ Hx2) as [l Hl].
  assert (Hi1 : ainv c0 x1).
  { destruct Hinv1 as [H|Hov]; [exact H|]. exfalso.
    rewrite Hl, counts_app in Hb. eapply Forall_below_prefix; eassumption. }
  exists x1, x2, l. split_and!; try reflexivity; try assumption.
  eapply aexec_inv_below; eassumption.
Qed.

(** X20.  The counter counts the references, in every interleaving of the
    calls of any number of threads on an object that starts NEW (the
    counter staying below 2^31 - 5): while the object is active the counter
    is the number of references acquired and not yet released, after
    deactivation it is the bias plus that number, and from RELEASE_DIRECT
    on, as in state NEW, no reference is outstanding. *)
Theorem counter_counts_references (sched : list sched_item) (s : mstate) :
  exec sched (start active BUS1_ACTIVE_NEW) = Some s ->
  Forall (fun c => c < - BUS1_ACTIVE_BIAS) (counts (log s)) ->
  exists c : Z,
    heap s !! active = Some c /\
    0 <= refs s /\
    (0 <= c -> c = refs s) /\
    (BUS1_ACTIVE_BIAS <= c < 0 -> c = BUS1_ACTIVE_BIAS + refs s) /\
    (c < BUS1_ACTIVE_BIAS -> refs s = 0).
Proof.
  intros He Hb. destruct (exec_astart _ _ _ He) as (x & Hx & ->). simpl in *.
  destruct (aexec_inv_below _ _ _ _ (ainv_start _ (or_introl eq_refl)) Hx Hb)
    as (c & g & Hc & Hr & _).
  exists c. split; [exact Hc|]. unfold refs_ok in Hr. consts. lia.
Qed.

(** X21.  Deactivation is final, in every interleaving (the counter staying
    below 2^31 - 5): once is_deactivated answers true it answers true in
    every later state of the execution, whatever the other threads do, and
    acquire fails there. *)
Theorem deactivated_stays_deactivated
    (sched1 sched2 : list sched_item) (s1 s2 : mstate) :
  exec sched1 (start active BUS1_ACTIVE_NEW) = Some s1 ->
  exec sched2 s1 = Some s2 ->
  Forall (fun c => c < - BUS1_ACTIVE_BIAS) (counts (log s2)) ->
  run (bus1_active_is_deactivated (Some active)) (heap s1) = Done true (heap s1) [] ->
  run (bus1_active_is_deactivated (Some active)) (heap s2) = Done true (heap s2) [] /\
  run (bus1_active_acquire (Some active)) (heap s2) = Done NULL (heap s2) [].
Proof.
  intros He1 He2 Hb Hd.
  destruct (exec_two_states _ _ _ _ _ (or_introl eq_refl) He1 He2 Hb)
    as (x1 & x2 & l & -> & -> & Hi1 & Hi2 & _ & Hl).
  simpl in *.
  destruct Hi1 as (c1 & g1 & Hc1 & _ & Hlast1 & _).
  destruct Hi2 as (c2 & g2 & Hc2 & _ & Hlast2 & Hfg2 & _).
  rewrite (run_is_deactivated _ _ _ Hc1) in Hd. injection Hd as Hd.
  apply andb_true_iff in Hd as [Hd1 Hd2].
  rewrite Z.gtb_ltb in Hd1. apply Z.ltb_lt in Hd1. apply Z.ltb_lt in Hd2.
  rewrite Hl, counts_app in Hfg2, Hlast2.
  destruct (follows_graph_app _ _ _ _ Hfg2 Hlast1) as [Hf Hlast].
  rewrite Hlast in Hlast2.
  pose proof (follows_graph_deactivated c1 _ c2 Hf (conj Hd1 Hd2) Hlast2) as [Hlo Hhi].
  rewrite (run_is_deactivated _ _ _ Hc2), (run_acquire _ _ _ Hc2), Z.gtb_ltb, Z.geb_leb.
  destruct (Z.ltb_spec BUS1_ACTIVE_NEW c2); [|lia].
  destruct (Z.ltb_spec c2 0); [|lia].
  destruct (Z.leb_spec 0 c2); [lia|]. split; reflexivity.
Qed.

(** *** A drain returns when the object is drained *)

Lemma drained_before_mono t l l' :
  drained_before active t l -> drained_before active t (l ++ l').
Proof.
  intros [H|H]; [left|right].
  - apply in_or_app. left. exact H.
  - rewrite counts_app. apply in_or_app. left. exact H.
Qed.

Lemma last_in (c0 c : Z) (l : list Z) : last (c0 :: l) = Some c -> c <> c0 -> In c l.
Proof.
  revert c0. induction l as [|d l IH]; intros c0 Hl Hne.
  - simpl in Hl. congruence.
  - change (last (c0 :: d :: l)) with (last (d :: l)) in Hl.
    destruct (decide (c = d)) as [->|Hd]; [left; reflexivity|].
    right. apply (IH d Hl Hd).
Qed.

Lemma tag_not_ret t evs j t' o v : tag t evs !! j = Some (t', ObsRet o v) -> False.
Proof.
  unfold tag. rewrite <- list_fmap_alt || idtac. revert j.
  induction evs as [|e evs IH]; intros j Hl; [destruct j; discriminate|].
  destruct j as [|j]; [discriminate|]. apply (IH j Hl).
Qed.

Lemma drain_win_not_ret v : drain_win release <> PRet v.
Proof. unfold drain_win. destruct release; discriminate. Qed.

Lemma drain_inv_step c0 i x x' :
  c0 <> BUS1_ACTIVE_DRAINED ->
  ainv c0 x -> drain_inv active x -> astep i x = Some x' -> drain_inv active x'.
Proof.
  intros H0 (c & g & Hinv) [J1 J2] Hs.
  destruct Hinv as (Hc & _ & Hlast & _ & _ & Hsc & _ & Hpool).
  destruct i as [t o|t].
  - simpl in Hs. destruct (a_pool x !! t) eqn:Hp; [discriminate|]. injection Hs as <-.
    split; simpl; [|exact J2].
    intros t' v Hl. destruct (decide (t = t')) as [->|Hne].
    + rewrite lookup_insert_eq in Hl. discriminate.
    + rewrite lookup_insert_ne in Hl by assumption. apply (J1 _ _ Hl).
  - destruct (astep_step _ _ _ Hs)
      as [(o & v & Hp & ->)|(o & pt & act & v & h' & evs & Hp & Hact & Hg & Hperf & ->)];
      split; simpl.
    + intros t' v' Hl. apply lookup_delete_Some in Hl as [_ Hl].
      apply drained_before_mono, (J1 _ _ Hl).
    + intros i t' v' Hl. apply lookup_app_Some in Hl as [Hl|[Hlen Hl]].
      * rewrite take_app_le by (apply lookup_lt_Some in Hl; lia). apply (J2 _ _ _ Hl).
      * destruct (i - length (a_log x))%nat as [|k] eqn:Hk; [|destruct k; discriminate].
        simpl in Hl. injection Hl as <- -> <-.
        replace i with (length (a_log x)) by lia.
        rewrite take_app_length. apply (J1 _ _ Hp).
    + intros t' v' Hl. destruct (decide (t = t')) as [<-|Hne].
      * rewrite lookup_insert_eq in Hl. injection Hl as -> Hnext.
        destruct (Hpool _ _ _ Hp) as (_ & Hown & _ & Hwin).
        assert (Hd : In BUS1_ACTIVE_DRAINED (counts (a_log x)) ->
                     drained_before active t (a_log x ++ tag t evs)).
        { intros Hin. apply drained_before_mono. right. exact Hin. }
        destruct pt; simpl in Hown; try discriminate; simpl in Hnext.
        -- subst o. simpl in Hnext.
           destruct ((v >? BUS1_ACTIVE_NEW) && (v <? 0)); discriminate.
        -- injection Hact as <-. simpl in Hperf. injection Hperf as <- <- <-.
           left. apply in_or_app. right. left. reflexivity.
        -- destruct (v =? BUS1_ACTIVE_RELEASE_DIRECT);
             [exfalso; eapply drain_win_not_ret; eassumption|discriminate].
        -- destruct ((v =? BUS1_ACTIVE_BIAS) || (v =? BUS1_ACTIVE_RELEASE_DIRECT));
             [exfalso; eapply drain_win_not_ret; eassumption|discriminate].
        -- apply Hd. specialize (Hwin eq_refl).
           destruct g; try discriminate. simpl in Hsc. subst c.
           apply (last_in c0 _ _ Hlast). congruence.
        -- apply Hd. injection Hact as <-. simpl in Hperf. rewrite Hc in Hperf.
           destruct (Z.eqb_spec c BUS1_ACTIVE_DRAINED) as [->|]; [|discriminate].
           apply (last_in c0 _ _ Hlast). congruence.
      * rewrite lookup_insert_ne in Hl by assumption.
        apply drained_before_mono, (J1 _ _ Hl).
    + intros i t' v' Hl. apply lookup_app_Some in Hl as [Hl|[Hlen Hl]].
      * rewrite take_app_le by (apply lookup_lt_Some in Hl; lia). apply (J2 _ _ _ Hl).
      * exfalso. eapply tag_not_ret. exact Hl.
Qed.

(** X22.  A drain returns only when the object is drained: in every
    interleaving (the counter staying below 2^31 - 5), on an object that
    starts NEW, or deactivated with no reference left, each drain call that
    has returned, with true or with false, did so after the counter was set
    to DRAINED, unless it is a call that fired the WARN_ON because the
    object was not deactivated. *)
Theorem drain_returns_when_drained
    (c0 : Z) (sched : list sched_item) (s : mstate) (i t : nat) (v : Z) :
  c0 = BUS1_ACTIVE_NEW \/ c0 = BUS1_ACTIVE_RELEASE_DIRECT \/ c0 = BUS1_ACTIVE_BIAS ->
  exec sched (start active c0) = Some s ->
  Forall (fun c => c < - BUS1_ACTIVE_BIAS) (counts (log s)) ->
  log s !! i = Some (t, ObsRet OpDrain v) ->
  In (t, ObsEv EvWarn) (take i (log s)) \/
  In BUS1_ACTIVE_DRAINED (counts (take i (log s))).
Proof.
  intros H0 He Hb Hl. destruct (exec_astart _ _ _ He) as (x & Hx & ->). simpl in *.
  assert (Hne : c0 <> BUS1_ACTIVE_DRAINED) by (consts; lia).
  assert (HJ0 : drain_inv active (astart active c0)).
  { split; simpl.
    - intros t' v' Hp. rewrite lookup_empty in Hp. discriminate.
    - intros i' t' v' Hp. destruct i'; discriminate. }
  destruct (aexec_lift (drain_inv active) c0 sched _ x
              (fun i y y' => drain_inv_step c0 i y y' Hne) (ainv_start c0 H0) HJ0 Hx Hb)
    as [_ J2].
  apply (J2 i t v Hl).
Qed.

(** *** At most one activate succeeds *)

Lemma written_not_new c0 l c :
  follows_graph c0 l -> last (c0 :: l) = Some c -> In 0 l -> c <> BUS1_ACTIVE_NEW.
Proof.
  intros Hf Hl Hin Hc. subst c.
  apply list_elem_of_In, list_elem_of_lookup_1 in Hin as [i Hi].
  rewrite last_lookup in Hl. simpl in Hl.
  pose proof (lookup_lt_Some _ _ _ Hi) as Hlt.
  pose proof (follows_graph_rank c0 l (S i) (length l) 0 BUS1_ACTIVE_NEW Hf
                ltac:(lia) Hi Hl) as Hr.
  vm_compute in Hr. lia.
Qed.

Lemma activated_app_tag l t evs i :
  activated (l ++ tag t evs) i -> activated l i.
Proof.
  intros (t' & v & Hl & Hv). apply lookup_app_Some in Hl as [Hl|[_ Hl]].
  - exists t', v. auto.
  - exfalso. eapply tag_not_ret. exact Hl.
Qed.

Lemma activated_app l l' i : activated l i -> activated (l ++ l') i.
Proof.
  intros (t & v & Hl & Hv). exists t, v. split; [|exact Hv].
  apply lookup_app_l_Some. exact Hl.
Qed.

Lemma activate_inv_step c0 i x x' :
  ainv c0 x -> activate_inv active x -> astep i x = Some x' -> activate_inv active x'.
Proof.
  intros (c & g & Hinv) (K1 & K2 & K3 & K4) Hs.
  destruct Hinv as (Hc & _ & Hlast & Hfg & _ & _ & _ & Hpool).
  destruct i as [t o|t].
  - (* a thread enters a call *)
    simpl in Hs. destruct (a_pool x !! t) eqn:Hp; [discriminate|]. injection Hs as <-.
    assert (Hold : forall t', activating (AState (a_heap x) (a_refs x)
                     (<[t:=(o, PBody o)]> (a_pool x)) (a_log x)) t' -> activating x t').
    { intros t' (v & Hl & Hv). simpl in Hl. destruct (decide (t = t')) as [->|Hne].
      - rewrite lookup_insert_eq in Hl. discriminate.
      - rewrite lookup_insert_ne in Hl by assumption. exists v. auto. }
    split_and!; simpl.
    + intros t1 t2 H1 H2. apply K1; apply Hold; assumption.
    + intros t1 j H1 H2. apply (K2 t1 j); [apply Hold|]; assumption.
    + exact K3.
    + intros [[t1 H1]|H2]; apply K4; [left; exists t1; apply Hold; exact H1|right; exact H2].
  - destruct (astep_step _ _ _ Hs)
      as [(o & v & Hp & ->)|(o & pt & act & v & h' & evs & Hp & Hact & Hg & Hperf & ->)].
    + (* a thread returns *)
      assert (Hold : forall t', activating (AState (a_heap x) (a_refs x)
                       (delete t (a_pool x)) (a_log x ++ [(t, ObsRet o v)])) t' ->
                     activating x t' /\ t' <> t).
      { intros t' (v' & Hl & Hv). simpl in Hl. apply lookup_delete_Some in Hl as [Hne Hl].
        split; [exists v'; auto|congruence]. }
      assert (Hlog : forall j, activated (a_log x ++ [(t, ObsRet o v)]) j ->
                     activated (a_log x) j \/ (j = length (a_log x) /\ activating x t)).
      { intros j (t' & v' & Hl & Hv). apply lookup_app_Some in Hl as [Hl|[Hlen Hl]].
        - left. exists t', v'. auto.
        - right. destruct (j - length (a_log x))%nat as [|k] eqn:Hk; [|destruct k; discriminate].
          simpl in Hl. injection Hl as <- -> <-. split; [lia|]. exists v. auto. }
      split_and!; simpl.
      * intros t1 t2 H1 H2. apply K1; [apply (Hold _ H1)|apply (Hold _ H2)].
      * intros t1 j H1 H2. destruct (Hold _ H1) as [H1' Hne].
        destruct (Hlog _ H2) as [H2'|[_ Ht]]; [apply (K2 _ _ H1' H2')|].
        apply Hne. apply K1; assumption.
      * intros j1 j2 H1 H2.
        destruct (Hlog _ H1) as [H1'|[-> Ht1]], (Hlog _ H2) as [H2'|[-> Ht2]].
        -- apply K3; assumption.
        -- exfalso. apply (K2 _ _ Ht2 H1').
        -- exfalso. apply (K2 _ _ Ht1 H2').
        -- reflexivity.
      * intros Hex. rewrite counts_app. apply in_or_app. left. apply K4.
        destruct Hex as [[t1 H1]|[j H2]].
        -- left. exists t1. apply (Hold _ H1).
        -- destruct (Hlog _ H2) as [H2'|[_ Ht]]; [right; eauto|left; eauto].
    + (* a thread performs an action *)
      assert (Hnone : c = BUS1_ACTIVE_NEW ->
                (forall t', ~ activating x t') /\ (forall j, ~ activated (a_log x) j)).
      { intros ->. split.
        - intros t' Ht. eapply written_not_new; [exact Hfg|exact Hlast| |reflexivity].
          apply K4. left. eauto.
        - intros j Hj. eapply written_not_new; [exact Hfg|exact Hlast| |reflexivity].
          apply K4. right. eauto. }
      assert (Hold : forall t', activating (AState h' (ghost_refs act v (a_refs x))
                       (<[t:=(o, pnext pt v)]> (a_pool x)) (a_log x ++ tag t evs)) t' ->
                     (t' <> t /\ activating x t') \/
                     (t' = t /\ c = BUS1_ACTIVE_NEW /\ In 0 (counts (tag t evs)))).
      { intros t' (v' & Hl & Hv). simpl in Hl. destruct (decide (t = t')) as [<-|Hne].
        - right. rewrite lookup_insert_eq in Hl. injection Hl as -> Hnext.
          destruct (Hpool _ _ _ Hp) as (_ & Hown & _).
          destruct pt as [o1|v1| | | |n1 v1| | | | | | | | ]; simpl in Hown; try discriminate.
          subst o1. simpl in Hnext. injection Hnext as <-.
          injection Hact as <-. simpl in Hperf. rewrite Hc in Hperf.
          destruct (Z.eqb_spec c BUS1_ACTIVE_NEW) as [->|Hcn].
          + injection Hperf as <- <- <-. split; [reflexivity|]. split; [reflexivity|].
            simpl. rewrite decide_True by reflexivity. left. reflexivity.
          + injection Hperf as <- <- <-.
            destruct (Z.eqb_spec c BUS1_ACTIVE_NEW); [contradiction|]. simpl in Hv. lia.
        - left. rewrite lookup_insert_ne in Hl by assumption. split; [congruence|].
          exists v'. auto. }
      split_and!; simpl.
      * intros t1 t2 H1 H2.
        destruct (Hold _ H1) as [[_ H1']|(-> & Hn1 & _)],
                 (Hold _ H2) as [[_ H2']|(-> & Hn2 & _)].
        -- apply K1; assumption.
        -- exfalso. apply (proj1 (Hnone Hn2) _ H1').
        -- exfalso. apply (proj1 (Hnone Hn1) _ H2').
        -- reflexivity.
      * intros t1 j H1 H2. apply activated_app_tag in H2.
        destruct (Hold _ H1) as [[_ H1']|(-> & Hn1 & _)].
        -- apply (K2 _ _ H1' H2).
        -- apply (proj2 (Hnone Hn1) _ H2).
      * intros j1 j2 H1 H2. apply activated_app_tag in H1, H2. apply K3; assumption.
      * intros Hex. rewrite counts_app. apply in_or_app.
        destruct Hex as [[t1 H1]|[j H2]].
        -- destruct (Hold _ H1) as [[_ H1']|(_ & _ & Hin)]; [left|right; exact Hin].
           apply K4. left. eauto.
        -- apply activated_app_tag in H2. left. apply K4. right. eauto.
Qed.

(** X23.  The object is activated at most once: in every interleaving of
    calls on an object that starts NEW (the counter staying below
    2^31 - 5), whatever the number of threads that call activate, at most
    one of these calls returns true: of any two activate calls that have
    returned, one returned false. *)
Theorem activate_succeeds_once
    (sched : list sched_item) (s : mstate) (i j t t' : nat) (v v' : Z) :
  exec sched (start active BUS1_ACTIVE_NEW) = Some s ->
  Forall (fun c => c < - BUS1_ACTIVE_BIAS) (counts (log s)) ->
  log s !! i = Some (t, ObsRet OpActivate v) ->
  log s !! j = Some (t', ObsRet OpActivate v') ->
  i <> j ->
  v = 0 \/ v' = 0.
Proof.
  intros He Hb Hi Hj Hij. destruct (exec_astart _ _ _ He) as (x & Hx & ->). simpl in *.
  assert (HK0 : activate_inv active (astart active BUS1_ACTIVE_NEW)).
  { split_and!.
    - intros t1 t2 (? & Hp & _). simpl in Hp. rewrite lookup_empty in Hp. discriminate.
    - intros t1 k (? & Hp & _). simpl in Hp. rewrite lookup_empty in Hp. discriminate.
    - intros k1 k2 (? & ? & Hp & _). destruct k1; discriminate.
    - intros [[t1 (? & Hp & _)]|[k (? & ? & Hp & _)]].
      + simpl in Hp. rewrite lookup_empty in Hp. discriminate.
      + destruct k; discriminate. }
  destruct (aexec_lift (activate_inv active) _ sched _ x
              (activate_inv_step BUS1_ACTIVE_NEW) (ainv_start _ (or_introl eq_refl)) HK0 Hx Hb)
    as (_ & _ & K3 & _).
  destruct (decide (v = 0)) as [|Hv]; [left; assumption|].
  destruct (decide (v' = 0)) as [|Hv']; [right; assumption|].
  exfalso. apply Hij. apply K3; [exists t, v|exists t', v']; auto.
Qed.

(** *** No reference before the activation *)

Lemma in_counts_app l l' : In 0 (counts l) -> In 0 (counts (l ++ l')).
Proof. intros H. rewrite counts_app. apply in_or_app. left. exact H. Qed.

Lemma acquire_inv_step c0 i x x' :
  ainv c0 x -> acquire_inv active x -> astep i x = Some x' -> acquire_inv active x'.
Proof.
  intros (c & g & Hinv) (A1 & A2 & A3) Hs.
  destruct Hinv as (Hc & Hrefs & _ & _ & _ & _ & _ & Hpool).
  destruct i as [t o|t].
  - simpl in Hs. destruct (a_pool x !! t) eqn:Hp; [discriminate|]. injection Hs as <-.
    split_and!; simpl; [exact A1| |exact A3].
    intros t' v Hl Hv. destruct (decide (t = t')) as [->|Hne].
    + rewrite lookup_insert_eq in Hl. discriminate.
    + rewrite lookup_insert_ne in Hl by assumption. apply (A2 _ _ Hl Hv).
  - destruct (astep_step _ _ _ Hs)
      as [(o & v & Hp & ->)|(o & pt & act & v & h' & evs & Hp & Hact & Hg & Hperf & ->)];
      split_and!; simpl.
    + intros c1 Hc1 H1. apply in_counts_app, (A1 _ Hc1 H1).
    + intros t' v' Hl Hv. apply lookup_delete_Some in Hl as [_ Hl].
      apply in_counts_app, (A2 _ _ Hl Hv).
    + intros i t' v' Hl Hv. apply lookup_app_Some in Hl as [Hl|[Hlen Hl]].
      * rewrite take_app_le by (apply lookup_lt_Some in Hl; lia). apply (A3 _ _ _ Hl Hv).
      * destruct (i - length (a_log x))%nat as [|k] eqn:Hk; [|destruct k; discriminate].
        simpl in Hl. injection Hl as <- -> <-.
        replace i with (length (a_log x)) by lia.
        rewrite take_app_length. apply (A2 _ _ Hp Hv).
    + (* the counter after the action *)
      intros c1 Hc1 H1.
      destruct (decide (0 <= c)) as [Hge|Hlt]; [apply in_counts_app, (A1 _ Hc Hge)|].
      destruct (Hpool _ _ _ Hp) as (Hwf & _).
      pose proof (refs_ok_range _ _ Hrefs) as Hrange.
      rewrite counts_app. apply in_or_app. right.
      destruct pt as [o1|v1| | | |n1 v1| | | | | | | | ]; try destruct o1;
        simpl in Hact; try discriminate;
        try (destruct release; simpl in Hact; try discriminate);
        injection Hact as <-; simpl in Hperf; rewrite ?Hc in Hperf;
        repeat match type of Hperf with
               | context [?a =? ?b] => destruct (Z.eqb_spec a b)
               | context [?a >=? ?b] => rewrite (Z.geb_leb a b) in Hperf;
                                        destruct (Z.leb_spec b a)
               | context [?a <=? ?b] => destruct (Z.leb_spec a b)
               end;
        try discriminate; injection Hperf as <- <- <-;
        rewrite ?lookup_insert_eq in Hc1; rewrite ?Hc in Hc1; injection Hc1 as <-;
        simpl; rewrite ?decide_True by reflexivity;
        try (left; reflexivity); try (exfalso; consts; simpl in *; lia).
      all: exfalso; pose proof (wrap_int_id (c - 1)); consts; lia.
    + intros t' v' Hl Hv. destruct (decide (t = t')) as [<-|Hne].
      * rewrite lookup_insert_eq in Hl. injection Hl as -> Hnext.
        destruct (Hpool _ _ _ Hp) as (_ & Hown & _).
        destruct pt as [o1|v1| | | |n1 v1| | | | | | | | ]; simpl in Hown; try discriminate.
        subst o1. simpl in Hnext. injection Hnext as <-.
        injection Hact as <-. simpl in Hperf. rewrite Hc in Hperf.
        rewrite Z.geb_leb in Hperf. destruct (Z.leb_spec 0 c) as [Hge|Hlt].
        -- apply in_counts_app, (A1 _ Hc Hge).
        -- injection Hperf as <- <- <-. simpl in Hv. contradiction.
      * rewrite lookup_insert_ne in Hl by assumption.
        apply in_counts_app, (A2 _ _ Hl Hv).
    + intros i t' v' Hl Hv. apply lookup_app_Some in Hl as [Hl|[Hlen Hl]].
      * rewrite take_app_le by (apply lookup_lt_Some in Hl; lia). apply (A3 _ _ _ Hl Hv).
      * exfalso. eapply tag_not_ret. exact Hl.
Qed.

(** X24.  No reference is acquired on an object that was not activated: in
    every interleaving of calls on an object that starts NEW (the counter
    staying below 2^31 - 5), each acquire that returns the object does so
    after the counter was set to 0, which from state NEW only a successful
    activate does. *)
Theorem acquire_needs_activation
    (sched : list sched_item) (s : mstate) (i t : nat) (v : Z) :
  exec sched (start active BUS1_ACTIVE_NEW) = Some s ->
  Forall (fun c => c < - BUS1_ACTIVE_BIAS) (counts (log s)) ->
  log s !! i = Some (t, ObsRet OpAcquire v) -> v <> 0 ->
  In 0 (counts (take i (log s))).
Proof.
  intros He Hb Hl Hv. destruct (exec_astart _ _ _ He) as (x & Hx & ->). simpl in *.
  assert (HA0 : acquire_inv active (astart active BUS1_ACTIVE_NEW)).
  { split_and!; simpl.
    - intros c Hc Hge. rewrite lookup_singleton_eq in Hc. injection Hc as <-.
      exfalso. consts. lia.
    - intros t' v' Hp. rewrite lookup_empty in Hp. discriminate.
    - intros i' t' v' Hp. destruct i'; discriminate. }
  destruct (aexec_lift (acquire_inv active) _ sched _ x
              (acquire_inv_step BUS1_ACTIVE_NEW) (ainv_start _ (or_introl eq_refl)) HA0 Hx Hb)
    as (_ & _ & A3).
  apply (A3 i t v Hl Hv).
Qed.

(** *** Every drain returns *)

Lemma astep_act t x o pt act v h' evs :
  a_pool x !! t = Some (o, pt) -> pact pt = Some act ->
  ghost_ready act (a_refs x) = true ->
  perform act (a_heap x) = Eff v h' evs ->
  astep (Step t) x
  = Some (AState h' (ghost_refs act v (a_refs x))
                 (<[t:=(o, pnext pt v)]> (a_pool x)) (a_log x ++ tag t evs)).
Proof.
  intros Hp Hact Hg Hperf. simpl. rewrite Hp.
  destruct pt; try discriminate; rewrite Hact, Hg, Hperf; reflexivity.
Qed.

Lemma astep_ret t x o v :
  a_pool x !! t = Some (o, PRet v) ->
  astep (Step t) x
  = Some (AState (a_heap x) (a_refs x) (delete t (a_pool x))
                 (a_log x ++ [(t, ObsRet o v)])).
Proof. intros Hp. simpl. rewrite Hp. reflexivity. Qed.

Lemma unreferenced_step c0 i x x' :
  c0 = BUS1_ACTIVE_RELEASE_DIRECT \/ c0 = BUS1_ACTIVE_BIAS ->
  ainv c0 x -> unreferenced active x -> astep i x = Some x' -> unreferenced active x'.
Proof.
  intros H0 (c & g & Hinv) [Hz HW] Hs.
  destruct Hinv as (Hc & Hrefs & Hlast & Hfg & _ & _ & _ & Hpool).
  assert (Hdeact : BUS1_ACTIVE_NEW < c < 0).
  { eapply follows_graph_deactivated; [exact Hfg| |exact Hlast]. consts. lia. }
  assert (Hlow : c <= BUS1_ACTIVE_BIAS).
  { unfold refs_ok in Hrefs. rewrite Hz in Hrefs.
    destruct (decide (c <= BUS1_ACTIVE_BIAS)); [assumption|lia]. }
  destruct i as [t o|t].
  - simpl in Hs. destruct (a_pool x !! t) eqn:Hp; [discriminate|]. injection Hs as <-.
    split; simpl; [exact Hz|].
    intros t' o' c' Hl Hc'. destruct (decide (t = t')) as [->|Hne].
    + rewrite lookup_insert_eq in Hl. discriminate.
    + rewrite lookup_insert_ne in Hl by assumption. apply (HW _ _ _ Hl Hc').
  - destruct (astep_step _ _ _ Hs)
      as [(o & v & Hp & ->)|(o & pt & act & v & h' & evs & Hp & Hact & Hg & Hperf & ->)];
      split; simpl.
    + exact Hz.
    + intros t' o' c' Hl Hc'. apply lookup_delete_Some in Hl as [_ Hl].
      apply (HW _ _ _ Hl Hc').
    + (* no reference is taken or dropped *)
      destruct act; simpl; try exact Hz.
      * simpl in Hg. rewrite Hz in Hg. discriminate.
      * destruct pt as [o1|v1| | | |n1 v1| | | | | | | | ]; try destruct o1;
          simpl in Hact; try discriminate;
          try (destruct release; simpl in Hact; discriminate).
        injection Hact as <-. simpl in Hperf. rewrite Hc in Hperf.
        rewrite Z.geb_leb in Hperf. destruct (Z.leb_spec 0 c); [lia|].
        injection Hperf as <- <- <-. simpl. exact Hz.
    + (* a drain that waits for DRAINED *)
      intros t' o' c' Hl Hc'.
      assert (Hcases : (h' = a_heap x /\ c' = c) \/
                       c' = BUS1_ACTIVE_RELEASE \/ c' = BUS1_ACTIVE_DRAINED).
      { destruct (Hpool _ _ _ Hp) as (Hwf & _).
        destruct pt as [o1|v1| | | |n1 v1| | | | | | | | ]; try destruct o1;
          simpl in Hact; try discriminate;
          try (destruct release; simpl in Hact; try discriminate);
          injection Hact as <-; simpl in Hperf, Hg; rewrite ?Hc in Hperf;
          rewrite ?Hz in Hg; try discriminate;
          repeat match type of Hperf with
                 | context [?a =? ?b] => destruct (Z.eqb_spec a b)
                 | context [?a >=? ?b] => rewrite (Z.geb_leb a b) in Hperf;
                                          destruct (Z.leb_spec b a)
                 | context [?a <=? ?b] => destruct (Z.leb_spec a b)
                 end;
          try discriminate; injection Hperf as <- <- <-;
          rewrite ?lookup_insert_eq in Hc'; rewrite ?Hc in Hc'; injection Hc' as <-;
          try (left; split; reflexivity); try (right; left; reflexivity);
          try (right; right; reflexivity);
          try (exfalso; simpl in Hwf; consts; lia). }
      destruct (decide (t = t')) as [<-|Hne].
      * rewrite lookup_insert_eq in Hl. injection Hl as -> Hnext.
        destruct Hcases as [[_ Hcc]|Hdone]; [|exact Hdone]. rewrite Hcc.
        destruct (Hpool _ _ _ Hp) as (_ & Hown & Hloc & _).
        destruct pt as [o1|v1| | | |n1 v1| | | | | | | | ]; try destruct o1;
          simpl in Hown; try discriminate; simpl in Hnext; try discriminate.
        -- destruct (v =? BUS1_ACTIVE_BIAS); discriminate.
        -- destruct (v =? BUS1_ACTIVE_NEW); discriminate.
        -- destruct ((v >? BUS1_ACTIVE_NEW) && (v <? 0)); discriminate.
        -- unfold loop_point in Hnext. destruct (v >=? 0); discriminate.
        -- destruct (v =? v1); [discriminate|]. destruct n1; [discriminate|].
           unfold loop_point in Hnext. destruct (v >=? 0); discriminate.
        -- destruct (v =? BUS1_ACTIVE_RELEASE_DIRECT); [|discriminate].
           exfalso. revert Hnext. unfold drain_win. destruct release; discriminate.
        -- injection Hact as <-. simpl in Hperf. rewrite Hc in Hperf.
           assert (Hv : v = c).
           { destruct (c =? BUS1_ACTIVE_BIAS); injection Hperf as Hv _ _; congruence. }
           subst v.
           destruct (Z.eqb_spec c BUS1_ACTIVE_BIAS) as [Hb|Hb];
             [|destruct (Z.eqb_spec c BUS1_ACTIVE_RELEASE_DIRECT) as [Hr|Hr]];
             simpl in Hnext;
             try (exfalso; revert Hnext; unfold drain_win; destruct release; discriminate).
           consts. lia.
      * rewrite lookup_insert_ne in Hl by assumption.
        destruct Hcases as [[_ Hcc]|Hdone]; [|exact Hdone]. rewrite Hcc.
        apply (HW _ _ _ Hl Hc).
Qed.

Lemma aexec_unreferenced c0 sched x :
  c0 = BUS1_ACTIVE_RELEASE_DIRECT \/ c0 = BUS1_ACTIVE_BIAS ->
  aexec sched (astart active c0) = Some x -> unreferenced active x.
Proof.
  intros H0. revert x. induction sched as [|i sched IH] using rev_ind; intros x He.
  - injection He as <-. split; [reflexivity|].
    intros t o c Hp. simpl in Hp. rewrite lookup_empty in Hp. discriminate.
  - rewrite aexec_app in He.
    destruct (aexec sched (astart active c0)) as [xm|] eqn:Hm; [|discriminate].
    simpl in He. destruct (astep i xm) as [x1|] eqn:Hs; [|discriminate].
    injection He as <-.
    eapply unreferenced_step; [exact H0| |apply IH; reflexivity|exact Hs].
    eapply aexec_inv_deactivated; eassumption.
Qed.

(** **** A drain that steps alone *)

Lemma finishes_ret t x v :
  a_pool x !! t = Some (OpDrain, PRet v) ->
  exists x', finishes active waitq release retries t 1 x x' v /\ a_heap x' = a_heap x.
Proof.
  intros Hp.
  exists (AState (a_heap x) (a_refs x) (delete t (a_pool x)) (a_log x ++ [(t, ObsRet OpDrain v)])).
  split; [|reflexivity]. split_and!.
  - simpl replicate. cbn [Active.aexec]. fold astep. rewrite (astep_ret _ _ _ _ Hp). reflexivity.
  - reflexivity.
  - exists []. reflexivity.
Qed.

Lemma finishes_after t x pt act v h' evs n x' r :
  a_pool x !! t = Some (OpDrain, pt) -> pact pt = Some act ->
  ghost_ready act (a_refs x) = true ->
  perform act (a_heap x) = Eff v h' evs ->
  finishes active waitq release retries t n
    (AState h' (ghost_refs act v (a_refs x))
            (<[t:=(OpDrain, pnext pt v)]> (a_pool x)) (a_log x ++ tag t evs)) x' r ->
  finishes active waitq release retries t (S n) x x' r.
Proof.
  intros Hp Hact Hg Hperf (He & Hpool & l & Hl). simpl in Hpool, Hl. split_and!.
  - simpl replicate. cbn [Active.aexec]. fold astep.
    rewrite (astep_act _ _ _ _ _ _ _ _ Hp Hact Hg Hperf). exact He.
  - rewrite Hpool. apply delete_insert_eq.
  - exists (tag t evs ++ l). rewrite Hl, <- !app_assoc. reflexivity.
Qed.

Lemma pact_call :
  release <> None -> exists f, pact PDrainCall = Some (Emit (EvRelease f active)).
Proof. unfold Active.pact. destruct release; [eauto|contradiction]. Qed.

Lemma drain_win_cases :
  (drain_win release = PDrainCall /\ release <> None) \/ drain_win release = PDrainSet.
Proof. unfold drain_win. destruct release; [left; split; [reflexivity|discriminate]|right; reflexivity]. Qed.

(** The thread that wrote RELEASE calls the callback, stores DRAINED,
    wakes all and returns true. *)
Lemma winner_finishes t x pt c :
  a_pool x !! t = Some (OpDrain, pt) -> a_heap x !! active = Some c ->
  (pt = PDrainCall /\ release <> None) \/ pt = PDrainSet \/
  ((pt = PDrainWake \/ pt = PRet 1) /\ c = BUS1_ACTIVE_DRAINED) ->
  exists n x', finishes active waitq release retries t n x x' 1 /\
               a_heap x' !! active = Some BUS1_ACTIVE_DRAINED.
Proof.
  intros Hp Hc Hpt.
  assert (Hret : forall y, a_pool y !! t = Some (OpDrain, PRet 1) ->
            a_heap y !! active = Some BUS1_ACTIVE_DRAINED ->
            exists n y', finishes active waitq release retries t n y y' 1 /\
                         a_heap y' !! active = Some BUS1_ACTIVE_DRAINED).
  { intros y Hy Hh. destruct (finishes_ret t y 1 Hy) as (y' & Hf & Heq).
    exists 1%nat, y'. rewrite Heq. auto. }
  assert (Hwake : forall y, a_pool y !! t = Some (OpDrain, PDrainWake) ->
            a_heap y !! active = Some BUS1_ACTIVE_DRAINED ->
            exists n y', finishes active waitq release retries t n y y' 1 /\
                         a_heap y' !! active = Some BUS1_ACTIVE_DRAINED).
  { intros y Hy Hh.
    edestruct (Hret (AState (a_heap y) (a_refs y)
                       (<[t:=(OpDrain, PRet 1)]> (a_pool y))
                       (a_log y ++ tag t [EvWakeUpAll waitq]))) as (n & y' & Hf & Hd).
    - apply lookup_insert_eq.
    - exact Hh.
    - exists (S n), y'. split; [|exact Hd].
      eapply (finishes_after t y PDrainWake); [exact Hy|reflexivity|reflexivity|reflexivity|].
      exact Hf. }
  assert (Hset : forall y c', a_pool y !! t = Some (OpDrain, PDrainSet) ->
            a_heap y !! active = Some c' ->
            exists n y', finishes active waitq release retries t n y y' 1 /\
                         a_heap y' !! active = Some BUS1_ACTIVE_DRAINED).
  { intros y c' Hy Hh.
    edestruct (Hwake (AState (<[active:=BUS1_ACTIVE_DRAINED]> (a_heap y)) (a_refs y)
                       (<[t:=(OpDrain, PDrainWake)]> (a_pool y))
                       (a_log y ++ tag t [EvCount active BUS1_ACTIVE_DRAINED])))
      as (n & y' & Hf & Hd).
    - apply lookup_insert_eq.
    - apply lookup_insert_eq.
    - exists (S n), y'. split; [|exact Hd].
      eapply (finishes_after t y PDrainSet); [exact Hy|reflexivity|reflexivity| |exact Hf].
      simpl. rewrite Hh. reflexivity. }
  destruct Hpt as [[-> Hrel]|[->|[[->| ->] ->]]].
  - destruct (pact_call Hrel) as [f Hf].
    edestruct (Hset (AState (a_heap x) (a_refs x)
                       (<[t:=(OpDrain, PDrainSet)]> (a_pool x))
                       (a_log x ++ tag t [EvRelease f active])) c)
      as (n & y' & Hfin & Hd).
    + apply lookup_insert_eq.
    + exact Hc.
    + exists (S n), y'. split; [|exact Hd].
      eapply (finishes_after t x PDrainCall); [exact Hp|exact Hf|reflexivity|reflexivity|].
      exact Hfin.
  - apply (Hset x c Hp Hc).
  - apply (Hwake x Hp Hc).
  - apply (Hret x Hp Hc).
Qed.

(** A drain that did not write RELEASE, on a counter at RELEASE_DIRECT, at
    the bias or at DRAINED: it runs through, writing RELEASE itself or
    finding the object DRAINED. *)
Lemma drain_steps_through t x pt c :
  a_pool x !! t = Some (OpDrain, pt) -> a_heap x !! active = Some c ->
  c = BUS1_ACTIVE_RELEASE_DIRECT \/ c = BUS1_ACTIVE_BIAS \/ c = BUS1_ACTIVE_DRAINED ->
  pt = PBody OpDrain \/ pt = PDrainWarn \/ pt = PDrainWait1 \/ pt = PDrainCas1 \/
  (pt = PDrainCas2 /\ c <> BUS1_ACTIVE_RELEASE_DIRECT) \/
  (pt = PDrainWait2 /\ c = BUS1_ACTIVE_DRAINED) \/ (exists v, pt = PRet v) ->
  exists n x' v, finishes active waitq release retries t n x x' v.
Proof.
  intros Hp Hc Hcc Hpt.
  assert (Hret : forall y v, a_pool y !! t = Some (OpDrain, PRet v) ->
            exists n y' v', finishes active waitq release retries t n y y' v').
  { intros y v Hy. destruct (finishes_ret t y v Hy) as (y' & Hf & _). eauto. }
  assert (Hwin : forall y c', a_pool y !! t = Some (OpDrain, drain_win release) ->
            a_heap y !! active = Some c' ->
            exists n y' v', finishes active waitq release retries t n y y' v').
  { intros y c' Hy Hh.
    destruct (winner_finishes t y (drain_win release) c' Hy Hh) as (n & y' & Hf & _).
    - destruct drain_win_cases as [H|H]; [left; exact H|right; left; exact H].
    - eauto. }
  assert (Hwait2 : forall y, a_pool y !! t = Some (OpDrain, PDrainWait2) ->
            a_heap y !! active = Some BUS1_ACTIVE_DRAINED ->
            exists n y' v', finishes active waitq release retries t n y y' v').
  { intros y Hy Hh.
    edestruct (Hret (AState (a_heap y) (a_refs y) (<[t:=(OpDrain, PRet 0)]> (a_pool y))
                       (a_log y ++ tag t []))) as (n & y' & v' & Hf);
      [apply lookup_insert_eq|].
    exists (S n), y', v'.
    refine (finishes_after t y PDrainWait2 _ 0 (a_heap y) [] n y' v' Hy eq_refl eq_refl _ Hf).
    simpl. rewrite Hh. reflexivity. }
  assert (Hcas2 : forall y c', a_pool y !! t = Some (OpDrain, PDrainCas2) ->
            a_heap y !! active = Some c' ->
            c' = BUS1_ACTIVE_BIAS \/ c' = BUS1_ACTIVE_DRAINED ->
            exists n y' v', finishes active waitq release retries t n y y' v').
  { intros y c' Hy Hh [-> | ->].
    - edestruct (Hwin (AState (<[active:=BUS1_ACTIVE_RELEASE]> (a_heap y)) (a_refs y)
                         (<[t:=(OpDrain, drain_win release)]> (a_pool y))
                         (a_log y ++ tag t [EvCount active BUS1_ACTIVE_RELEASE])))
        as (n & y' & v' & Hf); [apply lookup_insert_eq|apply lookup_insert_eq|].
      exists (S n), y', v'.
      refine (finishes_after t y PDrainCas2 _ BUS1_ACTIVE_BIAS
                (<[active:=BUS1_ACTIVE_RELEASE]> (a_heap y))
                [EvCount active BUS1_ACTIVE_RELEASE] n y' v' Hy eq_refl eq_refl _ Hf).
      simpl. rewrite Hh. reflexivity.
    - edestruct (Hwait2 (AState (a_heap y) (a_refs y)
                           (<[t:=(OpDrain, PDrainWait2)]> (a_pool y))
                           (a_log y ++ tag t []))) as (n & y' & v' & Hf);
        [apply lookup_insert_eq|exact Hh|].
      exists (S n), y', v'.
      refine (finishes_after t y PDrainCas2 _ BUS1_ACTIVE_DRAINED (a_heap y) [] n y' v'
                Hy eq_refl eq_refl _ Hf).
      simpl. rewrite Hh. reflexivity. }
  assert (Hcas1 : forall y c', a_pool y !! t = Some (OpDrain, PDrainCas1) ->
            a_heap y !! active = Some c' ->
            c' = BUS1_ACTIVE_RELEASE_DIRECT \/ c' = BUS1_ACTIVE_BIAS \/
            c' = BUS1_ACTIVE_DRAINED ->
            exists n y' v', finishes active waitq release retries t n y y' v').
  { intros y c' Hy Hh [-> | Hlose].
    - edestruct (Hwin (AState (<[active:=BUS1_ACTIVE_RELEASE]> (a_heap y)) (a_refs y)
                         (<[t:=(OpDrain, drain_win release)]> (a_pool y))
                         (a_log y ++ tag t [EvCount active BUS1_ACTIVE_RELEASE])))
        as (n & y' & v' & Hf); [apply lookup_insert_eq|apply lookup_insert_eq|].
      exists (S n), y', v'.
      refine (finishes_after t y PDrainCas1 _ BUS1_ACTIVE_RELEASE_DIRECT
                (<[active:=BUS1_ACTIVE_RELEASE]> (a_heap y))
                [EvCount active BUS1_ACTIVE_RELEASE] n y' v' Hy eq_refl eq_refl _ Hf).
      simpl. rewrite Hh. reflexivity.
    - edestruct (Hcas2 (AState (a_heap y) (a_refs y)
                          (<[t:=(OpDrain, PDrainCas2)]> (a_pool y))
                          (a_log y ++ tag t [])) c') as (n & y' & v' & Hf);
        [apply lookup_insert_eq|exact Hh|exact Hlose|].
      exists (S n), y', v'.
      assert (Hnext : pnext PDrainCas1 c' = PDrainCas2)
        by (destruct Hlose as [-> | ->]; reflexivity).
      rewrite <- Hnext in Hf.
      refine (finishes_after t y PDrainCas1 _ c' (a_heap y) [] n y' v'
                Hy eq_refl eq_refl _ Hf).
      simpl. rewrite Hh. destruct Hlose as [-> | ->]; reflexivity. }
  assert (Hwait1 : forall y c', a_pool y !! t = Some (OpDrain, PDrainWait1) ->
            a_heap y !! active = Some c' ->
            c' = BUS1_ACTIVE_RELEASE_DIRECT \/ c' = BUS1_ACTIVE_BIAS \/
            c' = BUS1_ACTIVE_DRAINED ->
            exists n y' v', finishes active waitq release retries t n y y' v').
  { intros y c' Hy Hh Hc'.
    edestruct (Hcas1 (AState (a_heap y) (a_refs y)
                        (<[t:=(OpDrain, PDrainCas1)]> (a_pool y))
                        (a_log y ++ tag t [])) c') as (n & y' & v' & Hf);
      [apply lookup_insert_eq|exact Hh|exact Hc'|].
    exists (S n), y', v'.
    refine (finishes_after t y PDrainWait1 _ 0 (a_heap y) [] n y' v' Hy eq_refl eq_refl _ Hf).
    simpl. rewrite Hh. destruct Hc' as [-> |[-> | ->]]; reflexivity. }
  destruct Hpt as [-> |[-> |[-> |[-> |[[-> Hne]|[[-> ->]|[v ->]]]]]]].
  - edestruct (Hwait1 (AState (a_heap x) (a_refs x)
                         (<[t:=(OpDrain, PDrainWait1)]> (a_pool x))
                         (a_log x ++ tag t [])) c) as (n & y' & v' & Hf);
      [apply lookup_insert_eq|exact Hc|exact Hcc|].
    exists (S n), y', v'.
    assert (Hnext : pnext (PBody OpDrain) c = PDrainWait1)
      by (destruct Hcc as [-> |[-> | ->]]; reflexivity).
    rewrite <- Hnext in Hf.
    refine (finishes_after t x (PBody OpDrain) _ c (a_heap x) [] n y' v'
              Hp eq_refl eq_refl _ Hf).
    simpl. rewrite Hc. reflexivity.
  - edestruct (Hret (AState (a_heap x) (a_refs x) (<[t:=(OpDrain, PRet 0)]> (a_pool x))
                       (a_log x ++ tag t [EvWarn]))) as (n & y' & v' & Hf);
      [apply lookup_insert_eq|].
    exists (S n), y', v'.
    exact (finishes_after t x PDrainWarn _ 0 (a_heap x) [EvWarn] n y' v'
             Hp eq_refl eq_refl eq_refl Hf).
  - apply (Hwait1 x c Hp Hc Hcc).
  - apply (Hcas1 x c Hp Hc Hcc).
  - apply (Hcas2 x c Hp Hc). destruct Hcc as [?|[?|?]]; [contradiction|left|right]; assumption.
  - apply (Hwait2 x Hp Hc).
  - apply (Hret x v Hp).
Qed.

Lemma only_steps_replicate n t : only_steps (replicate n (Step t)).
Proof. apply Forall_replicate. exact I. Qed.

(** A drain call in progress can always be brought to its return, by the
    steps of the thread that wrote RELEASE, if there is one, followed by
    its own. *)
Lemma drain_progress c0 x t pt :
  c0 = BUS1_ACTIVE_RELEASE_DIRECT \/ c0 = BUS1_ACTIVE_BIAS ->
  ainv c0 x -> unreferenced active x ->
  a_pool x !! t = Some (OpDrain, pt) ->
  exists sched' x' v,
    only_steps sched' /\ aexec sched' x = Some x' /\ a_pool x' !! t = None /\
    exists l, a_log x' = a_log x ++ l ++ [(t, ObsRet OpDrain v)].
Proof.
  intros H0 (c & g & Hinv) [Hz HW] Hp.
  destruct Hinv as (Hc & Hrefs & Hlast & Hfg & _ & Hsc & Hst & Hpool).
  assert (Hdeact : BUS1_ACTIVE_NEW < c < 0).
  { eapply follows_graph_deactivated; [exact Hfg| |exact Hlast]. consts. lia. }
  assert (Hlow : c <= BUS1_ACTIVE_BIAS).
  { unfold refs_ok in Hrefs. rewrite Hz in Hrefs.
    destruct (decide (c <= BUS1_ACTIVE_BIAS)); [assumption|lia]. }
  destruct (Hpool _ _ _ Hp) as (_ & Hown & Hloc & Hwin).
  (* the points of a drain that did not write RELEASE *)
  assert (Hpts : forall c', is_win OpDrain pt = false ->
            (pt = PDrainCas2 -> c' <> BUS1_ACTIVE_RELEASE_DIRECT) ->
            (pt = PDrainWait2 -> c' = BUS1_ACTIVE_DRAINED) ->
            pt = PBody OpDrain \/ pt = PDrainWarn \/ pt = PDrainWait1 \/ pt = PDrainCas1 \/
            (pt = PDrainCas2 /\ c' <> BUS1_ACTIVE_RELEASE_DIRECT) \/
            (pt = PDrainWait2 /\ c' = BUS1_ACTIVE_DRAINED) \/ (exists v, pt = PRet v)).
  { intros c' Hnw H2 H3.
    destruct pt as [o1|v1| | | |n1 v1| | | | | | | | ]; simpl in Hown; try discriminate;
      simpl in Hnw; try discriminate.
    - subst o1. tauto.
    - right; right; right; right; right; right. eauto.
    - tauto.
    - tauto.
    - tauto.
    - right; right; right; right; left. auto.
    - right; right; right; right; right; left. auto. }
  destruct (stage_at g) as [[w ptw]|] eqn:Hg.
  - (* a thread has written RELEASE and is on its way *)
    pose proof (Hst _ _ eq_refl) as Hpw.
    destruct (winner_finishes w x ptw c Hpw Hc) as (n & x1 & (He1 & Hp1 & l1 & Hl1) & Hd1).
    { destruct (Hpool _ _ _ Hpw) as (Hwf & _).
      destruct g; simpl in Hg; try discriminate; injection Hg as <- <-; simpl in Hsc, Hwf; auto. }
    destruct (decide (t = w)) as [->|Hne].
    + exists (replicate n (Step w)), x1, 1. split_and!.
      * apply only_steps_replicate.
      * exact He1.
      * rewrite Hp1. apply lookup_delete_eq.
      * exists l1. exact Hl1.
    + assert (Hp' : a_pool x1 !! t = Some (OpDrain, pt)).
      { rewrite Hp1, lookup_delete_ne by congruence. exact Hp. }
      destruct (drain_steps_through t x1 pt BUS1_ACTIVE_DRAINED Hp' Hd1)
        as (m & x2 & v & He2 & Hp2 & l2 & Hl2).
      { right; right; reflexivity. }
      { apply Hpts; [|intros _; consts; lia|reflexivity].
        destruct (is_win OpDrain pt) eqn:E; [|reflexivity].
        specialize (Hwin eq_refl). congruence. }
      exists (replicate n (Step w) ++ replicate m (Step t)), x2, v. split_and!.
      * apply Forall_app. split; apply only_steps_replicate.
      * rewrite aexec_app, He1. exact He2.
      * rewrite Hp2. apply lookup_delete_eq.
      * exists (l1 ++ [(w, ObsRet OpDrain 1)] ++ l2).
        rewrite Hl2, Hl1, <- !app_assoc. reflexivity.
  - (* nobody is on the way: RELEASE is still to be written, or all is done *)
    assert (Hnw : is_win OpDrain pt = false).
    { destruct (is_win OpDrain pt) eqn:E; [|reflexivity].
      specialize (Hwin eq_refl). discriminate. }
    assert (Hcc : c = BUS1_ACTIVE_RELEASE_DIRECT \/ c = BUS1_ACTIVE_BIAS \/
                  c = BUS1_ACTIVE_DRAINED).
    { destruct g; simpl in Hg; try discriminate; simpl in Hsc; [|auto].
      consts. lia. }
    assert (Hnr : c <> BUS1_ACTIVE_RELEASE) by (consts; lia).
    destruct (drain_steps_through t x pt c Hp Hc Hcc) as (m & x2 & v & He2 & Hp2 & l2 & Hl2).
    { apply Hpts; [exact Hnw| |].
      - intros ->. simpl in Hloc. tauto.
      - intros ->. destruct (HW _ _ _ Hp Hc); [contradiction|assumption]. }
    exists (replicate m (Step t)), x2, v. split_and!.
    + apply only_steps_replicate.
    + exact He2.
    + rewrite Hp2. apply lookup_delete_eq.
    + exists l2. exact Hl2.
Qed.

Lemma drain_return_value l w n i t v :
  release_obs l = take n (release_sequence active waitq release w) ->
  l !! i = Some (t, ObsRet OpDrain v) ->
  v = 0 \/ (v = 1 /\ In (t, ObsEv (EvCount active BUS1_ACTIVE_RELEASE)) l).
Proof.
  intros Hl Hi. destruct (decide (v = 0)) as [|Hv]; [left; assumption|right].
  assert (Hin : In (t, ObsRet OpDrain v) l).
  { apply list_elem_of_In. eapply list_elem_of_lookup_2. exact Hi. }
  assert (Hx : is_release_obs active (t, ObsRet OpDrain v) = true).
  { unfold is_release_obs. simpl. destruct (Z.eqb_spec v 0); [contradiction|reflexivity]. }
  split.
  - pose proof (release_obs_intro _ _ Hin Hx) as Hin'. rewrite Hl in Hin'.
    apply list_elem_of_In, (subseteq_take n), list_elem_of_In in Hin'.
    revert Hin'. unfold release_sequence. destruct release; simpl; intros H;
      repeat (destruct H as [H|H]; [try discriminate; injection H as _ H; auto|]);
      destruct H.
  - apply (release_obs_by_winner l w n (t, ObsRet OpDrain v) Hl Hin Hx).
Qed.

(** C1.  On an object that is deactivated with every reference released
    (the counter is RELEASE_DIRECT or the bias): a drain running alone
    moves the counter to RELEASE, calls the callback if there is one,
    stores DRAINED, wakes all waiters and returns true.  In every
    interleaving of calls by any number of threads, the writes of RELEASE
    and DRAINED, the calls of the callback, the wake_up_all and the drains
    returning true are, together and in this order, a prefix of what one
    thread does, so each happens at most once; each of them is by the
    thread whose compare-and-swap wrote RELEASE; every drain that has
    returned has returned true, being that thread's, or false; and every
    drain call in progress does return: the steps of the thread that wrote
    RELEASE, if it is on its way, followed by the call's own bring it to its
    return, with false unless it is the one call that wrote RELEASE. *)
Theorem drain_releases_once (c0 : Z) :
  c0 = BUS1_ACTIVE_RELEASE_DIRECT \/ c0 = BUS1_ACTIVE_BIAS ->
  (forall h : gmap addr Z, h !! active = Some c0 ->
     run (bus1_active_drain (Some active) (Some waitq) release) h
     = Done true (<[active:=BUS1_ACTIVE_DRAINED]> h)
         ([EvCount active BUS1_ACTIVE_RELEASE]
          ++ match release with Some f => [EvRelease f active] | None => [] end
          ++ [EvCount active BUS1_ACTIVE_DRAINED; EvWakeUpAll waitq])) /\
  (forall (sched : list sched_item) (s : mstate),
     exec sched (start active c0) = Some s ->
     (exists (w n : nat),
        release_obs (log s) = take n (release_sequence active waitq release w)) /\
     (forall x : nat * obs,
        In x (log s) -> is_release_obs active x = true ->
        In (x.1, ObsEv (EvCount active BUS1_ACTIVE_RELEASE)) (log s)) /\
     (forall (i t : nat) (v : Z),
        log s !! i = Some (t, ObsRet OpDrain v) ->
        v = 0 \/ (v = 1 /\ In (t, ObsEv (EvCount active BUS1_ACTIVE_RELEASE)) (log s))) /\
     (forall (t : nat) (p : prog Z),
        pool s !! t = Some (OpDrain, p) ->
        exists (sched' : list sched_item) (s' : mstate) (v : Z),
          only_steps sched' /\ exec sched' s = Some s' /\ pool s' !! t = None /\
          (exists l, log s' = log s ++ l ++ [(t, ObsRet OpDrain v)]) /\
          (v = 0 \/ (v = 1 /\ In (t, ObsEv (EvCount active BUS1_ACTIVE_RELEASE)) (log s'))))).
Proof.
  intros H0. split.
  - intros h Hh. apply (run_drain_release h active c0 Hh). assumption.
  - intros sched s He. destruct (exec_astart _ _ _ He) as (x & Hx & ->). simpl.
    pose proof (aexec_inv_deactivated c0 sched x H0 Hx) as Hinv.
    assert (Hobs : forall sched1 x1, aexec sched1 (astart active c0) = Some x1 ->
              exists w n, release_obs (a_log x1)
                          = take n (release_sequence active waitq release w)).
    { intros sched1 x1 H1.
      destruct (aexec_inv_deactivated c0 sched1 x1 H0 H1) as (c & g & Hi).
      destruct Hi as (_ & _ & _ & _ & Hro & _).
      destruct (expected_prefix g) as (w & n & Hg). rewrite Hg in Hro. eauto. }
    destruct (Hobs sched x Hx) as (w & n & Hro).
    split_and!.
    + eauto.
    + intros y. apply (release_obs_by_winner _ w n y Hro).
    + intros i t v. apply (drain_return_value _ w n i t v Hro).
    + intros t p Hp. rewrite lookup_fmap in Hp.
      destruct (a_pool x !! t) as [[o pt]|] eqn:Hpt; [|discriminate].
      simpl in Hp. injection Hp as -> _.
      destruct (drain_progress c0 x t pt H0 Hinv (aexec_unreferenced c0 sched x H0 Hx) Hpt)
        as (sched' & x' & v & Hsteps & He' & Hnone & l & Hl).
      exists sched', (conc x'), v. split_and!.
      * exact Hsteps.
      * rewrite exec_conc by (eapply ainv_wf_pool; exact Hinv). rewrite He'. reflexivity.
      * simpl. rewrite lookup_fmap, Hnone. reflexivity.
      * exists l. exact Hl.
      * destruct (Hobs (sched ++ sched') x') as (w' & n' & Hro').
        { rewrite aexec_app, Hx. exact He'. }
        apply (drain_return_value _ w' n' (length (a_log x ++ l)) t v Hro').
        simpl. rewrite Hl, app_assoc. apply list_lookup_middle. reflexivity.
Qed.

End Interleaving.


Lemma lifecycle_moves_forward_witness :
  match exec 1%positive 2%positive (Some 3%positive) 1 lifecycle_schedule
             (start 1%positive BUS1_ACTIVE_NEW) with
  | Some s =>
      Forall (fun c => c < - BUS1_ACTIVE_BIAS) (counts 1%positive (log s)) /\
      follows_graph BUS1_ACTIVE_NEW (counts 1%positive (log s)) /\
      no_revisit (BUS1_ACTIVE_NEW :: counts 1%positive (log s))
  | None => False
  end.
Proof.
  destruct (exec 1%positive 2%positive (Some 3%positive) 1 lifecycle_schedule
              (start 1%positive BUS1_ACTIVE_NEW)) as [s|] eqn:E.
  - assert (Hs : Forall (fun c => c < - BUS1_ACTIVE_BIAS) (counts 1%positive (log s))).
    { vm_compute in E. injection E as <-. cbn. repeat constructor. }
    split; [exact Hs|].
    exact (lifecycle_moves_forward 1%positive 2%positive (Some 3%positive) 1
             lifecycle_schedule s E Hs).
  - vm_compute in E. discriminate.
Defined.

(** C2, as stated, fails.  After activate and 2^31 - 5 acquires a
    deactivate leaves the counter at 0, still ACTIVE; a second deactivate
    takes it to the bias; and the release of one of the outstanding
    references moves it from DRAINING to RELEASE_DIRECT, which is no edge
    of the graph. *)
Lemma acquire_overflow_leaves_graph :
  exists s,
    exec 1%positive 2%positive None 0
         ([Call 0 OpActivate; Step 0; Step 0]
          ++ acquire_calls 0 (Z.to_nat (- BUS1_ACTIVE_BIAS))
          ++ [Call 0 OpDeactivate; Step 0; Step 0; Step 0; Step 0]
          ++ [Call 0 OpDeactivate; Step 0; Step 0; Step 0; Step 0]
          ++ [Call 0 OpRelease; Step 0; Step 0])
         (start 1%positive BUS1_ACTIVE_NEW) = Some s /\
    ~ follows_graph BUS1_ACTIVE_NEW (counts 1%positive (log s)).
Proof.
  destruct (exec_acquire_overflow 1%positive 2%positive None 0 0%nat)
    as (s & l & He & Hl).
  exists s. split; [exact He|].
  rewrite Hl. intros Hf. apply follows_graph_inside in Hf.
  destruct Hf as (_ & _ & [Hf|Hf]); discriminate.
Qed.

Lemma drain_releases_once_witness :
  run (bus1_active_drain (Some 1%positive) (Some 2%positive) (Some 3%positive))
      {[1%positive := BUS1_ACTIVE_BIAS]}
  = Done true (<[1%positive:=BUS1_ACTIVE_DRAINED]> {[1%positive := BUS1_ACTIVE_BIAS]})
      [EvCount 1%positive BUS1_ACTIVE_RELEASE; EvRelease 3%positive 1%positive;
       EvCount 1%positive BUS1_ACTIVE_DRAINED; EvWakeUpAll 2%positive] /\
  match exec 1%positive 2%positive (Some 3%positive) 1 two_drains_schedule
             (start 1%positive BUS1_ACTIVE_BIAS) with
  | Some s =>
      (exists w n : nat,
         release_obs 1%positive (log s)
         = take n (release_sequence 1%positive 2%positive (Some 3%positive) w)) /\
      (forall x : nat * obs,
         In x (log s) -> is_release_obs 1%positive x = true ->
         In (x.1, ObsEv (EvCount 1%positive BUS1_ACTIVE_RELEASE)) (log s)) /\
      (forall (i t : nat) (v : Z),
         log s !! i = Some (t, ObsRet OpDrain v) ->
         v = 0 \/
         (v = 1 /\ In (t, ObsEv (EvCount 1%positive BUS1_ACTIVE_RELEASE)) (log s))) /\
      (forall (t : nat) (p : prog Z),
         pool s !! t = Some (OpDrain, p) ->
         exists (sched' : list sched_item) (s' : mstate) (v : Z),
           only_steps sched' /\
           exec 1%positive 2%positive (Some 3%positive) 1 sched' s = Some s' /\
           pool s' !! t = None /\
           (exists l, log s' = log s ++ l ++ [(t, ObsRet OpDrain v)]) /\
           (v = 0 \/
            (v = 1 /\ In (t, ObsEv (EvCount 1%positive BUS1_ACTIVE_RELEASE)) (log s'))))
  | None => False
  end /\
  match exec 1%positive 2%positive (Some 3%positive) 1 (take 10 two_drains_schedule)
             (start 1%positive BUS1_ACTIVE_BIAS) with
  | Some s =>
      heap s !! 1%positive = Some BUS1_ACTIVE_RELEASE /\
      exists (sched' : list sched_item) (s' : mstate) (v : Z),
        only_steps sched' /\
        exec 1%positive 2%positive (Some 3%positive) 1 sched' s = Some s' /\
        pool s' !! 1%nat = None /\
        (exists l, log s' = log s ++ l ++ [(1%nat, ObsRet OpDrain v)]) /\
        (v = 0 \/
         (v = 1 /\ In (1%nat, ObsEv (EvCount 1%positive BUS1_ACTIVE_RELEASE)) (log s')))
  | None => False
  end.
Proof.
  destruct (drain_releases_once 1%positive 2%positive (Some 3%positive) 1
              BUS1_ACTIVE_BIAS (or_intror eq_refl)) as [H1 H2].
  split; [|split].
  - apply H1. apply lookup_singleton_eq.
  - destruct (exec 1%positive 2%positive (Some 3%positive) 1 two_drains_schedule
                (start 1%positive BUS1_ACTIVE_BIAS)) as [s|] eqn:E.
    + exact (H2 _ _ E).
    + vm_compute in E. discriminate.
  - destruct (exec 1%positive 2%positive (Some 3%positive) 1 (take 10 two_drains_schedule)
                (start 1%positive BUS1_ACTIVE_BIAS)) as [s|] eqn:E.
    + destruct (H2 _ _ E) as (_ & _ & _ & Hprog).
      destruct (exec_astart 1%positive 2%positive (Some 3%positive) 1 _ _ _ E)
        as (x & Hx & ->).
      assert (Hx' : a_heap x !! 1%positive = Some BUS1_ACTIVE_RELEASE /\
                    a_pool x !! 1%nat = Some (OpDrain, PDrainWait2)).
      { clear Hprog E. vm_compute in Hx. injection Hx as <-. split; reflexivity. }
      destruct Hx' as [Hh Hp]. split; [exact Hh|].
      apply (Hprog 1%nat (code 1%positive 2%positive (Some 3%positive) 1 PDrainWait2)).
      unfold conc. simpl. rewrite lookup_fmap, Hp. reflexivity.
    + vm_compute in E. discriminate.
Defined.

(** ** Further properties of active.c: one caller *)

Lemma run_then {A B : Type} (p : prog A) (f : A -> prog B) (h h' : gmap addr Z)
    (x : A) (tr : list event) :
  run p h = Done x h' tr ->
  run (p ≫= f) h
  = match run (f x) h' with
    | Done y h'' tr' => Done y h'' (tr ++ tr')
    | Blocked h'' tr' => Blocked h'' (tr ++ tr')
    | Crashed => Crashed
    | Spinning => Spinning
    end.
Proof. intros Hp. rewrite run_bind, Hp. apply run_from_trace. Qed.

Lemma run_init (h : gmap addr Z) (a : addr) (c : Z) :
  h !! a = Some c ->
  run (bus1_active_init (Some a)) h
  = Done () (<[a:=BUS1_ACTIVE_NEW]> h) [EvCount a BUS1_ACTIVE_NEW].
Proof. intros Hc. unfold run. simpl. rewrite Hc. reflexivity. Qed.

Lemma run_is_new (h : gmap addr Z) (a : addr) (c : Z) :
  h !! a = Some c ->
  run (bus1_active_is_new (Some a)) h = Done (c =? BUS1_ACTIVE_NEW) h [].
Proof. intros Hc. unfold run. simpl. rewrite Hc. reflexivity. Qed.

Lemma run_is_active (h : gmap addr Z) (a : addr) (c : Z) :
  h !! a = Some c ->
  run (bus1_active_is_active (Some a)) h = Done (c >=? 0) h [].
Proof. intros Hc. unfold run. simpl. rewrite Hc. reflexivity. Qed.

Lemma run_destroy (h : gmap addr Z) (a : addr) (c : Z) :
  h !! a = Some c ->
  run (bus1_active_destroy (Some a)) h
  = Done () h (if c =? BUS1_ACTIVE_DRAINED then [] else [EvWarn]).
Proof.
  intros Hc. unfold run. simpl. rewrite Hc. simpl.
  destruct (c =? BUS1_ACTIVE_DRAINED); reflexivity.
Qed.

(** X11.  init puts the object into state NEW whatever it held before, and
    a NEW object is not active and not deactivated: no reference can be
    acquired on it until it is activated. *)
Theorem init_makes_new (h : gmap addr Z) (a : addr) (c : Z) :
  h !! a = Some c ->
  run (bus1_active_init (Some a)) h
  = Done () (<[a:=BUS1_ACTIVE_NEW]> h) [EvCount a BUS1_ACTIVE_NEW] /\
  run (bus1_active_init (Some a);; bus1_active_is_new (Some a)) h
  = Done true (<[a:=BUS1_ACTIVE_NEW]> h) [EvCount a BUS1_ACTIVE_NEW] /\
  run (bus1_active_init (Some a);; bus1_active_is_active (Some a)) h
  = Done false (<[a:=BUS1_ACTIVE_NEW]> h) [EvCount a BUS1_ACTIVE_NEW] /\
  run (bus1_active_init (Some a);; bus1_active_is_deactivated (Some a)) h
  = Done false (<[a:=BUS1_ACTIVE_NEW]> h) [EvCount a BUS1_ACTIVE_NEW] /\
  run (bus1_active_init (Some a);; bus1_active_acquire (Some a)) h
  = Done NULL (<[a:=BUS1_ACTIVE_NEW]> h) [EvCount a BUS1_ACTIVE_NEW].
Proof.
  intros Hc. pose proof (run_init h a c Hc) as Hi.
  assert (Hn : <[a:=BUS1_ACTIVE_NEW]> h !! a = Some BUS1_ACTIVE_NEW)
    by apply lookup_insert_eq.
  split; [exact Hi|]. split_and!.
  - rewrite (run_then _ _ _ _ _ _ Hi), (run_is_new _ _ _ Hn). reflexivity.
  - rewrite (run_then _ _ _ _ _ _ Hi), (run_is_active _ _ _ Hn). reflexivity.
  - rewrite (run_then _ _ _ _ _ _ Hi), (run_is_deactivated _ _ _ Hn). reflexivity.
  - rewrite (run_then _ _ _ _ _ _ Hi), (run_acquire _ _ _ Hn). reflexivity.
Qed.

Lemma init_makes_new_witness :
  run (bus1_active_init (Some 1%positive);; bus1_active_acquire (Some 1%positive))
      {[1%positive := 12]}
  = Done NULL (<[1%positive:=BUS1_ACTIVE_NEW]> {[1%positive := 12]})
         [EvCount 1%positive BUS1_ACTIVE_NEW].
Proof.
  apply (init_makes_new {[1%positive := 12]} 1%positive 12).
  apply lookup_singleton_eq.
Defined.

(** X12.  The three predicates read the counter and change nothing, and on
    every counter value from NEW upwards exactly one of them answers true:
    is_new in state NEW, is_active in state ACTIVE, is_deactivated in the
    states DRAINING, RELEASE_DIRECT, RELEASE and DRAINED.  Below NEW (the
    reserved value) none does. *)
Theorem predicates_partition_states (h : gmap addr Z) (a : addr) (c : Z) :
  h !! a = Some c ->
  exists n ac d : bool,
    run (bus1_active_is_new (Some a)) h = Done n h [] /\
    run (bus1_active_is_active (Some a)) h = Done ac h [] /\
    run (bus1_active_is_deactivated (Some a)) h = Done d h [] /\
    (n = true <-> state_of c = NEW) /\
    (ac = true <-> state_of c = ACTIVE) /\
    (d = true <-> state_of c = DRAINING \/ state_of c = RELEASE_DIRECT \/
                  state_of c = RELEASE \/ state_of c = DRAINED) /\
    (BUS1_ACTIVE_NEW <= c -> Z.b2z n + Z.b2z ac + Z.b2z d = 1) /\
    (c < BUS1_ACTIVE_NEW -> n = false /\ ac = false /\ d = false).
Proof.
  intros Hc. eexists _, _, _.
  split; [apply (run_is_new _ _ _ Hc)|].
  split; [apply (run_is_active _ _ _ Hc)|].
  split; [apply (run_is_deactivated _ _ _ Hc)|].
  unfold state_of. rewrite !Z.geb_leb, Z.gtb_ltb.
  destruct (Z.leb_spec 0 c), (Z.leb_spec BUS1_ACTIVE_BIAS c),
    (Z.eqb_spec c BUS1_ACTIVE_RELEASE_DIRECT), (Z.eqb_spec c BUS1_ACTIVE_RELEASE),
    (Z.eqb_spec c BUS1_ACTIVE_DRAINED), (Z.eqb_spec c BUS1_ACTIVE_NEW),
    (Z.ltb_spec BUS1_ACTIVE_NEW c), (Z.ltb_spec c 0);
    try (exfalso; consts; lia); simpl;
    split_and!; try (intros; consts; lia); try reflexivity;
    try (split; [discriminate|]); try (split; [reflexivity|]); try (split; reflexivity);
    try (intros [?|[?|[?|?]]]; discriminate); try discriminate;
    try (split; intros; auto; fail); eauto.
Qed.

Lemma predicates_partition_states_witness :
  exists n ac d : bool,
    run (bus1_active_is_new (Some 1%positive)) {[1%positive := BUS1_ACTIVE_BIAS + 2]}
    = Done n {[1%positive := BUS1_ACTIVE_BIAS + 2]} [] /\
    run (bus1_active_is_active (Some 1%positive)) {[1%positive := BUS1_ACTIVE_BIAS + 2]}
    = Done ac {[1%positive := BUS1_ACTIVE_BIAS + 2]} [] /\
    run (bus1_active_is_deactivated (Some 1%positive)) {[1%positive := BUS1_ACTIVE_BIAS + 2]}
    = Done d {[1%positive := BUS1_ACTIVE_BIAS + 2]} [] /\
    Z.b2z n + Z.b2z ac + Z.b2z d = 1.
Proof.
  destruct (predicates_partition_states {[1%positive := BUS1_ACTIVE_BIAS + 2]} 1%positive
              (BUS1_ACTIVE_BIAS + 2) (lookup_singleton_eq _ _))
    as (n & ac & d & Hn & Hac & Hd & _ & _ & _ & Hone & _).
  exists n, ac, d. split_and!; [exact Hn|exact Hac|exact Hd|].
  apply Hone. consts. lia.
Defined.

(** X13.  activate succeeds from state NEW only, where it sets the counter
    to 0; from any other state it returns false and writes nothing.  So of
    two activates in a row the second always fails, and an object that is
    deactivated stays so: activate does not bring it back. *)
Theorem activate_only_from_new (h : gmap addr Z) (a : addr) (c : Z) :
  h !! a = Some c ->
  (c = BUS1_ACTIVE_NEW ->
   run (bus1_active_activate (Some a)) h = Done true (<[a:=0]> h) [EvCount a 0]) /\
  (c <> BUS1_ACTIVE_NEW ->
   run (bus1_active_activate (Some a)) h = Done false h []) /\
  (exists h1 tr1,
     run (bus1_active_activate (Some a);; bus1_active_activate (Some a)) h
     = Done false h1 tr1 /\
     final_heap (run (bus1_active_activate (Some a)) h) = Some h1) /\
  (run (bus1_active_is_deactivated (Some a)) h = Done true h [] ->
   run (bus1_active_activate (Some a);; bus1_active_is_deactivated (Some a)) h
   = Done true h []).
Proof.
  intros Hc. pose proof (run_activate h a c Hc) as Ha.
  destruct (Z.eqb_spec c BUS1_ACTIVE_NEW) as [->|Hne]; split_and!; try congruence.
  - exists (<[a:=0]> h), [EvCount a 0]. rewrite (run_then _ _ _ _ _ _ Ha).
    rewrite (run_activate _ a 0) by apply lookup_insert_eq.
    rewrite Ha. split; reflexivity.
  - rewrite (run_is_deactivated h a _ Hc). intros [=].
  - exists h, []. rewrite (run_then _ _ _ _ _ _ Ha), Ha.
    split; reflexivity.
  - intros Hd. rewrite (run_then _ _ _ _ _ _ Ha), Hd. reflexivity.
Qed.

Lemma activate_only_from_new_witness :
  run (bus1_active_activate (Some 1%positive)) {[1%positive := BUS1_ACTIVE_NEW]}
  = Done true (<[1%positive:=0]> {[1%positive := BUS1_ACTIVE_NEW]}) [EvCount 1%positive 0].
Proof.
  apply (activate_only_from_new {[1%positive := BUS1_ACTIVE_NEW]} 1%positive BUS1_ACTIVE_NEW).
  - apply lookup_singleton_eq.
  - reflexivity.
Defined.

(** X14.  Once deactivate has returned (on a counter from NEW up to, not
    including, 2^31 - 5), is_deactivated answers true, acquire returns NULL
    and activate returns false, none of them changing the counter: no new
    reference can be acquired. *)
Theorem deactivate_shuts_the_object (retries : nat) (h : gmap addr Z) (a : addr) (c : Z) :
  h !! a = Some c ->
  BUS1_ACTIVE_NEW <= c < - BUS1_ACTIVE_BIAS ->
  exists (h1 : gmap addr Z) (tr1 : list event),
    run (bus1_active_deactivate retries (Some a)) h = Done () h1 tr1 /\
    run (bus1_active_is_deactivated (Some a)) h1 = Done true h1 [] /\
    run (bus1_active_acquire (Some a)) h1 = Done NULL h1 [] /\
    run (bus1_active_activate (Some a)) h1 = Done false h1 [] /\
    run (bus1_active_deactivate retries (Some a);; bus1_active_acquire (Some a)) h
    = Done NULL h1 tr1.
Proof.
  intros Hc Hr.
  assert (Hd : exists h1 tr1 c1,
             run (bus1_active_deactivate retries (Some a)) h = Done () h1 tr1 /\
             h1 !! a = Some c1 /\ BUS1_ACTIVE_NEW < c1 < 0).
  { rewrite (run_deactivate h a c Hc). rewrite Z.geb_leb.
    destruct (Z.eqb_spec c BUS1_ACTIVE_NEW) as [->|Hne].
    - eexists _, _, _. split; [reflexivity|]. split; [apply lookup_insert_eq|].
      consts. lia.
    - destruct (Z.leb_spec 0 c).
      + eexists _, _, _. split; [reflexivity|]. split; [apply lookup_insert_eq|].
        rewrite wrap_int_id; consts; lia.
      + eexists _, _, _. split; [reflexivity|]. split; [exact Hc|]. lia. }
  destruct Hd as (h1 & tr1 & c1 & Hrun & Hc1 & Hr1).
  exists h1, tr1.
  assert (Hacq : run (bus1_active_acquire (Some a)) h1 = Done NULL h1 []).
  { rewrite (run_acquire h1 a c1 Hc1), Z.geb_leb.
    destruct (Z.leb_spec 0 c1); [lia|reflexivity]. }
  split_and!.
  - exact Hrun.
  - rewrite (run_is_deactivated h1 a c1 Hc1), Z.gtb_ltb.
    destruct (Z.ltb_spec BUS1_ACTIVE_NEW c1), (Z.ltb_spec c1 0); try lia. reflexivity.
  - exact Hacq.
  - rewrite (run_activate h1 a c1 Hc1).
    destruct (Z.eqb_spec c1 BUS1_ACTIVE_NEW); [lia|reflexivity].
  - rewrite (run_then _ _ _ _ _ _ Hrun), Hacq, app_nil_r. reflexivity.
Qed.

Lemma deactivate_shuts_the_object_witness :
  exists (h1 : gmap addr Z) (tr1 : list event),
    run (bus1_active_deactivate 0 (Some 1%positive);; bus1_active_acquire (Some 1%positive))
        {[1%positive := 3]}
    = Done NULL h1 tr1.
Proof.
  destruct (deactivate_shuts_the_object 0 {[1%positive := 3]} 1%positive 3)
    as (h1 & tr1 & _ & _ & _ & _ & H).
  - apply lookup_singleton_eq.
  - consts. lia.
  - exists h1, tr1. exact H.
Defined.

(** X15.  The loop of add_unless_negative, run without interference, ends
    at its first compare-and-swap whatever the number of retries: it adds
    and returns 1 when the counter is not negative, and returns 0 without
    a write when it is negative. *)
Theorem add_unless_negative_alone
    (retries : nat) (h : gmap addr Z) (a : addr) (c add : Z) :
  h !! a = Some c ->
  run (bus1_active_add_unless_negative retries (Some a) add) h
  = if 0 <=? c
    then Done 1 (<[a:=wrap_int (c + add)]> h) [EvCount a (wrap_int (c + add))]
    else Done 0 h [].
Proof.
  intros Hc. unfold run. simpl. rewrite Hc. simpl. rewrite <- Z.geb_leb.
  destruct retries; simpl; (destruct (c >=? 0) eqn:E; simpl; [|reflexivity]);
    rewrite Hc, Z.eqb_refl; simpl; rewrite Z.eqb_refl; reflexivity.
Qed.

Lemma add_unless_negative_alone_witness :
  run (bus1_active_add_unless_negative 0 (Some 1%positive) 5) {[1%positive := 2]}
  = Done 1 (<[1%positive:=7]> {[1%positive := 2]}) [EvCount 1%positive 7].
Proof.
  apply (add_unless_negative_alone 0 {[1%positive := 2]} 1%positive 2 5).
  apply lookup_singleton_eq.
Defined.

(** X16.  What drain does when the object is not ready to be released by
    this caller.  While references are outstanding (the counter above the
    bias) it falls asleep in its first wait_event, the one that waits for
    the counter to be at most the bias; while another caller is releasing
    (the counter at RELEASE) it passes the first and falls asleep in the
    second, the one that waits for DRAINED; in both cases without a write,
    a callback or a wake-up.  Once the object is DRAINED it returns false at
    once, again without any effect, and with a NULL wait-queue too. *)
Theorem drain_waits_or_yields (h : gmap addr Z) (a q : addr) (release : ptr) (c : Z) :
  h !! a = Some c ->
  (BUS1_ACTIVE_BIAS < c < 0 ->
   run (bus1_active_drain (Some a) (Some q) release) h = Blocked h [] /\
   blocked_at (bus1_active_drain (Some a) (Some q) release) h
   = Some (WaitEvent q a (fun c => c <=? BUS1_ACTIVE_BIAS))) /\
  (c = BUS1_ACTIVE_RELEASE ->
   run (bus1_active_drain (Some a) (Some q) release) h = Blocked h [] /\
   blocked_at (bus1_active_drain (Some a) (Some q) release) h
   = Some (WaitEvent q a (fun c => c =? BUS1_ACTIVE_DRAINED))) /\
  (c = BUS1_ACTIVE_DRAINED ->
   forall waitq : ptr,
     run (bus1_active_drain (Some a) waitq release) h = Done false h [] /\
     blocked_at (bus1_active_drain (Some a) waitq release) h = None).
Proof.
  intros Hc. split_and!.
  - intros Hr. unfold run. simpl. rewrite Hc. simpl.
    rewrite Z.gtb_ltb.
    destruct (Z.ltb_spec BUS1_ACTIVE_NEW c); [|consts; lia].
    destruct (Z.ltb_spec c 0); [|lia]. simpl. rewrite Hc.
    destruct (Z.leb_spec c BUS1_ACTIVE_BIAS); [lia|]. split; reflexivity.
  - intros ->. unfold run. simpl. rewrite Hc. simpl. rewrite Hc. simpl.
    rewrite Hc. simpl. rewrite Hc. simpl. rewrite Hc. split; reflexivity.
  - intros -> waitq. unfold run. destruct waitq as [q'|]; simpl; rewrite Hc; simpl;
      rewrite Hc; simpl; rewrite Hc; simpl; rewrite Hc; simpl; rewrite Hc;
      split; reflexivity.
Qed.

Lemma drain_waits_or_yields_witness :
  run (bus1_active_drain (Some 1%positive) (Some 2%positive) (Some 3%positive))
      {[1%positive := BUS1_ACTIVE_BIAS + 1]}
  = Blocked {[1%positive := BUS1_ACTIVE_BIAS + 1]} [] /\
  blocked_at (bus1_active_drain (Some 1%positive) (Some 2%positive) (Some 3%positive))
             {[1%positive := BUS1_ACTIVE_BIAS + 1]}
  = Some (WaitEvent 2%positive 1%positive (fun c => c <=? BUS1_ACTIVE_BIAS)).
Proof.
  refine (proj1 (drain_waits_or_yields {[1%positive := BUS1_ACTIVE_BIAS + 1]} 1%positive
                   2%positive (Some 3%positive) (BUS1_ACTIVE_BIAS + 1) _) _).
  - apply lookup_singleton_eq.
  - consts. lia.
Defined.

(** *** Many references, one caller *)

Lemma run_times_acquire (a : addr) (n : nat) (h : gmap addr Z) (c : Z) :
  h !! a = Some c -> 0 <= c -> c + Z.of_nat n <= INT_MAX ->
  run (times n (bus1_active_acquire (Some a))) h
  = Done () (<[a:=c + Z.of_nat n]> h) (EvCount a <$> counting_up c n).
Proof.
  revert h c. induction n as [|n IH]; intros h c Hc H0 Hmax.
  - simpl. rewrite Z.add_0_r, insert_id by assumption. reflexivity.
  - cbn [times counting_up].
    pose proof (run_acquire h a c Hc) as Ha. rewrite Z.geb_leb in Ha.
    destruct (Z.leb_spec 0 c); [|lia].
    rewrite wrap_int_id in Ha by (consts; lia).
    rewrite (run_then _ _ _ _ _ _ Ha).
    rewrite (IH _ (c + 1)) by (try apply lookup_insert_eq; lia).
    rewrite insert_insert_eq. simpl. do 2 f_equal. lia.
Qed.

(** [n] releases in a row: each writes the counter, and the one that
    writes the bias wakes the wait-queue, if there is one. *)
Lemma run_times_release (a : addr) (waitq : ptr) (n : nat) (h : gmap addr Z) (c : Z) :
  h !! a = Some c -> INT_MIN + Z.of_nat n <= c <= INT_MAX ->
  run (times n (bus1_active_release (Some a) waitq)) h
  = Done () (<[a:=c - Z.of_nat n]> h)
      (flat_map (fun v => EvCount a v ::
                   match waitq with
                   | Some q => if v =? BUS1_ACTIVE_BIAS then [EvWakeUp q] else []
                   | None => []
                   end) (counting_down c n)).
Proof.
  revert h c. induction n as [|n IH]; intros h c Hc Hr.
  - simpl. rewrite Z.sub_0_r, insert_id by assumption. reflexivity.
  - cbn [times counting_down flat_map].
    pose proof (run_release h a c Hc waitq) as Ha.
    rewrite wrap_int_id in Ha by (consts; lia).
    rewrite (run_then _ _ _ _ _ _ Ha).
    rewrite (IH _ (c - 1)) by (try apply lookup_insert_eq; consts; lia).
    rewrite insert_insert_eq. do 2 f_equal. lia.
Qed.

Lemma counting_down_quiet (a : addr) (waitq : ptr) (n : nat) (c : Z) :
  BUS1_ACTIVE_BIAS < c - Z.of_nat n ->
  flat_map (fun v => EvCount a v ::
              match waitq with
              | Some q => if v =? BUS1_ACTIVE_BIAS then [EvWakeUp q] else []
              | None => []
              end) (counting_down c n)
  = EvCount a <$> counting_down c n.
Proof.
  revert c. induction n as [|n IH]; intros c Hr; [reflexivity|].
  cbn [counting_down flat_map fmap list_fmap]. rewrite IH by lia.
  destruct (Z.eqb_spec (c - 1) BUS1_ACTIVE_BIAS); [lia|].
  destruct waitq; reflexivity.
Qed.

Lemma counting_down_to_bias (a : addr) (waitq : ptr) (n : nat) (c : Z) :
  c = BUS1_ACTIVE_BIAS + Z.of_nat n -> (0 < n)%nat ->
  flat_map (fun v => EvCount a v ::
              match waitq with
              | Some q => if v =? BUS1_ACTIVE_BIAS then [EvWakeUp q] else []
              | None => []
              end) (counting_down c n)
  = (EvCount a <$> counting_down c n)
    ++ match waitq with Some q => [EvWakeUp q] | None => [] end.
Proof.
  revert c. induction n as [|n IH]; intros c Hc Hn; [lia|].
  cbn [counting_down flat_map fmap list_fmap].
  destruct n as [|n].
  - simpl. replace (c - 1) with BUS1_ACTIVE_BIAS by lia. rewrite Z.eqb_refl.
    destruct waitq; reflexivity.
  - rewrite IH by lia.
    destruct (Z.eqb_spec (c - 1) BUS1_ACTIVE_BIAS); [lia|].
    destruct waitq; reflexivity.
Qed.

(** X17.  References are counted exactly: [n] acquires on an active object
    followed by [n] releases take the counter up one by one and down again
    to the very value it had (the counter staying at or below INT_MAX), the
    memory ends as it began, and no release wakes the wait-queue. *)
Theorem acquires_and_releases_balance
    (n : nat) (h : gmap addr Z) (a : addr) (waitq : ptr) (c : Z) :
  h !! a = Some c -> 0 <= c -> c + Z.of_nat n <= INT_MAX ->
  run (times n (bus1_active_acquire (Some a));;
       times n (bus1_active_release (Some a) waitq)) h
  = Done () h (EvCount a <$> (counting_up c n ++ counting_down (c + Z.of_nat n) n)).
Proof.
  intros Hc H0 Hmax.
  rewrite (run_then _ _ _ _ _ _ (run_times_acquire a n h c Hc H0 Hmax)).
  rewrite (run_times_release a waitq n _ (c + Z.of_nat n))
    by (try apply lookup_insert_eq; consts; lia).
  rewrite counting_down_quiet by (consts; lia).
  rewrite insert_insert_eq, fmap_app.
  replace (c + Z.of_nat n - Z.of_nat n) with c by lia.
  rewrite insert_id by assumption. reflexivity.
Qed.

Lemma acquires_and_releases_balance_witness :
  run (times 2 (bus1_active_acquire (Some 1%positive));;
       times 2 (bus1_active_release (Some 1%positive) (Some 2%positive)))
      {[1%positive := 0]}
  = Done () {[1%positive := 0]}
      (EvCount 1%positive <$> (counting_up 0 2 ++ counting_down (0 + Z.of_nat 2) 2)).
Proof.
  apply (acquires_and_releases_balance 2 {[1%positive := 0]} 1%positive (Some 2%positive) 0).
  - apply lookup_singleton_eq.
  - lia.
  - consts. simpl. lia.
Defined.

(** X18.  On a deactivated object with [n] references outstanding, the [n]
    releases bring the counter down to the bias, and the wait-queue is
    woken exactly once, by the release that drops the last reference; with
    a NULL wait-queue nobody is woken. *)
Theorem last_release_wakes_once
    (n : nat) (h : gmap addr Z) (a : addr) (waitq : ptr) :
  h !! a = Some (BUS1_ACTIVE_BIAS + Z.of_nat n) -> (0 < n)%nat ->
  BUS1_ACTIVE_BIAS + Z.of_nat n < 0 ->
  run (times n (bus1_active_release (Some a) waitq)) h
  = Done () (<[a:=BUS1_ACTIVE_BIAS]> h)
      ((EvCount a <$> counting_down (BUS1_ACTIVE_BIAS + Z.of_nat n) n)
       ++ match waitq with Some q => [EvWakeUp q] | None => [] end).
Proof.
  intros Hc Hn Hneg.
  rewrite (run_times_release a waitq n h _ Hc) by (consts; lia).
  rewrite counting_down_to_bias by (reflexivity || assumption).
  do 2 f_equal. lia.
Qed.

Lemma last_release_wakes_once_witness :
  run (times 2 (bus1_active_release (Some 1%positive) (Some 2%positive)))
      {[1%positive := BUS1_ACTIVE_BIAS + Z.of_nat 2]}
  = Done () (<[1%positive:=BUS1_ACTIVE_BIAS]> {[1%positive := BUS1_ACTIVE_BIAS + Z.of_nat 2]})
      ((EvCount 1%positive <$> counting_down (BUS1_ACTIVE_BIAS + Z.of_nat 2) 2)
       ++ [EvWakeUp 2%positive]).
Proof.
  apply (last_release_wakes_once 2 {[1%positive := BUS1_ACTIVE_BIAS + Z.of_nat 2]}
           1%positive (Some 2%positive)).
  - apply lookup_singleton_eq.
  - lia.
  - consts. simpl. lia.
Defined.

(** X19.  A whole life in one caller's hands, with any number [n] of
    references below 2^31 - 5: after init, activate, [n] acquires,
    deactivate and [n] releases, drain does not sleep, releases the object
    (the callback is called once, between the writes of RELEASE and
    DRAINED) and returns true; the only wake_up is the one of the last
    release; and destroy finds the object DRAINED, so that no WARN_ON fires
    anywhere. *)
Theorem balanced_use_drains_cleanly
    (retries n : nat) (h : gmap addr Z) (a q : addr) (release : ptr) (c0 : Z) :
  h !! a = Some c0 -> Z.of_nat n < - BUS1_ACTIVE_BIAS ->
  run (lifecycle retries n (Some a) (Some q) release) h
  = Done true (<[a:=BUS1_ACTIVE_DRAINED]> h)
      ([EvCount a BUS1_ACTIVE_NEW; EvCount a 0]
       ++ (EvCount a <$> counting_up 0 n)
       ++ [EvCount a (Z.of_nat n + BUS1_ACTIVE_BIAS)]
       ++ (EvCount a <$> counting_down (BUS1_ACTIVE_BIAS + Z.of_nat n) n)
       ++ match n with O => [] | S _ => [EvWakeUp q] end
       ++ [EvCount a BUS1_ACTIVE_RELEASE]
       ++ match release with Some f => [EvRelease f a] | None => [] end
       ++ [EvCount a BUS1_ACTIVE_DRAINED; EvWakeUpAll q]).
Proof.
  intros Hc Hn. unfold lifecycle.
  rewrite (run_then _ _ _ _ _ _ (run_init h a c0 Hc)).
  pose proof (run_activate (<[a:=BUS1_ACTIVE_NEW]> h) a _ (lookup_insert_eq _ _ _)) as Hact.
  rewrite Z.eqb_refl, insert_insert_eq in Hact.
  rewrite (run_then _ _ _ _ _ _ Hact).
  pose proof (run_times_acquire a n (<[a:=0]> h) 0 (lookup_insert_eq _ _ _)) as Hacq.
  rewrite insert_insert_eq in Hacq.
  rewrite (run_then _ _ _ _ _ _ (Hacq ltac:(lia) ltac:(consts; lia))).
  pose proof (run_deactivate (<[a:=0 + Z.of_nat n]> h) a _ (lookup_insert_eq _ _ _) retries)
    as Hde.
  rewrite Z.geb_leb in Hde.
  destruct (Z.eqb_spec (0 + Z.of_nat n) BUS1_ACTIVE_NEW) as [He|_]; [consts; lia|].
  destruct (Z.leb_spec 0 (0 + Z.of_nat n)); [|lia].
  rewrite insert_insert_eq, wrap_int_id in Hde by (consts; lia).
  replace (0 + Z.of_nat n + BUS1_ACTIVE_BIAS) with (BUS1_ACTIVE_BIAS + Z.of_nat n) in Hde by lia.
  rewrite (run_then _ _ _ _ _ _ Hde).
  assert (Hrel : run (times n (bus1_active_release (Some a) (Some q)))
                     (<[a:=BUS1_ACTIVE_BIAS + Z.of_nat n]> h)
                 = Done () (<[a:=BUS1_ACTIVE_BIAS]> h)
                     ((EvCount a <$> counting_down (BUS1_ACTIVE_BIAS + Z.of_nat n) n)
                      ++ match n with O => [] | S _ => [EvWakeUp q] end)).
  { rewrite (run_times_release a (Some q) n _ _ (lookup_insert_eq _ _ _)) by (consts; lia).
    rewrite insert_insert_eq.
    replace (BUS1_ACTIVE_BIAS + Z.of_nat n - Z.of_nat n) with BUS1_ACTIVE_BIAS by lia.
    destruct n as [|n']; [reflexivity|]. f_equal.
    apply (counting_down_to_bias a (Some q) (S n') _ eq_refl). lia. }
  rewrite (run_then _ _ _ _ _ _ Hrel).
  pose proof (run_drain_release (<[a:=BUS1_ACTIVE_BIAS]> h) a _ (lookup_insert_eq _ _ _)
                q release (or_intror eq_refl)) as Hdr.
  rewrite insert_insert_eq in Hdr.
  rewrite (run_then _ _ _ _ _ _ Hdr).
  pose proof (run_destroy (<[a:=BUS1_ACTIVE_DRAINED]> h) a _ (lookup_insert_eq _ _ _)) as Hds.
  rewrite Z.eqb_refl in Hds.
  rewrite (run_then _ _ _ _ _ _ Hds).
  unfold run. simpl run_from. rewrite ?app_nil_r.
  f_equal. simpl. rewrite <- ?app_assoc. simpl.
  replace (BUS1_ACTIVE_BIAS + Z.of_nat n) with (Z.of_nat n + BUS1_ACTIVE_BIAS) by lia.
  reflexivity.
Qed.

Lemma balanced_use_drains_cleanly_witness :
  run (lifecycle 0 2 (Some 1%positive) (Some 2%positive) (Some 3%positive)) {[1%positive := 0]}
  = Done true (<[1%positive:=BUS1_ACTIVE_DRAINED]> {[1%positive := 0]})
      ([EvCount 1%positive BUS1_ACTIVE_NEW; EvCount 1%positive 0]
       ++ (EvCount 1%positive <$> counting_up 0 2)
       ++ [EvCount 1%positive (Z.of_nat 2 + BUS1_ACTIVE_BIAS)]
       ++ (EvCount 1%positive <$> counting_down (BUS1_ACTIVE_BIAS + Z.of_nat 2) 2)
       ++ [EvWakeUp 2%positive]
       ++ [EvCount 1%positive BUS1_ACTIVE_RELEASE]
       ++ [EvRelease 3%positive 1%positive]
       ++ [EvCount 1%positive BUS1_ACTIVE_DRAINED; EvWakeUpAll 2%positive]).
Proof.
  apply (balanced_use_drains_cleanly 0 2 {[1%positive := 0]} 1%positive 2%positive
           (Some 3%positive) 0).
  - apply lookup_singleton_eq.
  - consts. simpl. lia.
Defined.

(** *** The interleaved executions, at concrete schedules *)

Lemma counter_counts_references_witness :
  match exec 1%positive 2%positive (Some 3%positive) 1 (take 6 lifecycle_schedule)
             (start 1%positive BUS1_ACTIVE_NEW) with
  | Some s =>
      exists c : Z,
        heap s !! 1%positive = Some c /\ 0 <= refs s /\ (0 <= c -> c = refs s) /\
        (BUS1_ACTIVE_BIAS <= c < 0 -> c = BUS1_ACTIVE_BIAS + refs s) /\
        (c < BUS1_ACTIVE_BIAS -> refs s = 0)
  | None => False
  end.
Proof.
  destruct (exec 1%positive 2%positive (Some 3%positive) 1 (take 6 lifecycle_schedule)
              (start 1%positive BUS1_ACTIVE_NEW)) as [s|] eqn:E.
  - apply (counter_counts_references 1%positive 2%positive (Some 3%positive) 1
             (take 6 lifecycle_schedule) s E).
    vm_compute in E. injection E as <-. cbn. repeat constructor.
  - vm_compute in E. discriminate.
Defined.

Lemma deactivated_stays_deactivated_witness :
  match exec 1%positive 2%positive (Some 3%positive) 1 (take 11 lifecycle_schedule)
             (start 1%positive BUS1_ACTIVE_NEW) with
  | Some s1 =>
      match exec 1%positive 2%positive (Some 3%positive) 1 (drop 11 lifecycle_schedule) s1 with
      | Some s2 =>
          run (bus1_active_is_deactivated (Some 1%positive)) (heap s2)
          = Done true (heap s2) [] /\
          run (bus1_active_acquire (Some 1%positive)) (heap s2) = Done NULL (heap s2) []
      | None => False
      end
  | None => False
  end.
Proof.
  destruct (exec 1%positive 2%positive (Some 3%positive) 1 (take 11 lifecycle_schedule)
              (start 1%positive BUS1_ACTIVE_NEW)) as [s1|] eqn:E1;
    [|vm_compute in E1; discriminate].
  destruct (exec 1%positive 2%positive (Some 3%positive) 1 (drop 11 lifecycle_schedule) s1)
    as [s2|] eqn:E2.
  - apply (deactivated_stays_deactivated 1%positive 2%positive (Some 3%positive) 1
             (take 11 lifecycle_schedule) (drop 11 lifecycle_schedule) s1 s2 E1 E2).
    + vm_compute in E1. injection E1 as <-. vm_compute in E2. injection E2 as <-.
      cbn. repeat constructor.
    + vm_compute in E1. injection E1 as <-. reflexivity.
  - vm_compute in E1. injection E1 as <-. vm_compute in E2. discriminate.
Defined.

Lemma drain_returns_when_drained_witness :
  match exec 1%positive 2%positive (Some 3%positive) 1 two_drains_schedule
             (start 1%positive BUS1_ACTIVE_BIAS) with
  | Some s =>
      log s !! 4%nat = Some (1%nat, ObsRet OpDrain 0) /\
      (In (1%nat, ObsEv EvWarn) (take 4 (log s)) \/
       In BUS1_ACTIVE_DRAINED (counts 1%positive (take 4 (log s))))
  | None => False
  end.
Proof.
  destruct (exec 1%positive 2%positive (Some 3%positive) 1 two_drains_schedule
              (start 1%positive BUS1_ACTIVE_BIAS)) as [s|] eqn:E.
  - assert (Hl : log s !! 4%nat = Some (1%nat, ObsRet OpDrain 0)).
    { vm_compute in E. injection E as <-. reflexivity. }
    split; [exact Hl|].
    apply (drain_returns_when_drained 1%positive 2%positive (Some 3%positive) 1
             BUS1_ACTIVE_BIAS two_drains_schedule s 4 1 0 (or_intror (or_intror eq_refl)) E);
      [|exact Hl].
    vm_compute in E. injection E as <-. cbn. repeat constructor.
  - vm_compute in E. discriminate.
Defined.

Lemma activate_succeeds_once_witness :
  match exec 1%positive 2%positive (Some 3%positive) 1
             [Call 0 OpActivate; Call 1 OpActivate; Step 0; Step 1; Step 0; Step 1]
             (start 1%positive BUS1_ACTIVE_NEW) with
  | Some s =>
      exists v v' : Z,
        log s !! 1%nat = Some (0%nat, ObsRet OpActivate v) /\
        log s !! 2%nat = Some (1%nat, ObsRet OpActivate v') /\
        (v = 0 \/ v' = 0)
  | None => False
  end.
Proof.
  destruct (exec 1%positive 2%positive (Some 3%positive) 1
              [Call 0 OpActivate; Call 1 OpActivate; Step 0; Step 1; Step 0; Step 1]
              (start 1%positive BUS1_ACTIVE_NEW)) as [s|] eqn:E.
  - assert (H1 : log s !! 1%nat = Some (0%nat, ObsRet OpActivate 1)).
    { vm_compute in E. injection E as <-. reflexivity. }
    assert (H2 : log s !! 2%nat = Some (1%nat, ObsRet OpActivate 0)).
    { vm_compute in E. injection E as <-. reflexivity. }
    exists 1, 0. split; [exact H1|]. split; [exact H2|].
    apply (activate_succeeds_once 1%positive 2%positive (Some 3%positive) 1 _ s 1 2 0 1 1 0 E);
      [|exact H1|exact H2|lia].
    vm_compute in E. injection E as <-. cbn. repeat constructor.
  - vm_compute in E. discriminate.
Defined.

Lemma acquire_needs_activation_witness :
  match exec 1%positive 2%positive (Some 3%positive) 1 lifecycle_schedule
             (start 1%positive BUS1_ACTIVE_NEW) with
  | Some s =>
      log s !! 3%nat = Some (0%nat, ObsRet OpAcquire 1) /\
      In 0 (counts 1%positive (take 3 (log s)))
  | None => False
  end.
Proof.
  destruct (exec 1%positive 2%positive (Some 3%positive) 1 lifecycle_schedule
              (start 1%positive BUS1_ACTIVE_NEW)) as [s|] eqn:E.
  - assert (Hl : log s !! 3%nat = Some (0%nat, ObsRet OpAcquire 1)).
    { vm_compute in E. injection E as <-. reflexivity. }
    split; [exact Hl|].
    apply (acquire_needs_activation 1%positive 2%positive (Some 3%positive) 1
             lifecycle_schedule s 3 0 1 E); [|exact Hl|lia].
    vm_compute in E. injection E as <-. cbn. repeat constructor.
  - vm_compute in E. discriminate.
Defined.

End ActiveProofs.

(** ** main.c: poll *)

Module MainProofs.
Import Queue Active Main.




End MainProofs.

